(** * SparkLend automations: deployment reconciler, all-in-one deployer and
      the cross-chain oracle ticker, embedded in Rocq.

    Sources embedded here:
    - [scripts/deploy.ts]     (module [Deploy]):    config-driven reconciler
    - [scripts/deployAll.ts]  (module [DeployAll]): all-in-one deployer
    - the xchain-oracle-ticker handler (module [XchainOracleTicker])

    JavaScript strings are modelled as [string]; every string the scripts
    build themselves (hex digests, task names, tags) is ASCII, where a
    Rocq character, a UTF-16 code unit and a UTF-8 byte coincide. *)

From Stdlib Require Import List String Ascii NArith ZArith Bool Lia.
From Stdlib.Strings Require Import Byte.
From Stdlib Require DecimalString.
Import ListNotations.
Open Scope string_scope.

(* ================================================================== *)
(** * JavaScript primitives used by the scripts *)
(* ================================================================== *)

Module Js.

(** [s.slice(0, -n)] for [n > 0]: the string without its last [n]
    characters, the empty string when it has no more than [n]. *)
Definition slice_end (s : string) (n : nat) : string :=
  substring 0 (String.length s - n) s.

(** Truthiness of a value that is either [undefined] or a string. *)
Definition truthy (v : option string) : bool :=
  match v with
  | Some s => negb (String.eqb s "")
  | None => false
  end.

(** [xs.includes(x)] on an array of strings. *)
Fixpoint includes (xs : list string) (x : string) : bool :=
  match xs with
  | [] => false
  | y :: ys => String.eqb y x || includes ys x
  end.

(** A plain object used as a dictionary: its own string keys, in
    insertion order.  (The engine lists integer-like keys first; the names
    the scripts build contain a space and are never integer-like.  A
    lookup sees own properties only: no key the scripts look up with a
    space in it names a property of [Object.prototype].) *)
Definition obj (V : Type) := list (string * V).

Fixpoint get {V} (o : obj V) (k : string) : option V :=
  match o with
  | [] => None
  | (k', v) :: o' => if String.eqb k' k then Some v else get o' k
  end.

(** Defining or overwriting an own property: in place when the key is
    there, appended otherwise. *)
Fixpoint set {V} (o : obj V) (k : string) (v : V) : obj V :=
  match o with
  | [] => [(k, v)]
  | (k', v') :: o' =>
      if String.eqb k' k then (k', v) :: o' else (k', v') :: set o' k v
  end.

(** The assignment [o[k] = v] on an object literal.  For the key
    [__proto__] the assignment reaches the prototype setter and creates no
    own property; every other key is defined on the object itself. *)
Definition assign {V} (o : obj V) (k : string) (v : V) : obj V :=
  if String.eqb k "__proto__" then o else set o k v.

(** [delete o[k]]. *)
Fixpoint delete {V} (o : obj V) (k : string) : obj V :=
  match o with
  | [] => []
  | (k', v') :: o' =>
      if String.eqb k' k then delete o' k else (k', v') :: delete o' k
  end.

Definition keys {V} (o : obj V) : list string := map fst o.

(** The strings of a list are pairwise distinct. *)
Fixpoint distinct (xs : list string) : bool :=
  match xs with
  | [] => true
  | x :: xs' => negb (includes xs' x) && distinct xs'
  end.

End Js.

(** The line feed character, as a string. *)
Definition nl : string := String (ascii_of_nat 10) EmptyString.

(* ================================================================== *)
(** * keccak256, as [ethers.utils.keccak256] computes it *)
(* ================================================================== *)

Module Keccak.

Local Open Scope N_scope.

Definition mask64 : N := 0xFFFFFFFFFFFFFFFF.

Definition rotl64 (w r : N) : N :=
  N.lor (N.land (N.shiftl w r) mask64) (N.shiftr w (64 - r)).

Definition lane (st : list N) (i : nat) : N := nth i st 0.

Definition round_constants : list N :=
  [ 0x0000000000000001; 0x0000000000008082; 0x800000000000808A;
    0x8000000080008000; 0x000000000000808B; 0x0000000080000001;
    0x8000000080008081; 0x8000000000008009; 0x000000000000008A;
    0x0000000000000088; 0x0000000080008009; 0x000000008000000A;
    0x000000008000808B; 0x800000000000008B; 0x8000000000008089;
    0x8000000000008003; 0x8000000000008002; 0x8000000000000080;
    0x000000000000800A; 0x800000008000000A; 0x8000000080008081;
    0x8000000000008080; 0x0000000080000001; 0x8000000080008008 ].

(** Rotation offsets, indexed by [x + 5 * y]. *)
Definition rotation_offsets : list N :=
  [  0;  1; 62; 28; 27;
    36; 44;  6; 55; 20;
     3; 10; 43; 25; 39;
    41; 45; 15; 21;  8;
    18;  2; 61; 56; 14 ].

Definition idx (x y : nat) : nat := (x mod 5 + 5 * (y mod 5))%nat.

Definition cells : list (nat * nat) :=
  flat_map (fun y => map (fun x => (x, y)) (seq 0 5)) (seq 0 5).

Definition theta (a : list N) : list N :=
  let c := map (fun x =>
              fold_left N.lxor (map (fun y => lane a (idx x y)) (seq 0 5)) 0)
              (seq 0 5) in
  let d := map (fun x =>
              N.lxor (lane c ((x + 4) mod 5)) (rotl64 (lane c ((x + 1) mod 5)) 1))
              (seq 0 5) in
  map (fun '(x, y) => N.lxor (lane a (idx x y)) (lane d x)) cells.

(** [rho] and [pi] together: [B[y][2x+3y] = rot(A[x][y], r[x][y])]; read
    backwards, cell [(X, Y)] of the result comes from [x = X + 3Y],
    [y = X]. *)
Definition rho_pi (a : list N) : list N :=
  map (fun '(x', y') =>
         let x := ((x' + 3 * y') mod 5)%nat in
         let y := x' in
         rotl64 (lane a (idx x y)) (nth (idx x y) rotation_offsets 0))
      cells.

Definition chi (b : list N) : list N :=
  map (fun '(x, y) =>
         N.lxor (lane b (idx x y))
                (N.ldiff (lane b (idx (x + 2) y)) (lane b (idx (x + 1) y))))
      cells.

Definition iota (rc : N) (a : list N) : list N :=
  match a with
  | [] => []
  | a0 :: rest => N.lxor a0 rc :: rest
  end.

Definition round (a : list N) (rc : N) : list N :=
  iota rc (chi (rho_pi (theta a))).

Definition keccak_f (a : list N) : list N :=
  fold_left round round_constants a.

(** Little-endian lane of (up to) eight bytes. *)
Fixpoint lane_of_bytes (bs : list N) : N :=
  match bs with
  | [] => 0
  | b :: bs' => b + 256 * lane_of_bytes bs'
  end.

Fixpoint bytes_of_lane (n : nat) (w : N) : list N :=
  match n with
  | O => []
  | S n' => (w mod 256) :: bytes_of_lane n' (w / 256)
  end.

Fixpoint lanes_of_block (n : nat) (bs : list N) : list N :=
  match n with
  | O => []
  | S n' => lane_of_bytes (firstn 8 bs) :: lanes_of_block n' (skipn 8 bs)
  end.

Definition rate : nat := 136.

(** Keccak's original multi-rate padding: [0x01], zeros, [0x80]. *)
Definition pad (msg : list N) : list N :=
  let q := (rate - (List.length msg mod rate))%nat in
  if Nat.eqb q 1 then msg ++ [0x81]
  else msg ++ [0x01] ++ repeat 0 (q - 2) ++ [0x80].

Fixpoint blocks (fuel : nat) (bs : list N) : list (list N) :=
  match fuel with
  | O => []
  | S fuel' =>
      match bs with
      | [] => []
      | _ => firstn rate bs :: blocks fuel' (skipn rate bs)
      end
  end.

Fixpoint xor_lanes (st blk : list N) : list N :=
  match st, blk with
  | s :: st', b :: blk' => N.lxor s b :: xor_lanes st' blk'
  | _, _ => st
  end.

Definition absorb (st : list N) (blk : list N) : list N :=
  keccak_f (xor_lanes st (lanes_of_block 17 blk)).

Definition digest (msg : list N) : list N :=
  let padded := pad msg in
  let st := fold_left absorb (blocks (List.length padded) padded) (repeat 0 25) in
  flat_map (bytes_of_lane 8) (firstn 4 st).

Definition hex_digit (n : N) : ascii :=
  if n <? 10 then ascii_of_N (48 + n) else ascii_of_N (87 + n).

Fixpoint hexlify (bs : list N) : string :=
  match bs with
  | [] => EmptyString
  | b :: bs' => String (hex_digit (b / 16)) (String (hex_digit (b mod 16)) (hexlify bs'))
  end.

End Keccak.

(** [Buffer.from(str, 'utf-8')]: the bytes of a string. *)
Definition getBufferFromString (str : string) : list Byte.byte :=
  list_byte_of_string str.

(** [utils.keccak256(bytes)]: the digest as a [0x]-prefixed lower-case
    hex string of 66 characters. *)
Definition keccak256 (data : list Byte.byte) : string :=
  "0x" ++ Keccak.hexlify (Keccak.digest (map Byte.to_N data)).


(* ================================================================== *)
(** * Effects: a trace of observable actions and exceptions *)
(* ================================================================== *)

(** The trigger payload handed to the automation SDK. *)
Inductive TriggerConfig : Type :=
| TriggerBLOCK
| TriggerCRON (cron : string)
| TriggerEVENT (address : string) (topics : list (list string))
               (blockConfirmations : Z)
| TriggerTIME (interval : Z).

(** What a script does to the outside world, in program order. *)
Inductive Event : Type :=
| Log (line : string)
| Pause
| GetActiveTasks (domain : string)
| CreateBatchExecTask (domain name web3FunctionHash web3FunctionArgs : string)
                      (trigger : TriggerConfig)
| TxWait (taskId : string)
| SecretsSet (domain : string) (secrets : Js.obj string) (taskId : string)
| CancelTask (domain taskId : string)
| WriteFile (path : string) (content : Js.obj string)
| SlackMessage (url text : string).

Definition is_create (e : Event) : bool :=
  match e with CreateBatchExecTask _ _ _ _ _ => true | _ => false end.

Definition is_cancel (e : Event) : bool :=
  match e with CancelTask _ _ => true | _ => false end.

(** A step that only reads or reports: a log line or a task listing. *)
Definition is_passive (e : Event) : bool :=
  match e with Log _ | GetActiveTasks _ => true | _ => false end.

(** A call into the vendor SDK. *)
Definition is_sdk_call (e : Event) : bool :=
  match e with
  | Log _ | Pause | WriteFile _ _ | SlackMessage _ _ => false
  | _ => true
  end.

Inductive outcome (A : Type) : Type :=
| Ok (a : A)
| Throw (msg : string).
Arguments Ok {A} a.
Arguments Throw {A} msg.

(** A computation: the actions performed, then a value or the exception
    that ended it. *)
Definition M (A : Type) : Type := (list Event * outcome A)%type.

Definition ret {A} (a : A) : M A := ([], Ok a).

Definition throw {A} (msg : string) : M A := ([], Throw msg).

Definition bind {A B} (m : M A) (f : A -> M B) : M B :=
  match m with
  | (t, Ok a) => let (t', r) := f a in ((t ++ t')%list, r)
  | (t, Throw msg) => (t, Throw msg)
  end.

Definition emit (e : Event) : M unit := ([e], Ok tt).

Definition lift {A} (r : outcome A) : M A := ([], r).

Notation "x <- m ;; k" := (bind m (fun x => k))
  (at level 61, m at next level, right associativity).
Notation "m ;;; k" := (bind m (fun _ => k))
  (at level 61, right associativity).

(** [for (const x of xs) { s = body(x, s) }] with the loop state threaded
    through; an exception in one iteration ends the loop. *)
Fixpoint for_each {A S} (body : A -> S -> M S) (xs : list A) (s : S) : M S :=
  match xs with
  | [] => ret s
  | x :: xs' => s' <- body x s ;; for_each body xs' s'
  end.

Definition trace {A} (m : M A) : list Event := fst m.
Definition result {A} (m : M A) : outcome A := snd m.

Definition count_events (p : Event -> bool) (t : list Event) : nat :=
  List.length (filter p t).

(** The names of the tasks a trace creates, in order. *)
Fixpoint created_names (t : list Event) : list string :=
  match t with
  | [] => []
  | CreateBatchExecTask _ name _ _ _ :: t' => name :: created_names t'
  | _ :: t' => created_names t'
  end.

(* ================================================================== *)
(** * The contract interface of the ethers library, events only *)
(* ================================================================== *)

Module Interface.

(** The library is a dependency of the scripts, not part of them.  What
    follows is what [new utils.Interface(abi)] and [getEventTopic] of
    ethers 5 do with the events of an ABI when the event is asked for by
    its bare name, the form the configs and [deployAll.ts] use. *)

#[local] Set Warnings "-register-all".

(** A parameter type of an ABI entry. *)
Inductive ParamType : Type :=
| PBase (type : string)
| PArray (child : ParamType) (len : option nat)
| PTuple (components : list ParamType).

Definition decimal (n : nat) : string :=
  DecimalString.NilEmpty.string_of_uint (Nat.to_uint n).

Fixpoint join (sep : string) (parts : list string) : string :=
  match parts with
  | [] => ""
  | [p] => p
  | p :: ps => p ++ sep ++ join sep ps
  end.

(** The canonical ("sighash") rendering of a type. *)
Fixpoint format (p : ParamType) : string :=
  match p with
  | PBase t => t
  | PArray c len =>
      format c ++ "[" ++ match len with Some n => decimal n | None => "" end ++ "]"
  | PTuple cs => "(" ++ join "," (map format cs) ++ ")"
  end.

Record EventFragment : Type := {
  name : string;
  inputs : list ParamType;
}.

(** The canonical signature [Name(type1,type2,...)]. *)
Definition signature (e : EventFragment) : string :=
  name e ++ "(" ++ join "," (map format (inputs e)) ++ ")".

Inductive Fragment : Type :=
| FragEvent (e : EventFragment)
| FragOther.   (* functions, errors, constructor, fallback *)

Definition Abi : Type := list Fragment.

(** [new utils.Interface(abi)]: events are registered under their
    canonical signature, the first definition of a signature wins. *)
Fixpoint events_from (abi : Abi) (bucket : Js.obj EventFragment)
  : Js.obj EventFragment :=
  match abi with
  | [] => bucket
  | FragEvent e :: abi' =>
      match Js.get bucket (signature e) with
      | Some _ => events_from abi' bucket
      | None => events_from abi' (Js.set bucket (signature e) e)
      end
  | FragOther :: abi' => events_from abi' bucket
  end.

Definition events (abi : Abi) : Js.obj EventFragment := events_from abi [].

Definition is_name_char (c : ascii) : bool :=
  let n := nat_of_ascii c in
  (((48 <=? n) && (n <=? 57)) || ((65 <=? n) && (n <=? 90))
   || ((97 <=? n) && (n <=? 122)) || (n =? 95) || (n =? 36))%nat.

Definition is_digit (c : ascii) : bool :=
  let n := nat_of_ascii c in ((48 <=? n) && (n <=? 57))%nat.

(** A bare event name: a Solidity identifier.  It has no parenthesis, no
    surrounding blanks, and is no hex string, so the lookup below is the
    one the library performs for it. *)
Definition plain_name (s : string) : bool :=
  forallb is_name_char (list_ascii_of_string s)
  && match s with
     | String c _ => negb (is_digit c)
     | EmptyString => true
     end.

(** [getEvent(name)] for a bare name: the registered events whose
    signature starts with that name and a parenthesis, that is, the events
    of that name; none or several is an error. *)
Definition getEvent (abi : Abi) (nm : string) : outcome EventFragment :=
  match filter (fun kv => String.eqb (name (snd kv)) nm) (events abi) with
  | [] => Throw "no matching event"
  | [kv] => Ok (snd kv)
  | _ => Throw "multiple matching events"
  end.

(** [getEventTopic(name)]: [id(fragment.format())], the keccak256 of the
    UTF-8 bytes of the canonical signature. *)
Definition getEventTopic (abi : Abi) (nm : string) : outcome string :=
  match getEvent abi nm with
  | Ok e => Ok (keccak256 (getBufferFromString (signature e)))
  | Throw msg => Throw msg
  end.

End Interface.

(** The [AnswerUpdated] event of a price aggregator and its topic. *)
Definition AnswerUpdated : Interface.EventFragment :=
  {| Interface.name := "AnswerUpdated";
     Interface.inputs := [Interface.PBase "int256"; Interface.PBase "uint256";
                          Interface.PBase "uint256"] |}.


(* ================================================================== *)
(** * scripts/deploy.ts: the config-driven reconciler *)
(* ================================================================== *)

Module Deploy.

(** ** Constants and types *)

Definition domains : list string := ["mainnet"; "gnosis"].

Definition triggerTypeNames : list string := ["block"; "cron"; "event"; "time"].

Record TopicRef : Type := {
  abiName : string;
  eventName : string;
}.

(** The [trigger] object of a config, typed as the script declares it.
    [OtherTrigger] stands for an object whose [type] is none of the four
    known discriminants.  The numbers are the integers the config holds;
    [Number(n)] of a number is that number. *)
Inductive Trigger : Type :=
| BlockTrigger
| CronTrigger (cron : string)
| EventTrigger (address : string) (topics : list TopicRef)
               (blockConfirmations : Z)
| TimeTrigger (interval : Z)
| OtherTrigger (type : string).

Definition trigger_type (t : Trigger) : string :=
  match t with
  | BlockTrigger => "block"
  | CronTrigger _ => "cron"
  | EventTrigger _ _ _ => "event"
  | TimeTrigger _ => "time"
  | OtherTrigger ty => ty
  end.

Record DeploymentConfig : Type := {
  domain : string;
  args : string;              (* free-form arguments, kept as their JSON text *)
  secrets : Js.obj string;    (* secret key -> name of an environment variable *)
  trigger : Trigger;
}.

(** One file of a keeper's config directory: its name, its raw bytes and
    what [JSON.parse] makes of them ([None]: the parse throws). *)
Record ConfigFile : Type := {
  fileName : string;
  rawConfig : list byte;
  parsed : option DeploymentConfig;
}.

Record Task : Type := {
  taskId : string;
  taskName : string;
}.

(** An entry of the [oldTasks] working set. *)
Record TaskRef : Type := {
  refTaskId : string;
  refDomain : string;
}.

(** Everything the script reads from outside: environment, files, and the
    answers of the vendor SDK. *)
Record World : Type := {
  env : string -> option string;                  (* process.env *)
  readFileUtf8 : string -> option string;         (* None: the read throws *)
  decryptKeystore : string -> string -> option string;
      (* Wallet.fromEncryptedJsonSync(keystore, password).privateKey *)
  w3fNames : list string;          (* directories of ./web3-functions *)
  w3fConfigs : list string;        (* directories of ./scripts/configs *)
  ipfsDeployments : Js.obj string; (* ./scripts/pre-deployments.json *)
  configFiles : string -> list ConfigFile;  (* JSON files of one keeper *)
  abis : string -> option Interface.Abi;    (* ./abis/<name>.json *)
  activeTasks : string -> list Task;        (* getActiveTasks() per domain *)
  createdTaskId : Event -> string;  (* the task id a create call returns *)
  rejects : Event -> bool;          (* the vendor fails this call or wait *)
}.

(** A call into the SDK, or the wait for a transaction: it is attempted,
    and throws when the vendor fails it. *)
Definition sdk (w : World) (e : Event) : M unit :=
  emit e ;;; if rejects w e then throw "transaction failed" else ret tt.

(** ** Helper functions *)

Fixpoint resolveTopics (w : World) (refs : list TopicRef) (acc : list string)
  : outcome (list string) :=
  match refs with
  | [] => Ok acc
  | topic :: refs' =>
      match abis w (abiName topic) with
      | None => Throw "ENOENT: no such file or directory"
      | Some abi =>
          match Interface.getEventTopic abi (eventName topic) with
          | Ok t => resolveTopics w refs' (acc ++ [t])%list
          | Throw msg => Throw msg
          end
      end
  end.

Definition createTriggerConfig (w : World) (t : Trigger) : outcome TriggerConfig :=
  match t with
  | BlockTrigger => Ok TriggerBLOCK
  | CronTrigger cron => Ok (TriggerCRON cron)
  | EventTrigger address topics blockConfirmations =>
      match resolveTopics w topics [] with
      | Ok ts => Ok (TriggerEVENT address [ts] blockConfirmations)
      | Throw msg => Throw msg
      end
  | TimeTrigger interval => Ok (TriggerTIME interval)
  | OtherTrigger _ => Throw "Unknown trigger type"
  end.


Definition createHash (rawConfig : list byte) (ipfsDeployment : string) : string :=
  let configHash := keccak256 rawConfig in
  let ipfsDeploymentHash := keccak256 (getBufferFromString ipfsDeployment) in
  keccak256 (getBufferFromString (configHash ++ ipfsDeploymentHash)).

(** ** Script setup *)


(** ** Execution *)

(** The working set of active tasks, indexed by name, over both domains. *)
Definition indexTasks (domain : string) (tasks : list Task)
    (oldTasks : Js.obj TaskRef) : Js.obj TaskRef :=
  fold_left (fun o task =>
               Js.assign o (taskName task)
                         {| refTaskId := taskId task; refDomain := domain |})
            tasks oldTasks.

Definition loadOldTasks (w : World) : M (Js.obj TaskRef) :=
  for_each (fun domain oldTasks =>
              sdk w (GetActiveTasks domain) ;;;
              ret (indexTasks domain (activeTasks w domain) oldTasks))
           domains [].

(** [`${configName} ${hash}`], [configName] being the file name without
    its last five characters. *)
Definition deploymentName (cf : ConfigFile) (ipfsDeployment : string) : string :=
  Js.slice_end (fileName cf) 5 ++ " " ++ createHash (rawConfig cf) ipfsDeployment.

(** The [reduce] over [Object.entries(config.secrets)]. *)
Fixpoint resolveSecrets (w : World) (entries : Js.obj string)
    (acc : Js.obj string) : outcome (Js.obj string) :=
  match entries with
  | [] => Ok acc
  | (key, envVarName) :: entries' =>
      if Js.truthy (env w envVarName) then
        match env w envVarName with
        | Some value => resolveSecrets w entries' (Js.assign acc key value)
        | None => Throw (envVarName ++ " env variable is not defined")
        end
      else Throw (envVarName ++ " env variable is not defined")
  end.

(** The body of the loop over the config files of one keeper. *)
Definition processConfig (w : World) (ipfsDeployment : string)
    (cf : ConfigFile) (oldTasks : Js.obj TaskRef) : M (Js.obj TaskRef) :=
  match parsed cf with
  | None => throw "Unexpected token in JSON"
  | Some config =>
      if negb (Js.includes domains (domain config)) then
        emit (Log ("Domain " ++ domain config ++ " is not supported")) ;;;
        ret oldTasks
      else if negb (Js.includes triggerTypeNames (trigger_type (trigger config))) then
        emit (Log ("Trigger type " ++ trigger_type (trigger config)
                   ++ " is not supported")) ;;;
        ret oldTasks
      else
        let name := deploymentName cf ipfsDeployment in
        match Js.get oldTasks name with
        | Some _ =>
            emit (Log ("Task " ++ name ++ " is already active")) ;;;
            ret (Js.delete oldTasks name)
        | None =>
            triggerConfig <- lift (createTriggerConfig w (trigger config)) ;;
            secrets <- lift (resolveSecrets w (secrets config) []) ;;
            emit (Log ("Deploying " ++ name)) ;;;
            emit Pause ;;;
            let create := CreateBatchExecTask (domain config) name ipfsDeployment
                                              (args config) triggerConfig in
            sdk w create ;;;
            sdk w (TxWait (createdTaskId w create)) ;;;
            sdk w (SecretsSet (domain config) secrets (createdTaskId w create)) ;;;
            ret oldTasks
        end
  end.

(** The body of the loop over the keeper types. *)
Definition processKeeper (w : World) (w3fName : string)
    (oldTasks : Js.obj TaskRef) : M (Js.obj TaskRef) :=
  if negb (Js.includes (w3fConfigs w) w3fName) then
    emit (Log ("No configs for " ++ w3fName)) ;;; ret oldTasks
  else if negb (Js.truthy (Js.get (ipfsDeployments w) w3fName)) then
    emit (Log ("No IPFS deployment for " ++ w3fName)) ;;; ret oldTasks
  else
    match Js.get (ipfsDeployments w) w3fName, configFiles w w3fName with
    | None, _ => ret oldTasks
    | Some _, [] => emit (Log ("No configs for " ++ w3fName)) ;;; ret oldTasks
    | Some ipfsDeployment, files =>
        emit (Log ("Deploying " ++ w3fName)) ;;;
        for_each (processConfig w ipfsDeployment) files oldTasks
    end.

(** The final pass: whatever is left in the working set is cancelled. *)
Definition cancelTask (w : World) (entry : string * TaskRef) (_ : unit) : M unit :=
  emit (Log ("Cancelling task " ++ fst entry)) ;;;
  sdk w (CancelTask (refDomain (snd entry)) (refTaskId (snd entry))) ;;;
  sdk w (TxWait (refTaskId (snd entry))).

Definition reconcile (w : World) : M unit :=
  oldTasks <- loadOldTasks w ;;
  remaining <- for_each (processKeeper w) (w3fNames w) oldTasks ;;
  for_each (cancelTask w) remaining tt.


(** ** What the local configs ask for *)

(** A config file that reaches the naming step: it parses, and its domain
    and trigger type are supported. *)
Definition eligible (cf : ConfigFile) : bool :=
  match parsed cf with
  | Some config =>
      Js.includes domains (domain config)
      && Js.includes triggerTypeNames (trigger_type (trigger config))
  | None => false
  end.

(** The deployment names one keeper type derives, in processing order. *)
Definition keeperNames (w : World) (w3fName : string) : list string :=
  if Js.includes (w3fConfigs w) w3fName
     && Js.truthy (Js.get (ipfsDeployments w) w3fName) then
    match Js.get (ipfsDeployments w) w3fName with
    | Some ipfsDeployment =>
        map (fun cf => deploymentName cf ipfsDeployment)
            (filter eligible (configFiles w w3fName))
    | None => []
    end
  else [].

Definition derivedNames (w : World) : list string :=
  flat_map (keeperNames w) (w3fNames w).

(** The names of the active tasks, over both domains. *)
Definition activeNames (w : World) : list string :=
  flat_map (fun domain => map taskName (activeTasks w domain)) domains.

(** The active task set matches the local configs: the configs derive
    pairwise distinct names, and the tasks that are active are exactly the
    tasks of these names. *)
Definition in_sync (w : World) : Prop :=
  NoDup (derivedNames w)
  /\ forall name, In name (activeNames w) <-> In name (derivedNames w).

(** ** What can go wrong with one config *)

(** A topic reference that cannot be resolved: the ABI file is missing, or
    no event of the ABI bears the name. *)
Definition unresolvable (w : World) (ref : TopicRef) : Prop :=
  match abis w (abiName ref) with
  | None => True
  | Some abi =>
      forall e, In (Interface.FragEvent e) abi ->
                Interface.name e <> eventName ref
  end.

(** The event names of an ABI are identifiers; the library refuses to
    build an interface from anything else. *)
Definition well_formed (abi : Interface.Abi) : Prop :=
  forall e, In (Interface.FragEvent e) abi ->
            Interface.plain_name (Interface.name e) = true.

(** A topic reference that resolves to [topic]: the ABI file exists and
    holds an event of that name, under one signature only; the topic is
    the keccak256 of that canonical signature. *)
Definition resolves (w : World) (ref : TopicRef) (topic : string) : Prop :=
  exists abi e,
    abis w (abiName ref) = Some abi
    /\ well_formed abi
    /\ In (Interface.FragEvent e) abi
    /\ Interface.name e = eventName ref
    /\ (forall e', In (Interface.FragEvent e') abi ->
                   Interface.name e' = eventName ref ->
                   Interface.signature e' = Interface.signature e)
    /\ topic = keccak256 (getBufferFromString (Interface.signature e)).





End Deploy.

(* ================================================================== *)
(** * scripts/deployAll.ts: the all-in-one deployer *)
(* ================================================================== *)

Module DeployAll.

Import Deploy.

Definition hourInMilliseconds : Z := 1000 * 60 * 60.

Record World : Type := {
  deploymentDate : string;            (* new Date().toISOString() *)
  ipfsDeployments : Js.obj string;    (* ./scripts/pre-deployments.json *)
  slackWebhookUrl : string;
  etherscanApiKey : string;
  activeTasks : string -> list Task;  (* getActiveTasks() per domain *)
  createdTaskId : Event -> string;
  rejects : Event -> bool;
}.

(** The mutable state of the script is the in-memory [gelatoDeployments]
    object, parsed from [./scripts/deployments.json] at start-up.  The
    file itself changes through [WriteFile] events only: its content after
    a trace is what the last write left, modulo JSON rendering. *)
Definition deploymentsPath : string := "./scripts/deployments.json".

Definition file_step (content : Js.obj string) (e : Event) : Js.obj string :=
  match e with
  | WriteFile path c => if String.eqb path deploymentsPath then c else content
  | _ => content
  end.

Definition file_after (content : Js.obj string) (t : list Event) : Js.obj string :=
  fold_left file_step t content.

Definition is_write (e : Event) : bool :=
  match e with WriteFile _ _ => true | _ => false end.

Definition sdk (w : World) (e : Event) : M unit :=
  emit e ;;; if rejects w e then throw "transaction failed" else ret tt.

(** [` <${deploymentDate.slice(0, 10)} ${deploymentDate.slice(11, 19)}>`] *)
Definition deploymentTag (w : World) : string :=
  " <" ++ substring 0 10 (deploymentDate w) ++ " "
       ++ substring 11 8 (deploymentDate w) ++ ">".

(** [deploy(w3fName, deploymentLogic)], with [gelatoDeployments] passed
    explicitly. *)
Definition deploy (w3fName : string) (w : World)
    (deploymentLogic : string -> M unit) (gelatoDeployments : Js.obj string)
  : M (Js.obj string) :=
  let ipfsDeployment := Js.get (ipfsDeployments w) w3fName in
  let gelatoDeployment := Js.get gelatoDeployments w3fName in
  emit (Log (nl ++ "== Deploying " ++ w3fName ++ " ==")) ;;;
  match ipfsDeployment with
  | None =>
      emit (Log ("   * Skipping " ++ w3fName
                 ++ " deployment (no IPFS deployment found)")) ;;;
      ret gelatoDeployments
  | Some ipfs =>
      if match gelatoDeployment with
         | Some g => String.eqb ipfs g
         | None => false
         end
      then
        emit (Log ("   * Skipping " ++ w3fName
                   ++ " deployment (already deployed)")) ;;;
        ret gelatoDeployments
      else
        emit (Log ("   * Deployment of " ++ w3fName
                   ++ " to be executed (IPFS hash: " ++ ipfs ++ ")")) ;;;
        emit Pause ;;;
        emit (Log ("   * Deploying " ++ w3fName ++ "...")) ;;;
        deploymentLogic ipfs ;;;
        emit (Log ("   * Deployed " ++ w3fName ++ " successfully!")) ;;;
        let updated := Js.assign gelatoDeployments w3fName ipfs in
        emit (WriteFile deploymentsPath updated) ;;;
        ret updated
  end.

(** The filter of [retirePreviouslyDeployedTasks]. *)
Definition toRetire (w : World) (taskNames : list string) (task : Task) : bool :=
  Js.includes taskNames
              (Js.slice_end (taskName task) (String.length (deploymentTag w))).

Definition retireTask (w : World) (domain : string) (task : Task) (_ : unit)
  : M unit :=
  emit (Log ("   * Retiring " ++ taskName task ++ "...")) ;;;
  sdk w (CancelTask domain (taskId task)) ;;;
  sdk w (TxWait (taskId task)) ;;;
  emit (Log ("   * " ++ taskName task ++ " retired successfully!")).

Definition retirePreviouslyDeployedTasks (w : World) (domain : string)
    (taskNames : list string) : M unit :=
  sdk w (GetActiveTasks domain) ;;;
  let tasksToRetire := filter (toRetire w taskNames) (activeTasks w domain) in
  for_each (retireTask w domain) tasksToRetire tt.

(** The deployment logic of the cap automator, the first keeper of the
    script; the others follow the same pattern. *)
Definition capAutomatorLogic (w : World) (ipfsDeployment : string) : M unit :=
  let taskNames := ["Cap Automator"] in
  retirePreviouslyDeployedTasks w "mainnet" taskNames ;;;
  let create :=
    CreateBatchExecTask "mainnet" ("Cap Automator" ++ deploymentTag w)
      ipfsDeployment
      "{threshold: 5000, performGasCheck: true, sendSlackMessages: true}"
      (TriggerTIME hourInMilliseconds) in
  sdk w create ;;;
  sdk w (TxWait (createdTaskId w create)) ;;;
  sdk w (SecretsSet "mainnet"
           [("SLACK_WEBHOOK_URL", slackWebhookUrl w);
            ("ETHERSCAN_API_KEY", etherscanApiKey w)]
           (createdTaskId w create)).

End DeployAll.

(* ================================================================== *)
(** * The xchain-oracle-ticker handler *)
(* ================================================================== *)

Module XchainOracleTicker.

(** What [getLastSeenPotData] of a forwarder decodes to. *)
Record PotData : Type := {
  dsr : Z;
  rho : Z;
}.

(** The arguments given to [encodeFunctionData('refresh', ...)]. *)
Inductive CallData : Type :=
| Refresh (gasLimit : Z)
| RefreshArbitrum (gasLimit maxFeePerGas baseFee : Z).

Record Call : Type := {
  to : string;
  data : CallData;
}.

Inductive Web3FunctionResult : Type :=
| NoExec (message : string)     (* canExec: false *)
| Exec (callData : list Call).  (* canExec: true *)

(** The context of one invocation.  The two forwarder tables come from
    the address book of the repository, which is not part of the sources
    at hand: they are taken as they come, keyed by domain alias. *)
Record Context : Type := {
  maxDelta : Z;
  gasLimit : Z;
  sendSlackMessages : bool;
  slackWebhookUrl : string;
  optimismStyle : Js.obj string;
  arbitrumStyle : Js.obj string;
  currentDsr : Z;                   (* pot.dsr() *)
  latestTimestamp : Z;              (* timestamp of the latest block *)
  multicallResults : list PotData;  (* one per multicall, in call order *)
  gasPrice : Z;                     (* provider.getGasPrice() *)
  arbitrumGasPrice : string -> Z;   (* getGasPrice() of the provider at a URL *)
}.

(** [arbitrumDomainUrls], keyed by the address of the forwarder registered
    under the alias [arbitrum]. *)
Definition arbitrumDomainUrls (c : Context) : Js.obj string :=
  [ (match Js.get (arbitrumStyle c) "arbitrum" with
     | Some a => a
     | None => "undefined"
     end, "https://arb1.arbitrum.io/rpc") ].

(** The condition of both [if]s. *)
Definition stale (c : Context) (d : PotData) : bool :=
  negb (dsr d =? currentDsr c)%Z || (latestTimestamp c >? rho d + maxDelta c)%Z.

Definition generateSlackMessageBit (domainAlias : string) : string :=
  nl ++ " - " ++ domainAlias.

Definition generateSlackMessage (messageBits : list string) : string :=
  "```🦾🔮 DSR Oracle Keeper 🦾🔮" ++ nl ++ "Feed refresh to be sent to:"
  ++ String.concat "" messageBits ++ "```".

(** The loop state: pending multicall results, calls, message bits. *)
Record Acc : Type := {
  results : list PotData;
  callsToExecute : list Call;
  slackMessageBits : list string;
}.

Definition optimismStep (c : Context) (entry : string * string) (acc : Acc)
  : M Acc :=
  match results acc with
  | [] => throw "cannot decode an undefined result"
  | lastForwardedPotData :: rest =>
      if stale c lastForwardedPotData then
        ret {| results := rest;
               callsToExecute :=
                 (callsToExecute acc
                  ++ [{| to := snd entry; data := Refresh (gasLimit c) |}])%list;
               slackMessageBits :=
                 (slackMessageBits acc
                  ++ [generateSlackMessageBit (fst entry)])%list |}
      else
        ret {| results := rest;
               callsToExecute := callsToExecute acc;
               slackMessageBits := slackMessageBits acc |}
  end.

Definition arbitrumStep (c : Context) (entry : string * string) (acc : Acc)
  : M Acc :=
  match Js.get (arbitrumDomainUrls c) (snd entry) with
  | None => ret acc   (* Domain not supported *)
  | Some url =>
      let baseFee := Z.quot (gasPrice c * 120) 100 in
      let maxFeePerGas := Z.quot (arbitrumGasPrice c url * 120) 100 in
      match results acc with
      | [] => throw "cannot decode an undefined result"
      | lastForwardedPotData :: rest =>
          if stale c lastForwardedPotData then
            ret {| results := rest;
                   callsToExecute :=
                     (callsToExecute acc
                      ++ [{| to := snd entry;
                             data := RefreshArbitrum (gasLimit c) maxFeePerGas
                                                     baseFee |}])%list;
                   slackMessageBits :=
                     (slackMessageBits acc
                      ++ [generateSlackMessageBit (fst entry)])%list |}
          else
            ret {| results := rest;
                   callsToExecute := callsToExecute acc;
                   slackMessageBits := slackMessageBits acc |}
      end
  end.

Definition onRun (c : Context) : M Web3FunctionResult :=
  acc1 <- for_each (optimismStep c) (optimismStyle c)
            {| results := multicallResults c;
               callsToExecute := []; slackMessageBits := [] |} ;;
  acc2 <- for_each (arbitrumStep c) (arbitrumStyle c) acc1 ;;
  if Nat.eqb (List.length (callsToExecute acc2)) 0 then
    ret (NoExec "Pot data refresh not needed")
  else
    (if sendSlackMessages c then
       emit (SlackMessage (slackWebhookUrl c)
                          (generateSlackMessage (slackMessageBits acc2)))
     else ret tt) ;;;
    ret (Exec (callsToExecute acc2)).

(** ** The calls the two loops build, read off as functions *)

Definition consumers (c : Context) : list (string * string) :=
  (optimismStyle c ++ arbitrumStyle c)%list.

Definition refreshCall (c : Context) (entry : string * string) : Call :=
  {| to := snd entry; data := Refresh (gasLimit c) |}.

Definition refreshArbitrumCall (c : Context) (entry : string * string)
    (url : string) : Call :=
  {| to := snd entry;
     data := RefreshArbitrum (gasLimit c)
               (Z.quot (arbitrumGasPrice c url * 120) 100)
               (Z.quot (gasPrice c * 120) 100) |}.

Fixpoint optimismCalls (c : Context) (entries : list (string * string))
    (rs : list PotData) : list Call :=
  match entries, rs with
  | entry :: entries', d :: rs' =>
      ((if stale c d then [refreshCall c entry] else [])
       ++ optimismCalls c entries' rs')%list
  | _, _ => []
  end.

Fixpoint arbitrumCalls (c : Context) (entries : list (string * string))
    (rs : list PotData) : list Call :=
  match entries with
  | [] => []
  | entry :: entries' =>
      match Js.get (arbitrumDomainUrls c) (snd entry) with
      | None => arbitrumCalls c entries' rs
      | Some url =>
          match rs with
          | [] => []
          | d :: rs' =>
              ((if stale c d then [refreshArbitrumCall c entry url] else [])
               ++ arbitrumCalls c entries' rs')%list
          end
      end
  end.

(** The calls of a result that go to one address. *)
Definition calls_to (address : string) (r : Web3FunctionResult) : list Call :=
  match r with
  | NoExec _ => []
  | Exec calls => filter (fun call => String.eqb (to call) address) calls
  end.

End XchainOracleTicker.

(* ================================================================== *)
(** * Concrete runs *)
(* ================================================================== *)

Module Scenario.

Import Deploy.

Definition dq : string := String (ascii_of_nat 34) EmptyString.

(** A JSON string literal. *)
Definition q (s : string) : string := dq ++ s ++ dq.

(** The text of a config with a block trigger. *)
Definition configText (domain secrets : string) : string :=
  "{" ++ q "domain" ++ ":" ++ q domain ++ "," ++ q "args" ++ ":{},"
      ++ q "secrets" ++ ":{" ++ secrets ++ "},"
      ++ q "trigger" ++ ":{" ++ q "type" ++ ":" ++ q "block" ++ "}}".

Definition blockConfig (fileName domain : string) : ConfigFile :=
  {| fileName := fileName;
     rawConfig := getBufferFromString (configText domain "");
     parsed := Some {| domain := domain; args := "{}"; secrets := [];
                       trigger := BlockTrigger |} |}.

(** A config that needs the secret [SLACK_WEBHOOK_URL]. *)
Definition secretConfig (fileName : string) : ConfigFile :=
  {| fileName := fileName;
     rawConfig := getBufferFromString
                    (configText "mainnet"
                       (q "SLACK_WEBHOOK_URL" ++ ":" ++ q "SLACK_WEBHOOK_URL"));
     parsed := Some {| domain := "mainnet"; args := "{}";
                       secrets := [("SLACK_WEBHOOK_URL", "SLACK_WEBHOOK_URL")];
                       trigger := BlockTrigger |} |}.


Definition capIpfs : string := "QmCapAutomatorV1".

(** One keeper type, [cap-automator], with the given config files, the
    given active tasks on mainnet, and the given environment. *)
Definition world (files : list ConfigFile) (tasks : list Task)
    (env : string -> option string) : World :=
  {| env := env;
     readFileUtf8 := fun _ => None;
     decryptKeystore := fun _ _ => None;
     w3fNames := ["cap-automator"];
     w3fConfigs := ["cap-automator"];
     ipfsDeployments := [("cap-automator", capIpfs)];
     configFiles := fun k => if String.eqb k "cap-automator" then files else [];
     abis := fun a =>
       if String.eqb a "aggregator"
       then Some [Interface.FragOther; Interface.FragEvent AnswerUpdated]
       else None;
     activeTasks := fun d => if String.eqb d "mainnet" then tasks else [];
     createdTaskId := fun _ => "0xnew";
     rejects := fun _ => false |}.

Definition noEnv : string -> option string := fun _ => None.

Definition slackEnv : string -> option string :=
  fun v => if String.eqb v "SLACK_WEBHOOK_URL" then Some "https://hooks" else None.

Definition mainnetFile : ConfigFile := blockConfig "mainnet.json" "mainnet".
Definition gnosisFile : ConfigFile := blockConfig "gnosis.json" "gnosis".
Definition polygonFile : ConfigFile := blockConfig "polygon.json" "polygon".

(** The task a previous run created for a config file. *)
Definition taskOf (id : string) (cf : ConfigFile) : Task :=
  {| taskId := id; taskName := deploymentName cf capIpfs |}.

Definition slackFile : ConfigFile := secretConfig "slack.json".

(** Three config files, two of them deployed by an earlier run, the third
    for a domain that is not supported; no environment variable is set. *)
Definition syncWorld : World :=
  world [slackFile; gnosisFile; polygonFile]
        [taskOf "0x01" slackFile; taskOf "0x02" gnosisFile] noEnv.

(** Two keeper types that share their content address and hold the same
    config file, over the given active tasks on mainnet. *)
Definition twins (cf : ConfigFile) (tasks : list Task) : World :=
  {| env := noEnv;
     readFileUtf8 := fun _ => None;
     decryptKeystore := fun _ _ => None;
     w3fNames := ["cap-automator"; "cap-automator-copy"];
     w3fConfigs := ["cap-automator"; "cap-automator-copy"];
     ipfsDeployments := [("cap-automator", capIpfs);
                         ("cap-automator-copy", capIpfs)];
     configFiles := fun _ => [cf];
     abis := fun _ => None;
     activeTasks := fun d => if String.eqb d "mainnet" then tasks else [];
     createdTaskId := fun _ => "0xnew";
     rejects := fun _ => false |}.

(** Nothing is deployed yet. *)
Definition twinStart : World := twins mainnetFile [].

(** The two tasks of a first run are active. *)
Definition twinWorld : World :=
  twins mainnetFile [taskOf "0x01" mainnetFile; taskOf "0x02" mainnetFile].





(** The all-in-one deployer on the fifth of July: a new content address
    for the cap automator, the tasks of an earlier deployment active. *)
Definition deployAllWorld : DeployAll.World :=
  {| DeployAll.deploymentDate := "2024-07-05T13:20:54.000Z";
     DeployAll.ipfsDeployments := [("cap-automator", "QmCapAutomatorV2")];
     DeployAll.slackWebhookUrl := "https://hooks";
     DeployAll.etherscanApiKey := "etherscan-key";
     DeployAll.activeTasks := fun d =>
       if String.eqb d "mainnet" then
         [ {| taskId := "0x86a3"; taskName := "Cap Automator <2024-07-04 12:39:41>" |};
           {| taskId := "0xcf37"; taskName := "D3M Ticker <2024-07-04 13:20:54>" |} ]
       else [];
     DeployAll.createdTaskId := fun _ => "0xnew";
     DeployAll.rejects := fun _ => false |}.

(** The same, with the vendor rejecting every transaction wait. *)
Definition failingDeployAllWorld : DeployAll.World :=
  {| DeployAll.deploymentDate := "2024-07-05T13:20:54.000Z";
     DeployAll.ipfsDeployments := [("cap-automator", "QmCapAutomatorV2")];
     DeployAll.slackWebhookUrl := "https://hooks";
     DeployAll.etherscanApiKey := "etherscan-key";
     DeployAll.activeTasks := fun _ => [];
     DeployAll.createdTaskId := fun _ => "0xnew";
     DeployAll.rejects := fun e => match e with TxWait _ => true | _ => false end |}.

Definition deployedBefore : Js.obj string :=
  [("cap-automator", "QmCapAutomatorV1"); ("d3m-ticker", "QmD3mTickerV1")].

Definition fresh : XchainOracleTicker.PotData :=
  {| XchainOracleTicker.dsr := 1000000001547125957863212448;
     XchainOracleTicker.rho := 1720000000 |}.

(** Last refreshed more than a week before the latest block. *)
Definition outdated : XchainOracleTicker.PotData :=
  {| XchainOracleTicker.dsr := 1000000001547125957863212448;
     XchainOracleTicker.rho := 1719000000 |}.

(** A ticker invocation over the given tables and multicall results. *)
Definition tickerContext (optimismStyle arbitrumStyle : Js.obj string)
    (results : list XchainOracleTicker.PotData) : XchainOracleTicker.Context :=
  {| XchainOracleTicker.maxDelta := 604800;
     XchainOracleTicker.gasLimit := 800000;
     XchainOracleTicker.sendSlackMessages := true;
     XchainOracleTicker.slackWebhookUrl := "https://hooks";
     XchainOracleTicker.optimismStyle := optimismStyle;
     XchainOracleTicker.arbitrumStyle := arbitrumStyle;
     XchainOracleTicker.currentDsr := 1000000001547125957863212448;
     XchainOracleTicker.latestTimestamp := 1720100000;
     XchainOracleTicker.multicallResults := results;
     XchainOracleTicker.gasPrice := 30;
     XchainOracleTicker.arbitrumGasPrice := fun _ => 1%Z |}.

Definition optimismTable : Js.obj string :=
  [("optimism", "0xOptimismForwarder"); ("base", "0xBaseForwarder")].

(** The forwarder of [arbitrum] has an RPC URL, the one of [nova] has none. *)
Definition arbitrumTable : Js.obj string :=
  [("arbitrum", "0xArbitrumForwarder"); ("nova", "0xNovaForwarder")].

(** Every consumer but the first is outdated. *)
Definition staleContext : XchainOracleTicker.Context :=
  tickerContext optimismTable arbitrumTable [fresh; outdated; outdated; outdated].

(** Only [nova], which has no RPC URL, is outdated. *)
Definition novaContext : XchainOracleTicker.Context :=
  tickerContext optimismTable arbitrumTable [fresh; fresh; fresh; outdated].

(** [nova] comes first in its table and is the only outdated consumer. *)
Definition shiftedContext : XchainOracleTicker.Context :=
  tickerContext optimismTable
    [("nova", "0xNovaForwarder"); ("arbitrum", "0xArbitrumForwarder")]
    [fresh; fresh; outdated; fresh].







End Scenario.

(* ================================================================== *)
(** * Reading a run of the reconciler *)
(* ================================================================== *)

Module DeployRun.

Import Deploy.

(** What the deployment of a new config does, as far as the vendor lets it
    go: the announcement, the confirmation prompt, the create call, the
    wait for its transaction, the secrets. *)
Definition deploymentSteps (w : World) (ipfsDeployment : string)
    (cf : ConfigFile) (config : DeploymentConfig) (tc : TriggerConfig)
    (secrets : Js.obj string) : list Event :=
  let name := deploymentName cf ipfsDeployment in
  let create := CreateBatchExecTask (domain config) name ipfsDeployment
                                    (args config) tc in
  let id := createdTaskId w create in
  ([Log ("Deploying " ++ name); Pause; create]
   ++ (if rejects w create then []
       else TxWait id
            :: (if rejects w (TxWait id) then []
                else [SecretsSet (domain config) secrets id])))%list.

(** The run gets as far as the final pass: the listing and the loop over
    the keeper types both complete. *)
Definition reaches_final_pass (w : World) : Prop :=
  exists oldTasks remaining,
    result (loadOldTasks w) = Ok oldTasks
    /\ result (for_each (processKeeper w) (w3fNames w) oldTasks) = Ok remaining.

(** An action of the final pass. *)
Definition is_final_pass_step (e : Event) : bool :=
  match e with
  | Log _ | CancelTask _ _ | TxWait _ => true
  | _ => false
  end.

(** A call that deploys: the creation of a task or the setting of its
    secrets. *)
Definition is_deploy_call (e : Event) : bool :=
  match e with
  | CreateBatchExecTask _ _ _ _ _ | SecretsSet _ _ _ => true
  | _ => false
  end.

(** The active tasks in the order the two listings index them, mainnet
    first, each with the entry the working set gets for it. *)
Definition listing (w : World) : list (string * TaskRef) :=
  flat_map (fun d =>
              map (fun task =>
                     (taskName task,
                      {| refTaskId := taskId task; refDomain := d |}))
                  (activeTasks w d))
           domains.

(** The entry listed last under a name. *)
Definition last_listed (n : string) (l : list (string * TaskRef))
  : option TaskRef :=
  Js.get (rev l) n.

End DeployRun.

(* ================================================================== *)
(** * scripts/deployAll.ts: the six keepers and the main function *)
(* ================================================================== *)

Module DeployAllMain.

Import Deploy DeployAll.

Definition fiveMinutesInMilliseconds : Z := 1000 * 60 * 5.

Definition weekInSeconds : Z := 60 * 60 * 24 * 7.

(** What the script takes from the rest of the repository, which is not
    part of the sources at hand (two ABIs and an address), and what it
    reads from the chain while it runs (the aggregators behind the two
    price oracles; a read can fail). *)
Record Chain : Type := {
  oracleAggregatorAbi : Interface.Abi;
  dsNoteAbi : Interface.Abi;
  pauseProxy : string;                   (* addresses.mainnet.pauseProxy *)
  wbtcBtcAggregator : outcome string;    (* wbtcBtcOracle.aggregator() *)
  stethEthAggregator : outcome string;   (* stethEthOracle.aggregator() *)
}.

(** The three calls every task of the script is deployed with:
    [createBatchExecTask], [tx.wait()], [secrets.set]. *)
Definition createTask (w : World) (domain name ipfsDeployment args : string)
    (trigger : TriggerConfig) (secrets : Js.obj string) : M unit :=
  let create := CreateBatchExecTask domain name ipfsDeployment args trigger in
  sdk w create ;;;
  sdk w (TxWait (createdTaskId w create)) ;;;
  sdk w (SecretsSet domain secrets (createdTaskId w create)).

Definition d3mTickerLogic (w : World) (ipfsDeployment : string) : M unit :=
  let taskNames := ["D3M Ticker"] in
  retirePreviouslyDeployedTasks w "mainnet" taskNames ;;;
  createTask w "mainnet" ("D3M Ticker" ++ deploymentTag w) ipfsDeployment
    "{threshold: '20000000000000000000000000', performGasCheck: true, sendSlackMessages: true}"
    (TriggerTIME hourInMilliseconds)
    [("SLACK_WEBHOOK_URL", slackWebhookUrl w);
     ("ETHERSCAN_API_KEY", etherscanApiKey w)].

Definition governanceExecutorLogic (w : World) (ipfsDeployment : string)
  : M unit :=
  let taskNames := ["Governance Executor [Gnosis]"] in
  retirePreviouslyDeployedTasks w "gnosis" taskNames ;;;
  createTask w "gnosis" ("Governance Executor [Gnosis]" ++ deploymentTag w)
    ipfsDeployment
    "{domain: 'gnosis', sendSlackMessages: true}"
    (TriggerTIME hourInMilliseconds)
    [("SLACK_WEBHOOK_URL", slackWebhookUrl w)].

Definition killSwitchLogic (w : World) (ch : Chain) (ipfsDeployment : string)
  : M unit :=
  let taskNames := ["Kill Switch [WBTC-BTC]"; "Kill Switch [stETH-ETH]";
                    "Kill Switch [Time Based]"] in
  retirePreviouslyDeployedTasks w "mainnet" taskNames ;;;
  wbtcBtc <- lift (wbtcBtcAggregator ch) ;;
  wbtcBtcTopic <- lift (Interface.getEventTopic (oracleAggregatorAbi ch)
                          "AnswerUpdated") ;;
  createTask w "mainnet" ("Kill Switch [WBTC-BTC]" ++ deploymentTag w)
    ipfsDeployment
    "{sendSlackMessages: true}"
    (TriggerEVENT wbtcBtc [[wbtcBtcTopic]] 0)
    [("SLACK_WEBHOOK_URL", slackWebhookUrl w)] ;;;
  stethEth <- lift (stethEthAggregator ch) ;;
  stethEthTopic <- lift (Interface.getEventTopic (oracleAggregatorAbi ch)
                           "AnswerUpdated") ;;
  createTask w "mainnet" ("Kill Switch [stETH-ETH]" ++ deploymentTag w)
    ipfsDeployment
    "{sendSlackMessages: true}"
    (TriggerEVENT stethEth [[stethEthTopic]] 0)
    [("SLACK_WEBHOOK_URL", slackWebhookUrl w)] ;;;
  createTask w "mainnet" ("Kill Switch [Time Based]" ++ deploymentTag w)
    ipfsDeployment
    "{sendSlackMessages: true}"
    (TriggerTIME fiveMinutesInMilliseconds)
    [("SLACK_WEBHOOK_URL", slackWebhookUrl w)].

Definition metaMorphoLogic (w : World) (ipfsDeployment : string) : M unit :=
  let taskNames := ["Meta Morpho Cap Updater"] in
  retirePreviouslyDeployedTasks w "mainnet" taskNames ;;;
  createTask w "mainnet" ("Meta Morpho Cap Updater" ++ deploymentTag w)
    ipfsDeployment
    "{sendSlackMessages: true}"
    (TriggerTIME hourInMilliseconds)
    [("SLACK_WEBHOOK_URL", slackWebhookUrl w)].

(** [{maxDelta: weekInSeconds.toString(), gasLimit: '800000',
    sendSlackMessages: true}] *)
Definition xchainOracleTickerArgs : string :=
  "{maxDelta: '" ++ Interface.decimal (Z.to_nat weekInSeconds)
  ++ "', gasLimit: '800000', sendSlackMessages: true}".

Definition xchainOracleTickerLogic (w : World) (ch : Chain)
    (ipfsDeployment : string) : M unit :=
  let taskNames := ["XChain Oracle Ticker [Event Based]";
                    "XChain Oracle Ticker [Time Based]"] in
  retirePreviouslyDeployedTasks w "mainnet" taskNames ;;;
  topic <- lift (Interface.getEventTopic (dsNoteAbi ch) "LogNote") ;;
  createTask w "mainnet"
    ("XChain Oracle Ticker [Event Based]" ++ deploymentTag w)
    ipfsDeployment xchainOracleTickerArgs
    (TriggerEVENT (pauseProxy ch) [[topic]] 0)
    [("SLACK_WEBHOOK_URL", slackWebhookUrl w)] ;;;
  createTask w "mainnet"
    ("XChain Oracle Ticker [Time Based]" ++ deploymentTag w)
    ipfsDeployment xchainOracleTickerArgs
    (TriggerTIME fiveMinutesInMilliseconds)
    [("SLACK_WEBHOOK_URL", slackWebhookUrl w)].

(** The main function: the confirmation prompt, then the six keepers in
    turn, each through [deploy]; [gelatoDeployments] is passed along. *)
Definition main (w : World) (ch : Chain) (gelatoDeployments : Js.obj string)
  : M (Js.obj string) :=
  emit Pause ;;;
  g <- deploy "cap-automator" w (capAutomatorLogic w) gelatoDeployments ;;
  g <- deploy "d3m-ticker" w (d3mTickerLogic w) g ;;
  g <- deploy "governance-executor" w (governanceExecutorLogic w) g ;;
  g <- deploy "kill-switch" w (killSwitchLogic w ch) g ;;
  g <- deploy "meta-morpho" w (metaMorphoLogic w) g ;;
  deploy "xchain-oracle-ticker" w (xchainOracleTickerLogic w ch) g.

(** The keepers of [main] with their deployment logic, in order. *)
Definition keepers (w : World) (ch : Chain)
  : list (string * (string -> M unit)) :=
  [ ("cap-automator", capAutomatorLogic w);
    ("d3m-ticker", d3mTickerLogic w);
    ("governance-executor", governanceExecutorLogic w);
    ("kill-switch", killSwitchLogic w ch);
    ("meta-morpho", metaMorphoLogic w);
    ("xchain-oracle-ticker", xchainOracleTickerLogic w ch) ].

(** One keeper of the table, through [deploy]. *)
Definition deploys (w : World) (kl : string * (string -> M unit))
    (g : Js.obj string) : M (Js.obj string) :=
  deploy (fst kl) w (snd kl) g.

Definition keeperOrder : list string :=
  ["cap-automator"; "d3m-ticker"; "governance-executor"; "kill-switch";
   "meta-morpho"; "xchain-oracle-ticker"].

(** The deployed-state object with the given keepers recorded at their
    current content address, where they have one. *)
Definition recorded (w : World) (names : list string) (g : Js.obj string)
  : Js.obj string :=
  fold_left (fun g w3fName =>
               match Js.get (ipfsDeployments w) w3fName with
               | Some ipfsDeployment => Js.assign g w3fName ipfsDeployment
               | None => g
               end)
            names g.

(** A step that changes nothing outside the process: a log line or the
    confirmation prompt. *)
Definition is_silent (e : Event) : bool :=
  match e with Log _ | Pause => true | _ => false end.

(** Every action of a computation satisfies [P]. *)
Definition all_events {A} (P : Event -> Prop) (m : M A) : Prop :=
  forall e, In e (trace m) -> P e.

(** What a create call of a keeper looks like: on the keeper's domain,
    with its content address, named by one of its base names followed by
    the tag of the run. *)
Definition tagged (w : World) (domain : string) (taskNames : list string)
    (ipfsDeployment : string) (e : Event) : Prop :=
  match e with
  | CreateBatchExecTask d name hash _ _ =>
      d = domain /\ hash = ipfsDeployment
      /\ exists base, In base taskNames /\ name = base ++ deploymentTag w
  | _ => True
  end.

End DeployAllMain.

(* ================================================================== *)
(** * More concrete runs *)
(* ================================================================== *)

Module Runs.

Import Deploy.

(** No keeper type at all.  Three tasks are active: two on mainnet under
    one name, one on gnosis. *)
Definition orphanWorld : World :=
  {| env := fun _ => None;
     readFileUtf8 := fun _ => None;
     decryptKeystore := fun _ _ => None;
     w3fNames := []; w3fConfigs := []; ipfsDeployments := [];
     configFiles := fun _ => [];
     abis := fun _ => None;
     activeTasks := fun d =>
       if String.eqb d "mainnet" then
         [ {| taskId := "0x01"; taskName := "Old task" |};
           {| taskId := "0x02"; taskName := "Old task" |} ]
       else if String.eqb d "gnosis" then
         [ {| taskId := "0x03"; taskName := "Gnosis task" |} ]
       else [];
     createdTaskId := fun _ => "0xnew";
     rejects := fun _ => false |}.

(** The same, with the listing of gnosis failing. *)
Definition unlistedWorld : World :=
  {| env := env orphanWorld;
     readFileUtf8 := readFileUtf8 orphanWorld;
     decryptKeystore := decryptKeystore orphanWorld;
     w3fNames := []; w3fConfigs := []; ipfsDeployments := [];
     configFiles := fun _ => [];
     abis := fun _ => None;
     activeTasks := activeTasks orphanWorld;
     createdTaskId := fun _ => "0xnew";
     rejects := fun e =>
       match e with
       | GetActiveTasks d => String.eqb d "gnosis"
       | _ => false
       end |}.

(** Two configs to deploy, the first with a secret that is set; nothing
    is active. *)
Definition freshWorld : World :=
  Scenario.world [Scenario.slackFile; Scenario.gnosisFile] [] Scenario.slackEnv.


(** The reconciler with no config file, facing a task that the all-in-one
    deployer created. *)
Definition mixedWorld : World :=
  Scenario.world []
    [ {| taskId := "0xnew";
         taskName := "Cap Automator"
                     ++ DeployAll.deploymentTag Scenario.deployAllWorld |} ]
    Scenario.noEnv.

(** The ABIs and chain reads of the all-in-one deployer. *)
Definition chain : DeployAllMain.Chain :=
  {| DeployAllMain.oracleAggregatorAbi :=
       [Interface.FragOther; Interface.FragEvent AnswerUpdated];
     DeployAllMain.dsNoteAbi := [Interface.FragOther];
     DeployAllMain.pauseProxy := "0xPauseProxy";
     DeployAllMain.wbtcBtcAggregator := Ok "0xWbtcBtcAggregator";
     DeployAllMain.stethEthAggregator := Throw "call revert exception" |}.

(** A later run of the all-in-one deployer: the cap automator of
    [Scenario.deployAllWorld] is active, under the task id it was given. *)
Definition laterDeployAllWorld : DeployAll.World :=
  {| DeployAll.deploymentDate := "2024-08-01T09:00:00.000Z";
     DeployAll.ipfsDeployments := [("cap-automator", "QmCapAutomatorV3")];
     DeployAll.slackWebhookUrl := "https://hooks";
     DeployAll.etherscanApiKey := "etherscan-key";
     DeployAll.activeTasks := fun d =>
       if String.eqb d "mainnet" then
         [ {| taskId := "0xnew";
              taskName := "Cap Automator"
                          ++ DeployAll.deploymentTag Scenario.deployAllWorld |} ]
       else [];
     DeployAll.createdTaskId := fun _ => "0xnewer";
     DeployAll.rejects := fun _ => false |}.

End Runs.

(* ================================================================== *)
(** * Properties *)
(* ================================================================== *)

(** ** The hash function agrees with the published test vectors *)

Example keccak256_empty :
  keccak256 [] = "0xc5d2460186f7233c927e7db2dcc703c0e500b653ca82273b7bfad8045d85a470".
Proof. vm_compute. reflexivity. Qed.

Example keccak256_abc :
  keccak256 (getBufferFromString "abc")
  = "0x4e03657aea45a94fc7d47ba826c8d667c0d1e6e33a64a036ec44f58fa12d6c45".
Proof. vm_compute. reflexivity. Qed.

Example AnswerUpdated_topic :
  Interface.getEventTopic [Interface.FragOther; Interface.FragEvent AnswerUpdated]
                          "AnswerUpdated"
  = Ok "0x0559884fd3a460db3073b7fc896cc77986f16e378210ded43186175bf646fc5f".
Proof. vm_compute. reflexivity. Qed.

Arguments keccak256 : simpl never.
Arguments Deploy.createHash : simpl never.
Arguments Deploy.deploymentName : simpl never.

(** ** The trace monad *)

Lemma bind_ret {A B} (a : A) (f : A -> M B) : bind (ret a) f = f a.
Proof. unfold bind, ret. destruct (f a); reflexivity. Qed.

Lemma bind_emit {B} (e : Event) (k : M B) :
  (emit e ;;; k) = (e :: trace k, result k).
Proof. unfold bind, emit. destruct k; reflexivity. Qed.

Lemma bind_assoc {A B C} (m : M A) (f : A -> M B) (g : B -> M C) :
  bind (bind m f) g = bind m (fun a => bind (f a) g).
Proof.
  destruct m as [t [a | msg]]; simpl; [| reflexivity].
  destruct (f a) as [t1 [b | msg1]]; simpl; [| reflexivity].
  destruct (g b) as [t2 r2]. now rewrite app_assoc.
Qed.

Lemma trace_bind_ok {A B} (m : M A) (f : A -> M B) (a : A) :
  result m = Ok a -> trace (bind m f) = (trace m ++ trace (f a))%list.
Proof.
  destruct m as [t r]; simpl; intros ->. simpl. now destruct (f a).
Qed.

Lemma result_bind_ok {A B} (m : M A) (f : A -> M B) (a : A) :
  result m = Ok a -> result (bind m f) = result (f a).
Proof.
  destruct m as [t r]; simpl; intros ->. simpl. now destruct (f a).
Qed.

Lemma bind_throws {A B} (m : M A) (f : A -> M B) (msg : string) :
  result m = Throw msg -> bind m f = (trace m, Throw msg).
Proof. destruct m as [t r]; simpl; intros ->. reflexivity. Qed.

Lemma for_each_app {A S} (body : A -> S -> M S) (xs ys : list A) (s : S) :
  for_each body (xs ++ ys) s
  = (s' <- for_each body xs s ;; for_each body ys s').
Proof.
  revert s; induction xs as [| x xs IH]; intros s.
  - change (([] ++ ys)%list) with ys. cbn [for_each]. now rewrite bind_ret.
  - change (((x :: xs) ++ ys)%list) with (x :: (xs ++ ys)%list).
    cbn [for_each]. rewrite bind_assoc.
    destruct (body x s) as [t [s1 | msg]]; [| reflexivity].
    unfold bind at 1 3. now rewrite IH.
Qed.

(** ** The per-config loop of the reconciler *)

Section PerConfig.

Import Deploy.

Variable w : World.
Variable ipfsDeployment : string.

Let body := processConfig w ipfsDeployment.

(** A step that only logs and leaves the working set alone lets the loop
    go on with the next file. *)
Lemma loop_continues (line : string) (cf : ConfigFile)
    (pre rest : list ConfigFile) (o : Js.obj TaskRef) :
  (forall o', body cf o' = ([Log line], Ok o')) ->
  for_each body (pre ++ cf :: rest) o
  = (o' <- for_each body pre o ;; emit (Log line) ;;; for_each body rest o').
Proof.
  intros Hstep. rewrite for_each_app.
  destruct (for_each body pre o) as [t [o' | msg]]; [| reflexivity].
  unfold bind at 1 3. cbn [for_each]. rewrite Hstep.
  unfold bind, emit. destruct (for_each body rest o') as [t' r']. reflexivity.
Qed.

Lemma unsupported_domain_step (cf : ConfigFile) (config : DeploymentConfig)
    (o : Js.obj TaskRef) :
  parsed cf = Some config ->
  Js.includes domains (domain config) = false ->
  body cf o = ([Log ("Domain " ++ domain config ++ " is not supported")], Ok o).
Proof.
  intros Hp Hd. unfold body, processConfig. rewrite Hp, Hd. reflexivity.
Qed.

Lemma unsupported_trigger_step (cf : ConfigFile) (config : DeploymentConfig)
    (o : Js.obj TaskRef) :
  parsed cf = Some config ->
  Js.includes domains (domain config) = true ->
  Js.includes triggerTypeNames (trigger_type (trigger config)) = false ->
  body cf o
  = ([Log ("Trigger type " ++ trigger_type (trigger config)
           ++ " is not supported")], Ok o).
Proof.
  intros Hp Hd Ht. unfold body, processConfig. rewrite Hp, Hd, Ht. reflexivity.
Qed.

Lemma matched_step (cf : ConfigFile) (o : Js.obj TaskRef) (ref : TaskRef) :
  eligible cf = true ->
  Js.get o (deploymentName cf ipfsDeployment) = Some ref ->
  body cf o
  = ([Log ("Task " ++ deploymentName cf ipfsDeployment ++ " is already active")],
     Ok (Js.delete o (deploymentName cf ipfsDeployment))).
Proof.
  unfold eligible, body, processConfig. destruct (parsed cf) as [config |]; [| discriminate].
  intros He Hg. apply andb_prop in He as [Hd Ht]. rewrite Hd, Ht. cbn [negb].
  rewrite Hg. reflexivity.
Qed.

End PerConfig.

(** ** Dictionaries *)

Section Dictionaries.

Context {V : Type}.
Implicit Types (o : Js.obj V) (k n : string) (v : V).

Lemma get_set o k v n :
  Js.get (Js.set o k v) n = if String.eqb k n then Some v else Js.get o n.
Proof.
  induction o as [| [k' v'] o IH]; simpl.
  - reflexivity.
  - destruct (String.eqb k' k) eqn:Ek; simpl.
    + apply String.eqb_eq in Ek; subst k'.
      destruct (String.eqb k n); reflexivity.
    + destruct (String.eqb k' n) eqn:En.
      * apply String.eqb_eq in En; subst k'.
        rewrite String.eqb_sym in Ek. now rewrite Ek.
      * apply IH.
Qed.

Lemma get_assign o k v n :
  Js.get (Js.assign o k v) n
  = if String.eqb k "__proto__" then Js.get o n
    else if String.eqb k n then Some v else Js.get o n.
Proof.
  unfold Js.assign. destruct (String.eqb k "__proto__"); [reflexivity |].
  apply get_set.
Qed.

Lemma get_delete o k n :
  Js.get (Js.delete o k) n = if String.eqb k n then None else Js.get o n.
Proof.
  induction o as [| [k' v'] o IH]; simpl.
  - now destruct (String.eqb k n).
  - destruct (String.eqb k' k) eqn:Ek; simpl.
    + apply String.eqb_eq in Ek; subst k'. rewrite IH.
      now destruct (String.eqb k n).
    + rewrite IH. destruct (String.eqb k' n) eqn:En; [| reflexivity].
      apply String.eqb_eq in En; subst k'.
      rewrite String.eqb_sym in Ek. now rewrite Ek.
Qed.

Lemma get_delete_all o (names : list string) n v :
  Js.get (fold_left Js.delete names o) n = Some v ->
  Js.get o n = Some v /\ ~ In n names.
Proof.
  revert o; induction names as [| k names IH]; intros o H; simpl in *.
  - auto.
  - apply IH in H as [H Hn]. rewrite get_delete in H.
    destruct (String.eqb k n) eqn:E; [discriminate |].
    apply String.eqb_neq in E. split; [assumption |]. intros [-> | Hin]; auto.
Qed.

Lemma get_delete_all_other o (names : list string) n :
  ~ In n names -> Js.get (fold_left Js.delete names o) n = Js.get o n.
Proof.
  revert o; induction names as [| k names IH]; intros o H; simpl in *.
  - reflexivity.
  - rewrite IH by tauto. rewrite get_delete.
    destruct (String.eqb k n) eqn:E; [| reflexivity].
    apply String.eqb_eq in E. tauto.
Qed.

Lemma in_set o k v n v' :
  In (n, v') (Js.set o k v) -> In (n, v') o \/ (n = k /\ v' = v).
Proof.
  induction o as [| [k0 v0] o IH]; simpl.
  - intros [[= <- <-] | []]. now right.
  - destruct (String.eqb k0 k) eqn:E; simpl.
    + apply String.eqb_eq in E; subst k0.
      intros [[= <- <-] | H]; [now right | left; now right].
    + intros [H | H]; [left; now left |].
      apply IH in H as [H | H]; [left; now right | now right].
Qed.

Lemma no_keys_empty o : (forall n, Js.get o n = None) -> o = [].
Proof.
  destruct o as [| [k v] o]; [reflexivity |]. intros H.
  specialize (H k). simpl in H. now rewrite String.eqb_refl in H.
Qed.

Lemma get_in o n v : Js.get o n = Some v -> In (n, v) o.
Proof.
  induction o as [| [k' v'] o IH]; simpl; [discriminate |].
  destruct (String.eqb k' n) eqn:E.
  - apply String.eqb_eq in E; subst. intros [= ->]. now left.
  - auto.
Qed.

End Dictionaries.

Lemma filter_nothing {A} (f : A -> bool) (l : list A) :
  (forall x, In x l -> f x = false) -> filter f l = [].
Proof.
  induction l as [| x l IH]; simpl; intros H; [reflexivity |].
  rewrite (H x) by now left. apply IH. intros y Hy. apply H. now right.
Qed.

Lemma includes_In (xs : list string) (x : string) :
  Js.includes xs x = true <-> In x xs.
Proof.
  induction xs as [| y ys IH]; simpl.
  - split; [discriminate | tauto].
  - rewrite orb_true_iff, IH, String.eqb_eq. tauto.
Qed.

Lemma distinct_NoDup (xs : list string) : Js.distinct xs = true -> NoDup xs.
Proof.
  induction xs as [| x xs IH]; simpl; intros H; constructor.
  - apply andb_prop in H as [H _]. intros Hin.
    apply includes_In in Hin. now rewrite Hin in H.
  - apply andb_prop in H as [_ H]. now apply IH.
Qed.

Lemma for_each_step {A S} (body : A -> S -> M S) (x : A) (xs : list A)
    (s s' : S) (t : list Event) :
  body x s = (t, Ok s') ->
  for_each body (x :: xs) s
  = ((t ++ trace (for_each body xs s'))%list, result (for_each body xs s')).
Proof.
  intros H. cbn [for_each]. rewrite H. unfold bind.
  now destruct (for_each body xs s').
Qed.

Lemma count_passive (p : Event -> bool) (t : list Event) :
  (forall e, is_passive e = true -> p e = false) ->
  forallb is_passive t = true -> count_events p t = 0.
Proof.
  intros Hp. unfold count_events. induction t as [| e t IH]; simpl; [reflexivity |].
  intros H. apply andb_prop in H as [He Ht]. rewrite (Hp e He). now apply IH.
Qed.

(** ** A run that finds every config already deployed *)

Section InSync.

Import Deploy.

Variable w : World.

Lemma configs_in_sync (ipfs : string) (files : list ConfigFile) :
  forall o : Js.obj TaskRef,
  let names := map (fun cf => deploymentName cf ipfs) (filter eligible files) in
  let m := for_each (processConfig w ipfs) files o in
  NoDup names ->
  (forall n, In n names -> Js.get o n <> None) ->
  forallb is_passive (trace m) = true
  /\ (forall o', result m = Ok o' -> o' = fold_left Js.delete names o)
  /\ ((forall cf, In cf files -> parsed cf <> None) -> exists o', result m = Ok o').
Proof.
  induction files as [| cf files IH]; intros o names m Hnd Hin.
  - subst m names. simpl. repeat split.
    + now intros o' [= ->].
    + intros _. now exists o.
  - subst m names. destruct (parsed cf) as [config |] eqn:Hp.
    2:{ cbn [for_each]. unfold processConfig. rewrite Hp. simpl. repeat split.
        - discriminate.
        - intros H. exfalso. apply (H cf); [now left | assumption]. }
    destruct (eligible cf) eqn:He.
    + cbn [filter map] in Hnd, Hin |- *. rewrite He in Hnd, Hin |- *.
      cbn [map] in Hnd, Hin |- *. inversion Hnd as [| ? ? Hnotin Hnd']; subst.
      destruct (Js.get o (deploymentName cf ipfs)) as [ref |] eqn:Hg.
      2:{ exfalso. apply (Hin (deploymentName cf ipfs)); [now left | assumption]. }
      rewrite (for_each_step _ _ _ _ _ _ (matched_step w ipfs cf o ref He Hg)).
      specialize (IH (Js.delete o (deploymentName cf ipfs)) Hnd').
      destruct IH as (IH1 & IH2 & IH3).
      { intros n Hn. rewrite get_delete.
        destruct (String.eqb (deploymentName cf ipfs) n) eqn:E.
        - apply String.eqb_eq in E; subst n. contradiction.
        - apply Hin. now right. }
      cbn [trace result fst snd app forallb is_passive andb fold_left].
      repeat split; [exact IH1 | exact IH2 |].
      intros H. apply IH3. intros cf' Hcf'. apply H. now right.
    + cbn [filter] in Hnd, Hin |- *. rewrite He in Hnd, Hin |- *.
      assert (Hstep : exists line, processConfig w ipfs cf o = ([Log line], Ok o)).
      { unfold eligible in He. rewrite Hp in He.
        destruct (Js.includes domains (domain config)) eqn:Hd.
        - simpl in He. eexists.
          apply (unsupported_trigger_step w ipfs cf config o Hp Hd He).
        - eexists. apply (unsupported_domain_step w ipfs cf config o Hp Hd). }
      destruct Hstep as [line Hstep]. rewrite (for_each_step _ _ _ _ _ _ Hstep).
      specialize (IH o Hnd Hin). destruct IH as (IH1 & IH2 & IH3).
      cbn [trace result fst snd app forallb is_passive andb].
      repeat split; [exact IH1 | exact IH2 |].
      intros H. apply IH3. intros cf' Hcf'. apply H. now right.
Qed.

Lemma NoDup_app_disjoint {A} (l1 l2 : list A) :
  NoDup (l1 ++ l2) -> forall a, In a l1 -> ~ In a l2.
Proof.
  induction l1 as [| x l1 IH]; simpl; intros H a Ha; [contradiction |].
  inversion H as [| ? ? Hx Hnd]; subst. destruct Ha as [-> | Ha].
  - intros Hin. apply Hx. apply in_or_app. now right.
  - now apply IH.
Qed.

Lemma keeper_in_sync (k : string) (o : Js.obj TaskRef) :
  let m := processKeeper w k o in
  NoDup (keeperNames w k) ->
  (forall n, In n (keeperNames w k) -> Js.get o n <> None) ->
  forallb is_passive (trace m) = true
  /\ (forall o', result m = Ok o' -> o' = fold_left Js.delete (keeperNames w k) o)
  /\ ((forall cf, In cf (configFiles w k) -> parsed cf <> None) ->
      exists o', result m = Ok o').
Proof.
  intros m. subst m. unfold processKeeper, keeperNames.
  destruct (Js.includes (w3fConfigs w) k); cbn [negb andb].
  2:{ intros _ _. simpl. repeat split; [now intros o' [= ->] | now exists o]. }
  destruct (Js.truthy (Js.get (ipfsDeployments w) k)) eqn:Ht; cbn [negb].
  2:{ intros _ _. simpl. repeat split; [now intros o' [= ->] | now exists o]. }
  destruct (Js.get (ipfsDeployments w) k) as [ipfs |]; [| discriminate].
  intros Hnd Hin.
  destruct (configFiles w k) as [| cf files] eqn:Hfiles.
  { simpl. repeat split; [now intros o' [= ->] | now exists o]. }
  rewrite bind_emit.
  destruct (configs_in_sync ipfs (cf :: files) o Hnd Hin) as (H1 & H2 & H3).
  cbn [trace result fst snd forallb is_passive andb]. auto.
Qed.

Lemma keepers_in_sync (ks : list string) :
  forall o : Js.obj TaskRef,
  let names := flat_map (keeperNames w) ks in
  let m := for_each (processKeeper w) ks o in
  NoDup names ->
  (forall n, In n names -> Js.get o n <> None) ->
  forallb is_passive (trace m) = true
  /\ (forall o', result m = Ok o' -> o' = fold_left Js.delete names o)
  /\ ((forall k cf, In k ks -> In cf (configFiles w k) -> parsed cf <> None) ->
      exists o', result m = Ok o').
Proof.
  induction ks as [| k ks IH]; intros o names m Hnd Hin; subst names m.
  - simpl. repeat split; [now intros o' [= ->] | now exists o].
  - cbn [flat_map] in *.
    pose proof (NoDup_app_remove_r _ _ Hnd) as Hnd1.
    pose proof (NoDup_app_remove_l _ _ Hnd) as Hnd2.
    pose proof (NoDup_app_disjoint _ _ Hnd) as Hdis.
    destruct (keeper_in_sync k o Hnd1) as (K1 & K2 & K3).
    { intros n Hn. apply Hin. apply in_or_app. now left. }
    cbn [for_each].
    destruct (processKeeper w k o) as [t [o1 | msg]] eqn:Hk;
      cbn [trace result fst snd] in K1, K2, K3.
    + specialize (K2 o1 eq_refl). subst o1.
      destruct (IH (fold_left Js.delete (keeperNames w k) o) Hnd2)
        as (I1 & I2 & I3).
      { intros n Hn. rewrite get_delete_all_other.
        - apply Hin. apply in_or_app. now right.
        - intros Hn1. exact (Hdis n Hn1 Hn). }
      unfold bind.
      destruct (for_each (processKeeper w) ks _) as [t' r'] eqn:Hrest.
      cbn [trace result fst snd] in *. rewrite forallb_app, K1, I1.
      rewrite fold_left_app. repeat split; [exact I2 |].
      intros H. apply I3. intros k' cf' Hk' Hcf'. apply (H k' cf'); [now right | exact Hcf'].
    + unfold bind. cbn [trace result fst snd]. repeat split; [exact K1 | discriminate |].
      intros H. destruct K3 as [o' Ho'].
      * intros cf Hcf. apply (H k cf); [now left | exact Hcf].
      * discriminate.
Qed.

End InSync.

(** ** The working set of active tasks *)

Section WorkingSet.

Import Deploy.

Lemma list_ascii_app (a b : string) :
  list_ascii_of_string (a ++ b)
  = (list_ascii_of_string a ++ list_ascii_of_string b)%list.
Proof. induction a as [| c a IH]; simpl; [reflexivity | now rewrite IH]. Qed.

(** A derived name holds a blank, which [__proto__] does not. *)
Lemma deploymentName_not_proto (cf : ConfigFile) (ipfs : string) :
  deploymentName cf ipfs <> "__proto__".
Proof.
  unfold deploymentName. intros H.
  assert (Hin : In " "%char (list_ascii_of_string "__proto__")).
  { rewrite <- H, list_ascii_app. apply in_or_app. right. now left. }
  simpl in Hin. repeat (destruct Hin as [Hin | Hin]; [discriminate |]).
  contradiction.
Qed.

Lemma indexTasks_get (d : string) (tasks : list Task) :
  forall (o : Js.obj TaskRef) (n : string) (ref : TaskRef),
  Js.get (indexTasks d tasks o) n = Some ref ->
  Js.get o n = Some ref
  \/ exists task, In task tasks /\ taskName task = n
                  /\ ref = {| refTaskId := taskId task; refDomain := d |}.
Proof.
  unfold indexTasks. induction tasks as [| task tasks IH]; intros o n ref H.
  - now left.
  - cbn [fold_left] in H. apply IH in H as [H | (task' & Hin & Hn & Href)].
    + rewrite get_assign in H.
      destruct (String.eqb (taskName task) "__proto__"); [now left |].
      destruct (String.eqb (taskName task) n) eqn:E; [| now left].
      apply String.eqb_eq in E. injection H as <-.
      right. exists task. repeat split; [now left | assumption].
    + right. exists task'. repeat split; [now right | assumption | assumption].
Qed.

Lemma indexTasks_keeps (d : string) (tasks : list Task) :
  forall (o : Js.obj TaskRef) (n : string),
  Js.get o n <> None -> Js.get (indexTasks d tasks o) n <> None.
Proof.
  unfold indexTasks. induction tasks as [| task tasks IH]; intros o n H.
  - exact H.
  - cbn [fold_left]. apply IH. rewrite get_assign.
    destruct (String.eqb (taskName task) "__proto__"); [exact H |].
    destruct (String.eqb (taskName task) n); [discriminate | exact H].
Qed.

Lemma indexTasks_has (d : string) (tasks : list Task) :
  forall (o : Js.obj TaskRef) (n : string),
  In n (map taskName tasks) -> n <> "__proto__" ->
  Js.get (indexTasks d tasks o) n <> None.
Proof.
  induction tasks as [| task tasks IH]; intros o n Hin Hn; [contradiction |].
  destruct Hin as [Hin | Hin].
  - change (indexTasks d (task :: tasks) o)
      with (indexTasks d tasks
              (Js.assign o (taskName task)
                 {| refTaskId := taskId task; refDomain := d |})).
    apply indexTasks_keeps. rewrite get_assign, Hin.
    apply String.eqb_neq in Hn. rewrite Hn, String.eqb_refl. discriminate.
  - change (indexTasks d (task :: tasks) o)
      with (indexTasks d tasks
              (Js.assign o (taskName task)
                 {| refTaskId := taskId task; refDomain := d |})).
    now apply IH.
Qed.

Variable w : World.

Lemma activeNames_In (n : string) :
  In n (activeNames w)
  <-> exists d task, In d domains /\ In task (activeTasks w d) /\ taskName task = n.
Proof.
  unfold activeNames. rewrite in_flat_map. split.
  - intros (d & Hd & Hin). apply in_map_iff in Hin as (task & Hn & Hin).
    now exists d, task.
  - intros (d & task & Hd & Hin & Hn). exists d. split; [assumption |].
    apply in_map_iff. now exists task.
Qed.

(** Listing the tasks only lists; an entry of the working set stands for
    an active task of that name, and every active name is indexed. *)
Lemma loadOldTasks_spec :
  forallb is_passive (trace (loadOldTasks w)) = true
  /\ (forall o, result (loadOldTasks w) = Ok o ->
        (forall n ref, Js.get o n = Some ref ->
           exists d task, In d domains /\ In task (activeTasks w d)
                          /\ taskName task = n
                          /\ ref = {| refTaskId := taskId task; refDomain := d |})
        /\ (forall n, In n (activeNames w) -> n <> "__proto__" ->
              Js.get o n <> None))
  /\ ((forall d, rejects w (GetActiveTasks d) = false) ->
      exists o, result (loadOldTasks w) = Ok o).
Proof.
  unfold loadOldTasks, domains, sdk. cbn [for_each].
  destruct (rejects w (GetActiveTasks "mainnet")) eqn:R1.
  { cbn. split; [reflexivity |]. split; [discriminate |].
    intros H. rewrite H in R1. discriminate. }
  destruct (rejects w (GetActiveTasks "gnosis")) eqn:R2.
  { cbn. split; [reflexivity |]. split; [discriminate |].
    intros H. rewrite H in R2. discriminate. }
  cbn. split; [reflexivity |]. split; [| intros _; eexists; reflexivity].
  intros o [= <-]. split.
  - intros n ref Hget.
    apply indexTasks_get in Hget as [Hget | (task & Hin & Hn & Href)].
    + apply indexTasks_get in Hget as [Hget | (task & Hin & Hn & Href)];
        [discriminate |].
      exists "mainnet", task. split; [now left | auto].
    + exists "gnosis", task. split; [right; now left | auto].
  - intros n Hact Hn.
    apply activeNames_In in Hact as (d & task & Hd & Hin & Hname).
    destruct Hd as [<- | [<- | []]].
    + apply indexTasks_keeps. apply indexTasks_has; [| assumption].
      apply in_map_iff. now exists task.
    + apply indexTasks_has; [| assumption].
      apply in_map_iff. now exists task.
Qed.

Lemma derivedNames_In (n : string) :
  In n (derivedNames w) ->
  exists k ipfs cf,
    In k (w3fNames w) /\ Js.includes (w3fConfigs w) k = true
    /\ Js.get (ipfsDeployments w) k = Some ipfs /\ ipfs <> ""
    /\ In cf (configFiles w k) /\ eligible cf = true
    /\ n = deploymentName cf ipfs.
Proof.
  unfold derivedNames. rewrite in_flat_map. intros (k & Hk & Hin).
  unfold keeperNames in Hin.
  destruct (Js.includes (w3fConfigs w) k) eqn:Hc; [| contradiction].
  destruct (Js.get (ipfsDeployments w) k) as [ipfs |] eqn:Hi; [| contradiction].
  cbn [andb Js.truthy] in Hin.
  destruct (String.eqb ipfs "") eqn:E; [contradiction |]. cbn [negb] in Hin.
  apply in_map_iff in Hin as (cf & Hn & Hcf). apply filter_In in Hcf as [Hcf He].
  exists k, ipfs, cf. apply String.eqb_neq in E. repeat split; auto.
Qed.

End WorkingSet.

(** ** Reconciling a world that is already in sync *)

Lemma reconcile_in_sync (w : Deploy.World) :
  Deploy.in_sync w ->
  forallb is_passive (trace (Deploy.reconcile w)) = true
  /\ ((forall d, Deploy.rejects w (GetActiveTasks d) = false) ->
      (forall k cf, In k (Deploy.w3fNames w) -> In cf (Deploy.configFiles w k) ->
                    Deploy.parsed cf <> None) ->
      result (Deploy.reconcile w) = Ok tt).
Proof.
  intros [Hnd Hsame]. unfold Deploy.reconcile.
  destruct (loadOldTasks_spec w) as (L1 & L2 & L3).
  destruct (result (Deploy.loadOldTasks w)) as [o | msg] eqn:R0.
  2:{ rewrite (bind_throws _ _ msg R0). cbn [trace result fst snd].
      split; [exact L1 |]. intros Hrej _. destruct (L3 Hrej). discriminate. }
  rewrite (trace_bind_ok _ _ o R0), (result_bind_ok _ _ o R0).
  destruct (L2 o eq_refl) as [Lget Lhas].
  destruct (keepers_in_sync w (Deploy.w3fNames w) o Hnd) as (K1 & K2 & K3).
  { intros n Hn. apply Lhas.
    - now apply Hsame.
    - apply derivedNames_In in Hn as (k & ipfs & cf & _ & _ & _ & _ & _ & _ & ->).
      apply deploymentName_not_proto. }
  destruct (result (for_each (Deploy.processKeeper w) (Deploy.w3fNames w) o))
    as [rem | msg] eqn:R1.
  2:{ rewrite (bind_throws _ _ msg R1). cbn [trace result fst snd].
      rewrite forallb_app, L1, K1. split; [reflexivity |].
      intros _ Hparse. destruct (K3 Hparse). discriminate. }
  rewrite (trace_bind_ok _ _ rem R1), (result_bind_ok _ _ rem R1).
  assert (Hrem : rem = []).
  { apply no_keys_empty. intros n.
    destruct (Js.get rem n) as [ref |] eqn:Hg; [| reflexivity].
    rewrite (K2 rem eq_refl) in Hg. apply get_delete_all in Hg as [Hg Hnot].
    exfalso. apply Hnot. apply Hsame.
    destruct (Lget n ref Hg) as (d & task & Hd & Hin & Hname & _).
    apply activeNames_In. now exists d, task. }
  rewrite Hrem. cbn [for_each ret trace result fst snd].
  rewrite !forallb_app, L1, K1. split; [reflexivity | intros _ _; reflexivity].
Qed.

(** C1, as the code has it.  Reconciliation is idempotent when the local
    configs derive pairwise distinct names: on a world where, moreover, the
    active tasks are exactly the tasks of these names, a run issues no
    create-task and no cancel-task call.  Every derived name is found in
    the working set and removed from it, so the final pass has nothing left
    to cancel. *)
Theorem reconciliation_idempotent (w : Deploy.World) :
  Deploy.in_sync w ->
  count_events is_create (trace (Deploy.reconcile w)) = 0
  /\ count_events is_cancel (trace (Deploy.reconcile w)) = 0.
Proof.
  intros Hsync. destruct (reconcile_in_sync w Hsync) as [Hpassive _].
  split; apply count_passive; try exact Hpassive; now intros [].
Qed.

(** C6. A config whose domain is neither [mainnet] nor [gnosis] is logged
    and skipped without any call into the vendor SDK, and the loop goes on
    with the remaining configs of the same run. *)
Theorem unsupported_domain_is_skipped (w : Deploy.World) (ipfs : string)
    (cf : Deploy.ConfigFile) (config : Deploy.DeploymentConfig)
    (pre rest : list Deploy.ConfigFile) (o : Js.obj Deploy.TaskRef) :
  Deploy.parsed cf = Some config ->
  Js.includes Deploy.domains (Deploy.domain config) = false ->
  Deploy.processConfig w ipfs cf o
  = ([Log ("Domain " ++ Deploy.domain config ++ " is not supported")], Ok o)
  /\ count_events is_sdk_call (trace (Deploy.processConfig w ipfs cf o)) = 0
  /\ for_each (Deploy.processConfig w ipfs) (pre ++ cf :: rest) o
     = (o' <- for_each (Deploy.processConfig w ipfs) pre o ;;
        emit (Log ("Domain " ++ Deploy.domain config ++ " is not supported")) ;;;
        for_each (Deploy.processConfig w ipfs) rest o').
Proof.
  intros Hp Hd.
  pose proof (fun o' => unsupported_domain_step w ipfs cf config o' Hp Hd) as Hstep.
  split; [apply Hstep |]. split.
  - rewrite Hstep. reflexivity.
  - apply loop_continues. exact Hstep.
Qed.


(** ** Errors of a single config *)

Section ConfigErrors.

Import Deploy.

Variable w : World.

Lemma events_from_In (abi : Interface.Abi) :
  forall (bucket : Js.obj Interface.EventFragment) k e,
  In (k, e) (Interface.events_from abi bucket) ->
  In (k, e) bucket
  \/ (In (Interface.FragEvent e) abi /\ k = Interface.signature e).
Proof.
  induction abi as [| frag abi IH]; intros bucket k e H; cbn [Interface.events_from] in H.
  - now left.
  - destruct frag as [e0 |].
    + destruct (Js.get bucket (Interface.signature e0)) eqn:Hg.
      * apply IH in H as [H | [H ->]]; [now left | right; split; [now right | reflexivity]].
      * apply IH in H as [H | [H ->]]; [| right; split; [now right | reflexivity]].
        apply in_set in H as [H | [-> ->]]; [now left |].
        right. split; [now left | reflexivity].
    + apply IH in H as [H | [H ->]]; [now left | right; split; [now right | reflexivity]].
Qed.

Lemma getEventTopic_absent (abi : Interface.Abi) (nm : string) :
  (forall e, In (Interface.FragEvent e) abi -> Interface.name e <> nm) ->
  Interface.getEventTopic abi nm = Throw "no matching event".
Proof.
  intros Habs. unfold Interface.getEventTopic, Interface.getEvent.
  replace (filter _ (Interface.events abi)) with (@nil (string * Interface.EventFragment));
    [reflexivity |].
  symmetry. apply filter_nothing. intros [k e] Hin. cbn [snd].
  apply String.eqb_neq. apply Habs.
  unfold Interface.events in Hin.
  apply events_from_In in Hin as [[] | [Hin _]]. exact Hin.
Qed.

Lemma resolveTopics_unresolvable (refs : list TopicRef) :
  forall acc, Exists (unresolvable w) refs ->
  exists msg, resolveTopics w refs acc = Throw msg.
Proof.
  induction refs as [| ref refs IH]; intros acc H; [inversion H |].
  cbn [resolveTopics].
  destruct (abis w (abiName ref)) as [abi |] eqn:Habi; [| now eexists].
  destruct (Interface.getEventTopic abi (eventName ref)) as [t | msg] eqn:Ht;
    [| now eexists].
  inversion H as [? ? Hun | ? ? Hrest]; subst.
  - unfold unresolvable in Hun. rewrite Habi in Hun.
    rewrite (getEventTopic_absent _ _ Hun) in Ht. discriminate.
  - now apply IH.
Qed.




End ConfigErrors.


(** ** Event triggers *)

Section EventTopics.

Import Deploy.

Lemma get_None_keys {V} (o : Js.obj V) (k : string) :
  Js.get o k = None <-> ~ In k (Js.keys o).
Proof.
  induction o as [| [k' v'] o IH]; simpl.
  - tauto.
  - destruct (String.eqb k' k) eqn:E.
    + apply String.eqb_eq in E. split; [discriminate | tauto].
    + apply String.eqb_neq in E. rewrite IH. tauto.
Qed.

Lemma keys_set_new {V} (o : Js.obj V) (k : string) (v : V) :
  Js.get o k = None -> Js.keys (Js.set o k v) = (Js.keys o ++ [k])%list.
Proof.
  induction o as [| [k' v'] o IH]; simpl; [reflexivity |].
  destruct (String.eqb k' k); [discriminate |]. intros H. simpl. now rewrite IH.
Qed.

Lemma events_from_NoDup (abi : Interface.Abi) :
  forall bucket, NoDup (Js.keys bucket) ->
  NoDup (Js.keys (Interface.events_from abi bucket)).
Proof.
  induction abi as [| [e |] abi IH]; intros bucket H; cbn [Interface.events_from];
    [assumption | | now apply IH].
  destruct (Js.get bucket (Interface.signature e)) eqn:Hg; [now apply IH |].
  apply IH. rewrite keys_set_new by assumption.
  apply NoDup_app; [assumption | repeat constructor; intros [] |].
  intros a Ha [<- | []]. now apply get_None_keys in Hg.
Qed.

Lemma events_from_keeps (abi : Interface.Abi) :
  forall bucket k, Js.get bucket k <> None ->
  Js.get (Interface.events_from abi bucket) k <> None.
Proof.
  induction abi as [| [e |] abi IH]; intros bucket k H; cbn [Interface.events_from];
    [assumption | | now apply IH].
  destruct (Js.get bucket (Interface.signature e)) eqn:Hg; [now apply IH |].
  apply IH. rewrite get_set. now destruct (String.eqb (Interface.signature e) k).
Qed.

Lemma events_from_registers (abi : Interface.Abi) (e : Interface.EventFragment) :
  forall bucket, In (Interface.FragEvent e) abi ->
  Js.get (Interface.events_from abi bucket) (Interface.signature e) <> None.
Proof.
  induction abi as [| frag abi IH]; intros bucket Hin; [contradiction |].
  destruct Hin as [-> | Hin].
  - cbn [Interface.events_from].
    destruct (Js.get bucket (Interface.signature e)) eqn:Hg.
    + apply events_from_keeps. now rewrite Hg.
    + apply events_from_keeps. rewrite get_set, String.eqb_refl. discriminate.
  - destruct frag as [e0 |]; cbn [Interface.events_from]; [| now apply IH].
    destruct (Js.get bucket (Interface.signature e0)); now apply IH.
Qed.

Lemma name_chars_prefix (a b x y : string) :
  forallb Interface.is_name_char (list_ascii_of_string a) = true ->
  forallb Interface.is_name_char (list_ascii_of_string b) = true ->
  a ++ "(" ++ x = b ++ "(" ++ y -> a = b.
Proof.
  revert b; induction a as [| c a IH]; intros [| d b] Ha Hb H; simpl in *.
  - reflexivity.
  - injection H as <- _. discriminate.
  - injection H as -> _. discriminate.
  - injection H as <- H. apply andb_prop in Ha as [_ Ha], Hb as [_ Hb].
    f_equal. now apply IH.
Qed.

Lemma plain_name_chars (s : string) :
  Interface.plain_name s = true ->
  forallb Interface.is_name_char (list_ascii_of_string s) = true.
Proof. unfold Interface.plain_name. intros H. now apply andb_prop in H as [H _]. Qed.

Lemma signature_name (e e' : Interface.EventFragment) :
  Interface.plain_name (Interface.name e) = true ->
  Interface.plain_name (Interface.name e') = true ->
  Interface.signature e' = Interface.signature e ->
  Interface.name e' = Interface.name e.
Proof.
  intros H H' Hsig. unfold Interface.signature in Hsig.
  eapply name_chars_prefix; eauto using plain_name_chars.
Qed.

(** Among entries with pairwise distinct keys, those of one key are at
    most one. *)
Lemma filter_one_key {V} (f : string * V -> bool) (k0 : string) (l : Js.obj V) :
  NoDup (Js.keys l) ->
  (forall kv, In kv l -> f kv = true -> fst kv = k0) ->
  filter f l = [] \/ exists kv, filter f l = [kv].
Proof.
  induction l as [| kv l IH]; intros Hnd Hkey; [now left |].
  inversion Hnd as [| ? ? Hnot Hnd']; subst. cbn [filter].
  destruct (f kv) eqn:Hf.
  - right. exists kv. f_equal. apply filter_nothing. intros kv' Hin.
    destruct (f kv') eqn:Hf'; [| reflexivity]. exfalso. apply Hnot.
    rewrite (Hkey kv (or_introl eq_refl) Hf).
    rewrite <- (Hkey kv' (or_intror Hin) Hf').
    unfold Js.keys. now apply in_map.
  - apply IH; [assumption |]. intros kv' Hin. apply Hkey. now right.
Qed.

Lemma getEvent_resolves (abi : Interface.Abi) (e : Interface.EventFragment)
    (nm : string) :
  well_formed abi ->
  In (Interface.FragEvent e) abi ->
  Interface.name e = nm ->
  (forall e', In (Interface.FragEvent e') abi -> Interface.name e' = nm ->
              Interface.signature e' = Interface.signature e) ->
  exists e', Interface.getEvent abi nm = Ok e'
             /\ Interface.signature e' = Interface.signature e.
Proof.
  intros Hwf Hin Hname Huniq. unfold Interface.getEvent.
  set (f := fun kv : string * Interface.EventFragment =>
              String.eqb (Interface.name (snd kv)) nm).
  assert (Hentry : forall kv, In kv (Interface.events abi) ->
            In (Interface.FragEvent (snd kv)) abi
            /\ fst kv = Interface.signature (snd kv)).
  { intros [k e'] Hkv. unfold Interface.events in Hkv.
    apply events_from_In in Hkv as [[] | H]. exact H. }
  destruct (filter_one_key f (Interface.signature e) (Interface.events abi))
    as [Hnone | [kv Hone]].
  - apply events_from_NoDup. constructor.
  - intros kv Hkv Hf. destruct (Hentry kv Hkv) as [Habi ->].
    apply Huniq; [assumption |]. now apply String.eqb_eq.
  - exfalso.
    pose proof (events_from_registers abi e [] Hin) as Hreg.
    fold (Interface.events abi) in Hreg.
    destruct (Js.get (Interface.events abi) (Interface.signature e)) as [e' |] eqn:Hg;
      [| contradiction].
    apply get_in in Hg. destruct (Hentry _ Hg) as [Habi Hsig]. cbn [fst snd] in *.
    assert (Hf : In (Interface.signature e, e') (filter f (Interface.events abi))).
    { apply filter_In. split; [assumption |]. unfold f. cbn [snd].
      apply String.eqb_eq. rewrite <- Hname.
      apply signature_name; auto. }
    rewrite Hnone in Hf. contradiction.
  - rewrite Hone. exists (snd kv). split; [reflexivity |].
    assert (Hkv : In kv (filter f (Interface.events abi)))
      by (rewrite Hone; now left).
    apply filter_In in Hkv as [Hkv Hf]. destruct (Hentry kv Hkv) as [Habi _].
    apply Huniq; [assumption |]. now apply String.eqb_eq.
Qed.

Variable w : World.

Lemma resolveTopics_resolves (refs : list TopicRef) :
  forall ts acc, Forall2 (resolves w) refs ts ->
  resolveTopics w refs acc = Ok (acc ++ ts)%list.
Proof.
  induction refs as [| ref refs IH]; intros ts acc H; inversion H; subst.
  - cbn. now rewrite app_nil_r.
  - match goal with
    | Hr : resolves w ref _ |- _ =>
        destruct Hr as (abi & e & Habi & Hwf & Hin & Hname & Huniq & ->)
    end.
    cbn [resolveTopics]. rewrite Habi. unfold Interface.getEventTopic.
    destruct (getEvent_resolves abi e (eventName ref) Hwf Hin Hname Huniq)
      as (e' & -> & ->).
    rewrite IH with (ts := l') by assumption. now rewrite <- app_assoc.
Qed.

End EventTopics.

(** C5. Translating an event trigger.  For bare event names: when every
    (ABI name, event name) pair resolves, the result is an event trigger
    whose filter holds the address as given and one inner array with the
    keccak256 topic of each event's canonical signature, in order, and the
    block confirmations as given; when some pair names a missing ABI file
    or an event the ABI does not hold, the translation throws. *)
Theorem event_trigger_translation (w : Deploy.World) (address : string)
    (topics : list Deploy.TopicRef) (blockConfirmations : Z) :
  Forall (fun ref => Interface.plain_name (Deploy.eventName ref) = true) topics ->
  (forall ts, Forall2 (Deploy.resolves w) topics ts ->
     Deploy.createTriggerConfig w
       (Deploy.EventTrigger address topics blockConfirmations)
     = Ok (TriggerEVENT address [ts] blockConfirmations))
  /\ (Exists (Deploy.unresolvable w) topics ->
      exists msg,
        Deploy.createTriggerConfig w
          (Deploy.EventTrigger address topics blockConfirmations)
        = Throw msg).
Proof.
  intros _. split.
  - intros ts H. cbn [Deploy.createTriggerConfig].
    now rewrite (resolveTopics_resolves w topics ts [] H).
  - intros H. cbn [Deploy.createTriggerConfig].
    destruct (resolveTopics_unresolvable w topics [] H) as [msg ->].
    now exists msg.
Qed.

(** ** The signing credential *)

Lemma substring_prefix (p q : string) :
  substring 0 (String.length p) (p ++ q) = p.
Proof.
  induction p as [| c p IH]; simpl.
  - now destruct q.
  - now rewrite IH.
Qed.

Lemma length_append (p q : string) :
  String.length (p ++ q) = String.length p + String.length q.
Proof. induction p as [| c p IH]; simpl; [reflexivity | now rewrite IH]. Qed.

(** Dropping the last [n] characters of [p ++ q], [q] of length [n],
    leaves [p]. *)
Lemma slice_end_append (p q : string) :
  Js.slice_end (p ++ q) (String.length q) = p.
Proof.
  unfold Js.slice_end. rewrite length_append.
  replace (String.length p + String.length q - String.length q)
    with (String.length p) by lia.
  apply substring_prefix.
Qed.


(** ** The all-in-one deployer *)

Section AllInOne.

Import DeployAll.

Lemma file_after_no_write (content : Js.obj string) (t : list Event) :
  count_events is_write t = 0 -> file_after content t = content.
Proof.
  unfold count_events, file_after. induction t as [| e t IH]; simpl; [reflexivity |].
  destruct e; simpl; try exact IH. discriminate.
Qed.

Lemma no_write_In (t : list Event) (path : string) (content : Js.obj string) :
  count_events is_write t = 0 -> ~ In (WriteFile path content) t.
Proof.
  unfold count_events. induction t as [| e t IH]; simpl; [tauto |].
  destruct (is_write e) eqn:E; [discriminate |].
  intros H [-> | Hin]; [discriminate | now apply IH].
Qed.

End AllInOne.

(** C9. The deployed-state file is rewritten, with the new content
    address, only once the deployment logic has run to its end.  When the
    keeper is skipped (no content address, or the recorded one equals it)
    or the logic throws, the file is left as it was. *)
Theorem deployments_file_written_last (w3fName : string) (w : DeployAll.World)
    (logic : string -> M unit) (gelatoDeployments file0 : Js.obj string) :
  (forall ipfs, count_events DeployAll.is_write (trace (logic ipfs)) = 0) ->
  ((Js.get (DeployAll.ipfsDeployments w) w3fName = None
    \/ Js.get (DeployAll.ipfsDeployments w) w3fName = Js.get gelatoDeployments w3fName
    \/ (exists ipfs msg,
          Js.get (DeployAll.ipfsDeployments w) w3fName = Some ipfs
          /\ result (logic ipfs) = Throw msg)) ->
   DeployAll.file_after file0
     (trace (DeployAll.deploy w3fName w logic gelatoDeployments)) = file0)
  /\ (forall content,
        In (WriteFile DeployAll.deploymentsPath content)
           (trace (DeployAll.deploy w3fName w logic gelatoDeployments)) ->
        exists ipfs pre,
          Js.get (DeployAll.ipfsDeployments w) w3fName = Some ipfs
          /\ result (logic ipfs) = Ok tt
          /\ content = Js.assign gelatoDeployments w3fName ipfs
          /\ trace (DeployAll.deploy w3fName w logic gelatoDeployments)
             = (pre ++ trace (logic ipfs)
                ++ [Log ("   * Deployed " ++ w3fName ++ " successfully!");
                    WriteFile DeployAll.deploymentsPath content])%list
          /\ DeployAll.file_after file0
               (trace (DeployAll.deploy w3fName w logic gelatoDeployments))
             = content).
Proof.
  intros Hlogic. unfold DeployAll.deploy.
  destruct (Js.get (DeployAll.ipfsDeployments w) w3fName) as [ipfs |] eqn:Hipfs.
  2:{ cbn. split; [reflexivity |].
      intros content [H | [H | []]]; discriminate H. }
  destruct (match Js.get gelatoDeployments w3fName with
            | Some g => String.eqb ipfs g
            | None => false
            end) eqn:Hsame.
  { cbn. split; [reflexivity |].
    intros content [H | [H | []]]; discriminate H. }
  rewrite !bind_emit. cbn [trace result fst snd].
  specialize (Hlogic ipfs).
  destruct (logic ipfs) as [tl [[] | msg]] eqn:Hl; cbn [trace result fst snd] in *.
  - cbn. split.
    + intros [H | [H | (ipfs' & msg & [= <-] & H)]].
      * discriminate H.
      * rewrite <- H, String.eqb_refl in Hsame. discriminate.
      * rewrite Hl in H. discriminate H.
    + intros content Hin.
      exists ipfs,
        [Log (nl ++ "== Deploying " ++ w3fName ++ " ==");
         Log ("   * Deployment of " ++ w3fName ++ " to be executed (IPFS hash: "
              ++ ipfs ++ ")");
         Pause;
         Log ("   * Deploying " ++ w3fName ++ "...")].
      rewrite Hl. cbn [trace result fst snd].
      assert (Hc : content = Js.assign gelatoDeployments w3fName ipfs).
      { repeat (destruct Hin as [Hin | Hin]; [discriminate Hin |]).
        apply in_app_or in Hin as [Hin | Hin].
        - now apply no_write_In in Hin.
        - destruct Hin as [Hin | [Hin | []]]; [discriminate Hin |].
          now injection Hin as <-. }
      subst content. repeat split.
      cbn [DeployAll.file_after fold_left DeployAll.file_step].
      rewrite fold_left_app.
      change (fold_left DeployAll.file_step tl file0)
        with (DeployAll.file_after file0 tl).
      rewrite (file_after_no_write _ _ Hlogic). reflexivity.
  - cbn. split.
    + intros _. fold (DeployAll.file_after file0 tl).
      now apply file_after_no_write.
    + intros content Hin.
      repeat (destruct Hin as [Hin | Hin]; [discriminate Hin |]).
      now apply no_write_In in Hin.
Qed.

(** ** Retiring the tasks of an earlier deployment *)

Section Retiring.

Import Deploy DeployAll.

Lemma substring_length (s : string) :
  forall n m, n + m <= String.length s -> String.length (substring n m s) = m.
Proof.
  induction s as [| c s IH]; intros n m H; simpl in H.
  - assert (n = 0) by lia. assert (m = 0) by lia. subst. reflexivity.
  - destruct n as [| n]; simpl.
    + destruct m as [| m]; [reflexivity |]. simpl. f_equal. apply IH. lia.
    + apply IH. lia.
Qed.

(** The tag of any ISO date has 22 characters. *)
Lemma deploymentTag_length (w : World) :
  19 <= String.length (deploymentDate w) ->
  String.length (deploymentTag w) = 22.
Proof.
  intros H. unfold deploymentTag. rewrite !length_append.
  rewrite !substring_length by lia. reflexivity.
Qed.

Variable w : World.
Hypothesis accepts : forall e, rejects w e = false.

Lemma retireTask_accepted (domain : string) (task : Task) :
  retireTask w domain task tt
  = ([Log ("   * Retiring " ++ taskName task ++ "...");
      CancelTask domain (taskId task);
      TxWait (taskId task);
      Log ("   * " ++ taskName task ++ " retired successfully!")], Ok tt).
Proof. unfold retireTask, sdk, bind, emit, ret. rewrite !accepts. reflexivity. Qed.

Lemma retire_loop_accepted (domain : string) (tasks : list Task) :
  result (for_each (retireTask w domain) tasks tt) = Ok tt
  /\ filter is_cancel (trace (for_each (retireTask w domain) tasks tt))
     = map (fun task => CancelTask domain (taskId task)) tasks.
Proof.
  induction tasks as [| task tasks [IHr IHt]]; [now split |].
  rewrite (for_each_step _ _ _ _ _ _ (retireTask_accepted domain task)).
  cbn [trace result fst snd]. split; [exact IHr |].
  cbn [app filter is_cancel map]. now rewrite IHt.
Qed.

End Retiring.


(** ** The oracle ticker *)

Section Ticker.

Import XchainOracleTicker.

Variable c : Context.

Lemma optimism_loop (entries : list (string * string)) :
  forall acc rest rs,
  results acc = (rs ++ rest)%list ->
  List.length rs = List.length entries ->
  exists bits,
    for_each (optimismStep c) entries acc
    = ret {| results := rest;
             callsToExecute :=
               (callsToExecute acc ++ optimismCalls c entries rs)%list;
             slackMessageBits := bits |}.
Proof.
  induction entries as [| entry entries IH]; intros acc rest rs Hres Hlen.
  - destruct rs; [| discriminate]. simpl in Hres. exists (slackMessageBits acc).
    cbn. rewrite app_nil_r, <- Hres. now destruct acc.
  - destruct rs as [| d rs]; [discriminate |]. injection Hlen as Hlen.
    cbn [for_each]. unfold optimismStep at 1. rewrite Hres. cbn [app].
    destruct (stale c d) eqn:Hs; rewrite bind_ret;
      match goal with
      | |- context [for_each _ _ ?a] =>
          destruct (IH a rest rs eq_refl Hlen) as [bits ->]
      end; exists bits; cbn [callsToExecute optimismCalls]; rewrite Hs;
      [now rewrite <- app_assoc | reflexivity].
Qed.

Lemma arbitrum_loop (entries : list (string * string)) :
  forall acc,
  List.length entries <= List.length (results acc) ->
  exists rest bits,
    for_each (arbitrumStep c) entries acc
    = ret {| results := rest;
             callsToExecute :=
               (callsToExecute acc ++ arbitrumCalls c entries (results acc))%list;
             slackMessageBits := bits |}.
Proof.
  induction entries as [| entry entries IH]; intros acc Hlen.
  - exists (results acc), (slackMessageBits acc). cbn. rewrite app_nil_r.
    now destruct acc.
  - cbn [for_each arbitrumCalls]. unfold arbitrumStep at 1. simpl in Hlen.
    destruct (Js.get (arbitrumDomainUrls c) (snd entry)) as [url |].
    + destruct (results acc) as [| d rs] eqn:Hres; [simpl in Hlen; lia |].
      simpl in Hlen.
      destruct (stale c d) eqn:Hs; rewrite bind_ret;
        match goal with
        | |- context [for_each _ _ ?a] =>
            destruct (IH a) as (rest & bits & ->); [cbn [results]; lia |]
        end; exists rest, bits; cbn [callsToExecute results];
        [now rewrite <- app_assoc | reflexivity].
    + rewrite bind_ret. destruct (IH acc) as (rest & bits & ->); [lia |].
      now exists rest, bits.
Qed.

(** The handler never throws when there is a result for each consumer,
    and its calls are those of the two loops. *)
Lemma onRun_calls :
  List.length (multicallResults c) = List.length (consumers c) ->
  let calls :=
    (optimismCalls c (optimismStyle c)
       (firstn (List.length (optimismStyle c)) (multicallResults c))
     ++ arbitrumCalls c (arbitrumStyle c)
          (skipn (List.length (optimismStyle c)) (multicallResults c)))%list in
  result (onRun c)
  = Ok (match calls with
        | [] => NoExec "Pot data refresh not needed"
        | _ => Exec calls
        end).
Proof.
  intros Hlen calls. unfold consumers in Hlen. rewrite length_app in Hlen.
  unfold onRun.
  set (n := List.length (optimismStyle c)) in *.
  destruct (optimism_loop (optimismStyle c)
              {| results := multicallResults c; callsToExecute := [];
                 slackMessageBits := [] |}
              (skipn n (multicallResults c)) (firstn n (multicallResults c)))
    as [bits1 ->].
  { cbn [results]. now rewrite firstn_skipn. }
  { rewrite length_firstn. subst n. lia. }
  rewrite bind_ret. cbn [callsToExecute app].
  match goal with
  | |- context [for_each (arbitrumStep c) _ ?a] =>
      destruct (arbitrum_loop (arbitrumStyle c) a) as (rest & bits2 & ->)
  end.
  { cbn [results]. rewrite length_skipn. lia. }
  rewrite bind_ret. cbn [callsToExecute results app]. fold calls.
  destruct calls as [| call calls']; cbn [List.length Nat.eqb]; [reflexivity |].
  now destruct (sendSlackMessages c).
Qed.

Let to_is (a : string) : Call -> bool := fun call => String.eqb (to call) a.

Lemma optimismCalls_elsewhere (a : string) (entries : list (string * string)) :
  forall rs, ~ In a (map snd entries) ->
  filter (to_is a) (optimismCalls c entries rs) = [].
Proof.
  induction entries as [| entry entries IH]; intros rs Hnot; [reflexivity |].
  destruct rs as [| d rs]; [reflexivity |]. cbn [optimismCalls].
  rewrite filter_app, IH by (intros H; apply Hnot; now right).
  destruct (stale c d); [| reflexivity]. cbn.
  unfold to_is. cbn [to refreshCall].
  destruct (String.eqb (snd entry) a) eqn:E; [| reflexivity].
  apply String.eqb_eq in E. exfalso. apply Hnot. now left.
Qed.

Lemma optimismCalls_at (entries : list (string * string)) :
  forall rs i entry d,
  NoDup (map snd entries) ->
  nth_error entries i = Some entry -> nth_error rs i = Some d ->
  filter (to_is (snd entry)) (optimismCalls c entries rs)
  = if stale c d then [refreshCall c entry] else [].
Proof.
  induction entries as [| e entries IH]; intros rs i entry d Hnd He Hd.
  - destruct i; discriminate.
  - destruct rs as [| d0 rs]; [destruct i; discriminate |].
    inversion Hnd as [| ? ? Hnot Hnd']; subst. cbn [optimismCalls].
    rewrite filter_app. destruct i as [| i]; cbn in He, Hd.
    + injection He as ->. injection Hd as ->.
      rewrite optimismCalls_elsewhere by assumption.
      destruct (stale c d); [| reflexivity]. cbn. unfold to_is.
      cbn [to refreshCall]. now rewrite String.eqb_refl.
    + rewrite (IH rs i entry d Hnd' He Hd).
      replace (filter (to_is (snd entry)) (if stale c d0 then [refreshCall c e] else []))
        with (@nil Call); [reflexivity |].
      destruct (stale c d0); [| reflexivity]. cbn. unfold to_is.
      cbn [to refreshCall].
      destruct (String.eqb (snd e) (snd entry)) eqn:E; [| reflexivity].
      apply String.eqb_eq in E. exfalso. apply Hnot. rewrite E.
      apply in_map. now apply nth_error_In in He.
Qed.

(** No call goes to an address that has no RPC URL. *)
Lemma arbitrumCalls_unsupported (a : string) (entries : list (string * string)) :
  forall rs, Js.get (arbitrumDomainUrls c) a = None ->
  filter (to_is a) (arbitrumCalls c entries rs) = [].
Proof.
  induction entries as [| entry entries IH]; intros rs Ha; [reflexivity |].
  cbn [arbitrumCalls].
  destruct (Js.get (arbitrumDomainUrls c) (snd entry)) as [url |] eqn:Hu;
    [| now apply IH].
  destruct rs as [| d rs]; [reflexivity |].
  rewrite filter_app, IH by assumption.
  destruct (stale c d); [| reflexivity]. cbn. unfold to_is.
  cbn [to refreshArbitrumCall].
  destruct (String.eqb (snd entry) a) eqn:E; [| reflexivity].
  apply String.eqb_eq in E. rewrite E, Ha in Hu. discriminate.
Qed.

Lemma arbitrumCalls_elsewhere (a : string) (entries : list (string * string)) :
  forall rs, ~ In a (map snd entries) ->
  filter (to_is a) (arbitrumCalls c entries rs) = [].
Proof.
  induction entries as [| entry entries IH]; intros rs Hnot; [reflexivity |].
  cbn [arbitrumCalls].
  assert (Hrest : ~ In a (map snd entries)) by (intros H; apply Hnot; now right).
  destruct (Js.get (arbitrumDomainUrls c) (snd entry)) as [url |];
    [| now apply IH].
  destruct rs as [| d rs]; [reflexivity |].
  rewrite filter_app, IH by assumption.
  destruct (stale c d); [| reflexivity]. cbn. unfold to_is.
  cbn [to refreshArbitrumCall].
  destruct (String.eqb (snd entry) a) eqn:E; [| reflexivity].
  apply String.eqb_eq in E. exfalso. apply Hnot. now left.
Qed.

Lemma no_stale_no_calls (rs : list PotData) :
  (forall d, In d rs -> stale c d = false) ->
  forall entries,
  optimismCalls c entries rs = [] /\ arbitrumCalls c entries rs = [].
Proof.
  induction rs as [| d rs IH]; intros Hfresh entries.
  - split; [now destruct entries |].
    induction entries as [| entry entries IHe]; [reflexivity |].
    cbn [arbitrumCalls]. now destruct (Js.get (arbitrumDomainUrls c) (snd entry)).
  - assert (Hd : stale c d = false) by (apply Hfresh; now left).
    assert (Hrs : forall d', In d' rs -> stale c d' = false)
      by (intros d' H; apply Hfresh; now right).
    split.
    + destruct entries as [| entry entries]; [reflexivity |].
      cbn [optimismCalls]. rewrite Hd. apply (IH Hrs entries).
    + induction entries as [| entry entries IHe]; [reflexivity |].
      cbn [arbitrumCalls].
      destruct (Js.get (arbitrumDomainUrls c) (snd entry)); [| exact IHe].
      rewrite Hd. apply (IH Hrs entries).
Qed.

End Ticker.

(** C4, as the code has it.  A consumer is stale exactly when its
    last-seen rate differs from the current rate or the latest timestamp
    exceeds its last update by more than [maxDelta].  With one multicall
    result per consumer and pairwise distinct forwarder addresses: when no
    result is stale the handler answers [canExec: false] with its message;
    an optimism-style consumer, and the arbitrum-style consumer at the head
    of its table when its forwarder has an RPC URL, gets exactly one refresh
    call to its forwarder when it is stale and none otherwise; an
    arbitrum-style consumer whose forwarder has no RPC URL is skipped and
    gets no call. *)
Theorem ticker_refreshes_stale_consumers (c : XchainOracleTicker.Context) :
  NoDup (map snd (XchainOracleTicker.consumers c)) ->
  List.length (XchainOracleTicker.multicallResults c)
  = List.length (XchainOracleTicker.consumers c) ->
  (forall d,
      XchainOracleTicker.stale c d = true
      <-> (XchainOracleTicker.dsr d <> XchainOracleTicker.currentDsr c
           \/ XchainOracleTicker.latestTimestamp c
              > XchainOracleTicker.rho d + XchainOracleTicker.maxDelta c)%Z)
  /\ exists r,
      result (XchainOracleTicker.onRun c) = Ok r
      /\ ((forall d, In d (XchainOracleTicker.multicallResults c) ->
                     XchainOracleTicker.stale c d = false) ->
          r = XchainOracleTicker.NoExec "Pot data refresh not needed")
      /\ (forall i entry d,
            nth_error (XchainOracleTicker.optimismStyle c) i = Some entry ->
            nth_error (XchainOracleTicker.multicallResults c) i = Some d ->
            XchainOracleTicker.calls_to (snd entry) r
            = if XchainOracleTicker.stale c d
              then [XchainOracleTicker.refreshCall c entry] else [])
      /\ (forall entry rest url d,
            XchainOracleTicker.arbitrumStyle c = entry :: rest ->
            Js.get (XchainOracleTicker.arbitrumDomainUrls c) (snd entry) = Some url ->
            nth_error (XchainOracleTicker.multicallResults c)
                      (List.length (XchainOracleTicker.optimismStyle c)) = Some d ->
            XchainOracleTicker.calls_to (snd entry) r
            = if XchainOracleTicker.stale c d
              then [XchainOracleTicker.refreshArbitrumCall c entry url] else [])
      /\ (forall entry,
            In entry (XchainOracleTicker.arbitrumStyle c) ->
            Js.get (XchainOracleTicker.arbitrumDomainUrls c) (snd entry) = None ->
            XchainOracleTicker.calls_to (snd entry) r = []).
Proof.
  intros Hnd Hlen. split.
  { intros d. unfold XchainOracleTicker.stale.
    rewrite orb_true_iff, negb_true_iff, Z.eqb_neq, Z.gtb_gt. reflexivity. }
  pose proof (onRun_calls c Hlen) as Hrun. cbv zeta in Hrun.
  set (n := List.length (XchainOracleTicker.optimismStyle c)) in *.
  set (rs1 := firstn n (XchainOracleTicker.multicallResults c)) in *.
  set (rs2 := skipn n (XchainOracleTicker.multicallResults c)) in *.
  set (calls := (XchainOracleTicker.optimismCalls c
                   (XchainOracleTicker.optimismStyle c) rs1
                 ++ XchainOracleTicker.arbitrumCalls c
                      (XchainOracleTicker.arbitrumStyle c) rs2)%list) in *.
  unfold XchainOracleTicker.consumers in Hnd. rewrite map_app in Hnd.
  pose proof (NoDup_app_remove_r _ _ Hnd) as Hnd1.
  pose proof (NoDup_app_remove_l _ _ Hnd) as Hnd2.
  pose proof (NoDup_app_disjoint _ _ Hnd) as Hdis.
  assert (Hto : forall a r,
            r = match calls with
                | [] => XchainOracleTicker.NoExec "Pot data refresh not needed"
                | _ => XchainOracleTicker.Exec calls
                end ->
            XchainOracleTicker.calls_to a r
            = (filter (fun call => String.eqb (XchainOracleTicker.to call) a)
                 (XchainOracleTicker.optimismCalls c
                    (XchainOracleTicker.optimismStyle c) rs1)
               ++ filter (fun call => String.eqb (XchainOracleTicker.to call) a)
                    (XchainOracleTicker.arbitrumCalls c
                       (XchainOracleTicker.arbitrumStyle c) rs2))%list).
  { intros a r ->. rewrite <- filter_app. fold calls.
    destruct calls; reflexivity. }
  eexists. split; [exact Hrun |]. split; [| split; [| split]].
  - intros Hfresh.
    destruct (no_stale_no_calls c rs1) with (entries := XchainOracleTicker.optimismStyle c)
      as [H1 _].
    { intros d Hd. apply Hfresh.
      rewrite <- (firstn_skipn n (XchainOracleTicker.multicallResults c)).
      apply in_or_app. now left. }
    destruct (no_stale_no_calls c rs2) with (entries := XchainOracleTicker.arbitrumStyle c)
      as [_ H2].
    { intros d Hd. apply Hfresh.
      rewrite <- (firstn_skipn n (XchainOracleTicker.multicallResults c)).
      apply in_or_app. now right. }
    subst calls. now rewrite H1, H2.
  - intros i entry d He Hd. rewrite (Hto _ _ eq_refl).
    assert (Hi : i < n).
    { subst n. apply nth_error_Some. rewrite He. discriminate. }
    rewrite (optimismCalls_at c _ rs1 i entry d Hnd1 He).
    + rewrite arbitrumCalls_elsewhere; [apply app_nil_r |].
      apply Hdis. apply in_map. now apply nth_error_In in He.
    + subst rs1. rewrite nth_error_firstn.
      apply Nat.ltb_lt in Hi. now rewrite Hi.
  - intros entry rest url d Harb Hurl Hd. rewrite (Hto _ _ eq_refl).
    rewrite optimismCalls_elsewhere.
    2:{ intros Hin. apply (Hdis _ Hin). rewrite Harb. now left. }
    rewrite Harb in Hnd2 |- *. cbn [map] in Hnd2.
    inversion Hnd2 as [| ? ? Hnot _]; subst.
    cbn [XchainOracleTicker.arbitrumCalls app]. rewrite Hurl.
    assert (Hrs2 : exists rs', rs2 = d :: rs').
    { subst rs2. rewrite <- hd_error_skipn in Hd.
      destruct (skipn n (XchainOracleTicker.multicallResults c)) as [| d' rs'];
        [discriminate |].
      injection Hd as ->. now exists rs'. }
    destruct Hrs2 as [rs' ->]. rewrite filter_app.
    rewrite arbitrumCalls_elsewhere by assumption. rewrite app_nil_r.
    destruct (XchainOracleTicker.stale c d); [| reflexivity].
    cbn. now rewrite String.eqb_refl.
  - intros entry Hin Hurl. rewrite (Hto _ _ eq_refl).
    rewrite arbitrumCalls_unsupported by assumption.
    rewrite optimismCalls_elsewhere; [reflexivity |].
    intros Hopt. apply (Hdis _ Hopt). now apply in_map.
Qed.

(** ** What a completed run has done *)

Section CompletedRun.

Import Deploy.

Variable w : World.

Lemma for_each_ok {A S} (body : A -> S -> M S) (x : A) (xs : list A)
    (s s' : S) (t : list Event) :
  for_each body (x :: xs) s = (t, Ok s') ->
  exists t1 s1 t2,
    body x s = (t1, Ok s1) /\ for_each body xs s1 = (t2, Ok s')
    /\ t = (t1 ++ t2)%list.
Proof.
  cbn [for_each]. destruct (body x s) as [t1 [s1 | msg]]; [| discriminate].
  unfold bind. destruct (for_each body xs s1) as [t2 r2] eqn:Hrest.
  intros [= <- ->]. now exists t1, s1, t2.
Qed.

(** One config, when it does not throw: the working set is as before or
    lost the matched name; a new eligible config has been created. *)
Lemma config_step_ok (ipfs : string) (cf : ConfigFile) (o o' : Js.obj TaskRef)
    (t : list Event) :
  processConfig w ipfs cf o = (t, Ok o') ->
  (o' = o \/ (o' = Js.delete o (deploymentName cf ipfs) /\ eligible cf = true))
  /\ (eligible cf = true -> Js.get o (deploymentName cf ipfs) = None ->
      exists config tc,
        parsed cf = Some config
        /\ In (CreateBatchExecTask (domain config) (deploymentName cf ipfs) ipfs
                 (args config) tc) t).
Proof.
  unfold processConfig, eligible.
  destruct (parsed cf) as [config |]; [| discriminate].
  destruct (Js.includes domains (domain config)); cbn [negb andb].
  2:{ intros [= <- <-]. split; [now left | discriminate]. }
  destruct (Js.includes triggerTypeNames (trigger_type (trigger config)));
    cbn [negb].
  2:{ intros [= <- <-]. split; [now left | discriminate]. }
  destruct (Js.get o (deploymentName cf ipfs)) as [ref |].
  { intros [= <- <-]. split; [right; now split | discriminate]. }
  destruct (createTriggerConfig w (trigger config)) as [tc | msg]; [| discriminate].
  destruct (resolveSecrets w (secrets config) []) as [secrets | msg];
    [| discriminate].
  unfold sdk, lift, bind, emit, ret.
  repeat match goal with
         | |- context [rejects w ?e] => destruct (rejects w e)
         end; try discriminate.
  intros [= <- <-]. split; [now left |]. intros _ _.
  exists config, tc. split; [reflexivity |]. cbn. auto.
Qed.

Lemma configs_loop_ok (ipfs : string) (files : list ConfigFile) :
  forall (o o' : Js.obj TaskRef) (t : list Event),
  for_each (processConfig w ipfs) files o = (t, Ok o') ->
  (forall n, Js.get o n = None -> Js.get o' n = None)
  /\ (forall n ref, Js.get o n = Some ref ->
        (forall cf, In cf files -> eligible cf = true ->
                    deploymentName cf ipfs <> n) ->
        Js.get o' n = Some ref)
  /\ (forall cf, In cf files -> eligible cf = true ->
        Js.get o (deploymentName cf ipfs) = None ->
        exists config tc,
          parsed cf = Some config
          /\ In (CreateBatchExecTask (domain config) (deploymentName cf ipfs) ipfs
                   (args config) tc) t).
Proof.
  induction files as [| cf files IH]; intros o o' t H.
  - injection H as <- <-. repeat split; auto. intros cf [].
  - apply for_each_ok in H as (t1 & o1 & t2 & Hstep & Hrest & ->).
    apply config_step_ok in Hstep as [Hform Hcreate].
    destruct (IH o1 o' t2 Hrest) as (I1 & I2 & I3).
    assert (Hnone : forall n, Js.get o n = None -> Js.get o1 n = None).
    { intros n Hn. destruct Hform as [-> | [-> _]]; [assumption |].
      rewrite get_delete. now destruct (String.eqb _ n). }
    repeat split.
    + intros n Hn. auto.
    + intros n ref Hn Hother. apply I2.
      * destruct Hform as [-> | [-> He]]; [assumption |].
        rewrite get_delete.
        destruct (String.eqb (deploymentName cf ipfs) n) eqn:E; [| assumption].
        apply String.eqb_eq in E. exfalso.
        apply (Hother cf (or_introl eq_refl) He E).
      * intros cf' Hcf'. apply Hother. now right.
    + intros cf' [<- | Hcf'] He Hn.
      * destruct (Hcreate He Hn) as (config & tc & Hp & Hin).
        exists config, tc. split; [assumption |]. apply in_or_app. now left.
      * destruct (I3 cf' Hcf' He (Hnone _ Hn)) as (config & tc & Hp & Hin).
        exists config, tc. split; [assumption |]. apply in_or_app. now right.
Qed.

Lemma keeper_ok (k : string) (o o' : Js.obj TaskRef) (t : list Event) :
  processKeeper w k o = (t, Ok o') ->
  (forall n, Js.get o n = None -> Js.get o' n = None)
  /\ (forall n ref, Js.get o n = Some ref -> ~ In n (keeperNames w k) ->
        Js.get o' n = Some ref)
  /\ (forall ipfs cf,
        Js.includes (w3fConfigs w) k = true ->
        Js.get (ipfsDeployments w) k = Some ipfs -> ipfs <> "" ->
        In cf (configFiles w k) -> eligible cf = true ->
        Js.get o (deploymentName cf ipfs) = None ->
        exists config tc,
          parsed cf = Some config
          /\ In (CreateBatchExecTask (domain config) (deploymentName cf ipfs) ipfs
                   (args config) tc) t).
Proof.
  unfold processKeeper, keeperNames.
  destruct (Js.includes (w3fConfigs w) k); cbn [negb andb].
  2:{ intros [= <- <-]. repeat split; auto. discriminate. }
  destruct (Js.get (ipfsDeployments w) k) as [ipfs |] eqn:Hipfs.
  2:{ intros [= <- <-]. repeat split; auto. discriminate. }
  cbn [Js.truthy]. destruct (String.eqb ipfs "") eqn:Hempty; cbn [negb].
  { intros [= <- <-]. repeat split; auto.
    intros ipfs' cf _ [= <-] Hne. apply String.eqb_eq in Hempty. contradiction. }
  destruct (configFiles w k) as [| cf0 files] eqn:Hfiles.
  { intros [= <- <-]. repeat split; auto. intros ipfs' cf _ _ _ []. }
  destruct (for_each (processConfig w ipfs) (cf0 :: files) o) as [t' r'] eqn:Hloop.
  rewrite bind_emit. cbn [trace result fst snd]. intros [= <- ->].
  destruct (configs_loop_ok ipfs (cf0 :: files) o o' t' Hloop) as (I1 & I2 & I3).
  repeat split.
  - exact I1.
  - intros n ref Hn Hnot. apply (I2 n ref Hn). intros cf Hcf He Heq.
    apply Hnot. apply in_map_iff. exists cf. split; [assumption |].
    apply filter_In. now split.
  - intros ipfs' cf _ [= <-] _ Hcf He Hn.
    destruct (I3 cf Hcf He Hn) as (config & tc & Hp & Hin).
    exists config, tc. split; [assumption | now right].
Qed.

Lemma keepers_loop_ok (ks : list string) :
  forall (o o' : Js.obj TaskRef) (t : list Event),
  for_each (processKeeper w) ks o = (t, Ok o') ->
  (forall n, Js.get o n = None -> Js.get o' n = None)
  /\ (forall n ref, Js.get o n = Some ref ->
        ~ In n (flat_map (keeperNames w) ks) -> Js.get o' n = Some ref)
  /\ (forall k ipfs cf,
        In k ks -> Js.includes (w3fConfigs w) k = true ->
        Js.get (ipfsDeployments w) k = Some ipfs -> ipfs <> "" ->
        In cf (configFiles w k) -> eligible cf = true ->
        Js.get o (deploymentName cf ipfs) = None ->
        exists config tc,
          parsed cf = Some config
          /\ In (CreateBatchExecTask (domain config) (deploymentName cf ipfs) ipfs
                   (args config) tc) t).
Proof.
  induction ks as [| k ks IH]; intros o o' t H.
  - injection H as <- <-. repeat split; auto. intros k ipfs cf [].
  - apply for_each_ok in H as (t1 & o1 & t2 & Hstep & Hrest & ->).
    destruct (keeper_ok k o o1 t1 Hstep) as (K1 & K2 & K3).
    destruct (IH o1 o' t2 Hrest) as (I1 & I2 & I3).
    repeat split.
    + intros n Hn. auto.
    + intros n ref Hn Hnot. cbn [flat_map] in Hnot. apply I2.
      * apply K2; [assumption |]. intros Hin. apply Hnot. apply in_or_app. now left.
      * intros Hin. apply Hnot. apply in_or_app. now right.
    + intros k' ipfs cf [<- | Hk'] Hc Hi Hne Hcf He Hn.
      * destruct (K3 ipfs cf Hc Hi Hne Hcf He Hn) as (config & tc & Hp & Hin).
        exists config, tc. split; [assumption |]. apply in_or_app. now left.
      * destruct (I3 k' ipfs cf Hk' Hc Hi Hne Hcf He (K1 _ Hn))
          as (config & tc & Hp & Hin).
        exists config, tc. split; [assumption |]. apply in_or_app. now right.
Qed.

Lemma cancel_loop_ok (entries : Js.obj TaskRef) :
  forall t, for_each (cancelTask w) entries tt = (t, Ok tt) ->
  forall n ref, In (n, ref) entries ->
  In (CancelTask (refDomain ref) (refTaskId ref)) t.
Proof.
  induction entries as [| entry entries IH]; intros t H n ref Hin; [contradiction |].
  apply for_each_ok in H as (t1 & [] & t2 & Hstep & Hrest & ->).
  apply in_or_app. destruct Hin as [-> | Hin].
  - left. unfold cancelTask, sdk, bind, emit, ret in Hstep. cbn [fst snd] in Hstep.
    repeat match type of Hstep with
           | context [rejects w ?e] => destruct (rejects w e)
           end; try discriminate.
    injection Hstep as <-. cbn. auto.
  - right. exact (IH t2 Hrest n ref Hin).
Qed.

End CompletedRun.

Lemma bind_ok {A B} (m : M A) (f : A -> M B) (t : list Event) (b : B) :
  bind m f = (t, Ok b) ->
  exists t1 a t2, m = (t1, Ok a) /\ f a = (t2, Ok b) /\ t = (t1 ++ t2)%list.
Proof.
  destruct m as [t1 [a | msg]]; [| discriminate]. unfold bind.
  destruct (f a) as [t2 r2] eqn:Hf. intros [= <- ->]. now exists t1, a, t2.
Qed.



(** ** The theorems above at work *)

Lemma in_sync_by_computation (w : Deploy.World) :
  Js.distinct (Deploy.derivedNames w) = true ->
  Deploy.activeNames w = Deploy.derivedNames w ->
  Deploy.in_sync w.
Proof.
  intros Hd Ha. split.
  - now apply distinct_NoDup.
  - intros name. now rewrite Ha.
Qed.

Lemma syncWorld_in_sync : Deploy.in_sync Scenario.syncWorld.
Proof. apply in_sync_by_computation; vm_compute; reflexivity. Qed.


Lemma reconciliation_idempotent_witness :
  Deploy.in_sync Scenario.syncWorld
  /\ count_events is_create (trace (Deploy.reconcile Scenario.syncWorld)) = 0
  /\ count_events is_cancel (trace (Deploy.reconcile Scenario.syncWorld)) = 0.
Proof.
  split; [exact syncWorld_in_sync |].
  exact (reconciliation_idempotent Scenario.syncWorld syncWorld_in_sync).
Defined.

(** Counterexample to C1 as stated: two configs derive one name.  A first run
    on an empty platform completes and creates one task per config; with
    these tasks active and nothing changed, the working set of the second
    run holds a single entry of that name: the first config takes it, and
    the second config is created again. *)
Lemma twin_configs_are_created_again :
  result (Deploy.reconcile Scenario.twinStart) = Ok tt
  /\ created_names (trace (Deploy.reconcile Scenario.twinStart))
     = Deploy.derivedNames Scenario.twinStart
  /\ Deploy.activeNames Scenario.twinWorld
     = created_names (trace (Deploy.reconcile Scenario.twinStart))
  /\ Deploy.derivedNames Scenario.twinWorld = Deploy.derivedNames Scenario.twinStart
  /\ count_events is_create (trace (Deploy.reconcile Scenario.twinWorld)) = 1.
Proof.
  split; [| split; [| split; [| split]]]; vm_compute; reflexivity.
Qed.


Lemma unsupported_domain_witness :
  Deploy.processConfig Scenario.syncWorld Scenario.capIpfs Scenario.polygonFile []
  = ([Log "Domain polygon is not supported"], Ok [])
  /\ count_events is_sdk_call
       (trace (Deploy.processConfig Scenario.syncWorld Scenario.capIpfs
                 Scenario.polygonFile [])) = 0
  /\ for_each (Deploy.processConfig Scenario.syncWorld Scenario.capIpfs)
       ([Scenario.slackFile] ++ Scenario.polygonFile :: [Scenario.gnosisFile]) []
     = (o' <- for_each (Deploy.processConfig Scenario.syncWorld Scenario.capIpfs)
                [Scenario.slackFile] [] ;;
        emit (Log "Domain polygon is not supported") ;;;
        for_each (Deploy.processConfig Scenario.syncWorld Scenario.capIpfs)
                 [Scenario.gnosisFile] o').
Proof.
  exact (unsupported_domain_is_skipped Scenario.syncWorld Scenario.capIpfs
           Scenario.polygonFile
           {| Deploy.domain := "polygon"; Deploy.args := "{}";
              Deploy.secrets := []; Deploy.trigger := Deploy.BlockTrigger |}
           [Scenario.slackFile] [Scenario.gnosisFile] [] eq_refl eq_refl).
Defined.




Lemma event_trigger_witness :
  Deploy.createTriggerConfig Scenario.syncWorld
    (Deploy.EventTrigger "0xAggregator"
       [{| Deploy.abiName := "aggregator"; Deploy.eventName := "AnswerUpdated" |}]
       0)
  = Ok (TriggerEVENT "0xAggregator"
          [["0x0559884fd3a460db3073b7fc896cc77986f16e378210ded43186175bf646fc5f"]]
          0)
  /\ exists msg,
       Deploy.createTriggerConfig Scenario.syncWorld
         (Deploy.EventTrigger "0xAggregator"
            [{| Deploy.abiName := "aggregator"; Deploy.eventName := "Transfer" |}]
            0)
       = Throw msg.
Proof.
  split.
  - apply (event_trigger_translation Scenario.syncWorld "0xAggregator"
             [{| Deploy.abiName := "aggregator";
                 Deploy.eventName := "AnswerUpdated" |}] 0%Z).
    + repeat constructor.
    + repeat constructor.
      exists [Interface.FragOther; Interface.FragEvent AnswerUpdated], AnswerUpdated.
      split; [reflexivity |]. split.
      { intros e [H | [H | []]]; [discriminate H |]. now injection H as <-. }
      split; [right; now left |]. split; [reflexivity |]. split.
      { intros e [H | [H | []]] _; [discriminate H |]. now injection H as <-. }
      vm_compute. reflexivity.
  - apply (event_trigger_translation Scenario.syncWorld "0xAggregator"
             [{| Deploy.abiName := "aggregator";
                 Deploy.eventName := "Transfer" |}] 0%Z).
    + repeat constructor.
    + apply Exists_cons_hd. unfold Deploy.unresolvable. cbn.
      intros e [H | [H | []]]; [discriminate H |]. injection H as <-. discriminate.
Defined.



Lemma deployments_file_witness :
  DeployAll.file_after Scenario.deployedBefore
    (trace (DeployAll.deploy "cap-automator" Scenario.failingDeployAllWorld
              (DeployAll.capAutomatorLogic Scenario.failingDeployAllWorld)
              Scenario.deployedBefore))
  = Scenario.deployedBefore
  /\ exists ipfs pre,
       Js.get (DeployAll.ipfsDeployments Scenario.deployAllWorld) "cap-automator"
       = Some ipfs
       /\ result (DeployAll.capAutomatorLogic Scenario.deployAllWorld ipfs) = Ok tt
       /\ [("cap-automator", "QmCapAutomatorV2"); ("d3m-ticker", "QmD3mTickerV1")]
          = Js.assign Scenario.deployedBefore "cap-automator" ipfs
       /\ trace (DeployAll.deploy "cap-automator" Scenario.deployAllWorld
                   (DeployAll.capAutomatorLogic Scenario.deployAllWorld)
                   Scenario.deployedBefore)
          = (pre ++ trace (DeployAll.capAutomatorLogic Scenario.deployAllWorld ipfs)
             ++ [Log ("   * Deployed " ++ "cap-automator" ++ " successfully!");
                 WriteFile DeployAll.deploymentsPath
                   [("cap-automator", "QmCapAutomatorV2");
                    ("d3m-ticker", "QmD3mTickerV1")]])%list
       /\ DeployAll.file_after Scenario.deployedBefore
            (trace (DeployAll.deploy "cap-automator" Scenario.deployAllWorld
                      (DeployAll.capAutomatorLogic Scenario.deployAllWorld)
                      Scenario.deployedBefore))
          = [("cap-automator", "QmCapAutomatorV2"); ("d3m-ticker", "QmD3mTickerV1")].
Proof.
  split.
  - apply (deployments_file_written_last "cap-automator"
             Scenario.failingDeployAllWorld
             (DeployAll.capAutomatorLogic Scenario.failingDeployAllWorld)
             Scenario.deployedBefore Scenario.deployedBefore).
    + intros ipfs. reflexivity.
    + right. right. exists "QmCapAutomatorV2". eexists. split; reflexivity.
  - apply (deployments_file_written_last "cap-automator"
             Scenario.deployAllWorld
             (DeployAll.capAutomatorLogic Scenario.deployAllWorld)
             Scenario.deployedBefore Scenario.deployedBefore).
    + intros ipfs. reflexivity.
    + vm_compute. repeat (first [left; reflexivity | right]).
Defined.


Lemma staleContext_distinct :
  NoDup (map snd (XchainOracleTicker.consumers Scenario.staleContext)).
Proof. apply distinct_NoDup. reflexivity. Qed.

Lemma ticker_witness :
  exists r,
    result (XchainOracleTicker.onRun Scenario.staleContext) = Ok r
    /\ XchainOracleTicker.calls_to "0xOptimismForwarder" r = []
    /\ XchainOracleTicker.calls_to "0xBaseForwarder" r
       = [{| XchainOracleTicker.to := "0xBaseForwarder";
             XchainOracleTicker.data := XchainOracleTicker.Refresh 800000 |}]
    /\ XchainOracleTicker.calls_to "0xArbitrumForwarder" r
       = [{| XchainOracleTicker.to := "0xArbitrumForwarder";
             XchainOracleTicker.data :=
               XchainOracleTicker.RefreshArbitrum 800000 1 36 |}]
    /\ XchainOracleTicker.calls_to "0xNovaForwarder" r = [].
Proof.
  destruct (ticker_refreshes_stale_consumers Scenario.staleContext
              staleContext_distinct eq_refl)
    as (_ & r & Hr & _ & Hopt & Harb & Hskip).
  exists r. split; [exact Hr |]. split; [| split; [| split]].
  - exact (Hopt 0 ("optimism", "0xOptimismForwarder") Scenario.fresh
             eq_refl eq_refl).
  - exact (Hopt 1 ("base", "0xBaseForwarder") Scenario.outdated eq_refl eq_refl).
  - exact (Harb ("arbitrum", "0xArbitrumForwarder")
             [("nova", "0xNovaForwarder")] "https://arb1.arbitrum.io/rpc"
             Scenario.outdated eq_refl eq_refl eq_refl).
  - apply (Hskip ("nova", "0xNovaForwarder")); [right; now left | reflexivity].
Defined.

(** Counterexample to C4 as stated: a consumer without an RPC URL.
    [nova] is stale, and the handler reports that nothing is to be done. *)
Lemma stale_consumer_without_url_is_not_refreshed :
  nth_error (XchainOracleTicker.consumers Scenario.novaContext) 3
  = Some ("nova", "0xNovaForwarder")
  /\ nth_error (XchainOracleTicker.multicallResults Scenario.novaContext) 3
     = Some Scenario.outdated
  /\ XchainOracleTicker.stale Scenario.novaContext Scenario.outdated = true
  /\ XchainOracleTicker.onRun Scenario.novaContext
     = ([], Ok (XchainOracleTicker.NoExec "Pot data refresh not needed")).
Proof. repeat split. Qed.

(** A skipped consumer does not use up its multicall result: the consumer
    after it is judged by the result of the skipped one. *)
Example skipped_consumer_shifts_results :
  XchainOracleTicker.stale Scenario.shiftedContext Scenario.fresh = false
  /\ result (XchainOracleTicker.onRun Scenario.shiftedContext)
     = Ok (XchainOracleTicker.Exec
             [{| XchainOracleTicker.to := "0xArbitrumForwarder";
                 XchainOracleTicker.data :=
                   XchainOracleTicker.RefreshArbitrum 800000 1 36 |}]).
Proof. split; reflexivity. Qed.

Lemma In_by_computation (xs : list string) (x : string) :
  Js.includes xs x = true -> In x xs.
Proof. apply includes_In. Qed.

Lemma not_In_by_computation (xs : list string) (x : string) :
  Js.includes xs x = false -> ~ In x xs.
Proof. intros H Hin. apply includes_In in Hin. now rewrite Hin in H. Qed.



(* ================================================================== *)
(** * Further properties of the reconciler *)
(* ================================================================== *)

Lemma trace_bind {A B} (m : M A) (f : A -> M B) :
  trace (bind m f)
  = (trace m ++ match result m with
                | Ok a => trace (f a)
                | Throw _ => []
                end)%list.
Proof.
  destruct m as [t [a | msg]]; cbn [bind trace result fst snd].
  - now destruct (f a).
  - now rewrite app_nil_r.
Qed.

Lemma result_bind {A B} (m : M A) (f : A -> M B) :
  result (bind m f)
  = match result m with
    | Ok a => result (f a)
    | Throw msg => Throw msg
    end.
Proof.
  destruct m as [t [a | msg]]; cbn [bind trace result fst snd]; [| reflexivity].
  now destruct (f a).
Qed.

Lemma for_each_trace_In {A S} (body : A -> S -> M S) (e : Event) (xs : list A) :
  forall s, In e (trace (for_each body xs s)) ->
  exists x s0, In x xs /\ In e (trace (body x s0)).
Proof.
  induction xs as [| x xs IH]; intros s H; [contradiction |].
  cbn [for_each] in H. rewrite trace_bind in H.
  apply in_app_or in H as [H | H].
  - exists x, s. split; [now left | assumption].
  - destruct (result (body x s)) as [s1 |]; [| contradiction].
    destruct (IH s1 H) as (x' & s0 & Hx & He). exists x', s0.
    split; [now right | assumption].
Qed.

Section RunShape.

Import Deploy DeployRun.

Variable w : World.

(** The trace of one config: nothing (it threw at once), one log line (it
    was skipped or matched), or the steps of a deployment. *)
Lemma config_trace (ipfs : string) (cf : ConfigFile) (o : Js.obj TaskRef) :
  trace (processConfig w ipfs cf o) = []
  \/ (exists line, trace (processConfig w ipfs cf o) = [Log line])
  \/ exists config tc resolved,
       parsed cf = Some config /\ eligible cf = true
       /\ Js.get o (deploymentName cf ipfs) = None
       /\ createTriggerConfig w (trigger config) = Ok tc
       /\ resolveSecrets w (secrets config) [] = Ok resolved
       /\ trace (processConfig w ipfs cf o)
          = deploymentSteps w ipfs cf config tc resolved.
Proof.
  unfold processConfig, eligible, deploymentSteps.
  destruct (parsed cf) as [config |]; [| now left].
  destruct (Js.includes domains (domain config)); cbn [negb andb];
    [| right; left; now eexists].
  destruct (Js.includes triggerTypeNames (trigger_type (trigger config)));
    cbn [negb]; [| right; left; now eexists].
  destruct (Js.get o (deploymentName cf ipfs)); [right; left; now eexists |].
  destruct (createTriggerConfig w (trigger config)) as [tc |] eqn:Htc;
    [| now left].
  destruct (resolveSecrets w (secrets config) []) as [resolved |] eqn:Hsec;
    [| now left].
  right. right. exists config, tc, resolved.
  do 3 (split; [reflexivity |]). split; [exact Htc |]. split; [exact Hsec |].
  unfold sdk, lift, bind, emit, ret, throw.
  repeat match goal with
         | |- context [rejects w ?e] => destruct (rejects w e)
         end; reflexivity.
Qed.

(** The trace of the loop over the keeper types holds log lines and the
    events of configs. *)
Lemma keepers_trace_In (e : Event) (ks : list string) (o : Js.obj TaskRef) :
  In e (trace (for_each (processKeeper w) ks o)) ->
  (exists line, e = Log line)
  \/ exists k ipfs cf o0,
       In k ks /\ Js.includes (w3fConfigs w) k = true
       /\ Js.get (ipfsDeployments w) k = Some ipfs /\ ipfs <> ""
       /\ In cf (configFiles w k)
       /\ In e (trace (processConfig w ipfs cf o0)).
Proof.
  intros H. apply for_each_trace_In in H as (k & o1 & Hk & H).
  unfold processKeeper in H.
  destruct (Js.includes (w3fConfigs w) k) eqn:Hc; cbn [negb] in H.
  2:{ left. destruct H as [<- | []]. now eexists. }
  destruct (Js.get (ipfsDeployments w) k) as [ipfs |] eqn:Hi.
  2:{ left. destruct H as [<- | []]. now eexists. }
  cbn [Js.truthy] in H. destruct (String.eqb ipfs "") eqn:He; cbn [negb] in H.
  { left. destruct H as [<- | []]. now eexists. }
  destruct (configFiles w k) as [| cf0 files] eqn:Hf.
  { left. destruct H as [<- | []]. now eexists. }
  rewrite bind_emit in H. cbn [trace fst] in H. destruct H as [<- | H].
  { left. now eexists. }
  apply for_each_trace_In in H as (cf & o0 & Hcf & H).
  right. exists k, ipfs, cf, o0. apply String.eqb_neq in He.
  rewrite Hf. repeat split; assumption.
Qed.

Lemma loadOldTasks_trace_In (e : Event) :
  In e (trace (loadOldTasks w)) -> exists d, e = GetActiveTasks d.
Proof.
  unfold loadOldTasks, domains, sdk. cbn [for_each].
  destruct (rejects w (GetActiveTasks "mainnet"));
    [| destruct (rejects w (GetActiveTasks "gnosis"))]; cbn;
    intros H; repeat (destruct H as [<- | H]; [now eexists |]); contradiction.
Qed.

Lemma cancel_trace_In (e : Event) (entries : Js.obj TaskRef) :
  In e (trace (for_each (cancelTask w) entries tt)) ->
  exists n ref, In (n, ref) entries
    /\ (e = Log ("Cancelling task " ++ n)
        \/ e = CancelTask (refDomain ref) (refTaskId ref)
        \/ e = TxWait (refTaskId ref)).
Proof.
  intros H. apply for_each_trace_In in H as ([n ref] & [] & Hin & H).
  exists n, ref. split; [assumption |].
  unfold cancelTask, sdk, bind, emit, ret, throw in H. cbn [fst snd] in H.
  repeat match type of H with
         | context [rejects w ?e] => destruct (rejects w e)
         end; cbn in H;
    repeat (destruct H as [<- | H]; [tauto |]); contradiction.
Qed.

(** The trace of a run, part by part. *)
Lemma reconcile_trace :
  trace (reconcile w)
  = (trace (loadOldTasks w)
     ++ match result (loadOldTasks w) with
        | Throw _ => []
        | Ok o =>
            trace (for_each (processKeeper w) (w3fNames w) o)
            ++ match result (for_each (processKeeper w) (w3fNames w) o) with
               | Throw _ => []
               | Ok remaining => trace (for_each (cancelTask w) remaining tt)
               end
        end)%list.
Proof.
  unfold reconcile. rewrite trace_bind.
  destruct (result (loadOldTasks w)); [| reflexivity]. now rewrite trace_bind.
Qed.

End RunShape.

Section MoreDictionaries.

Context {V : Type}.
Implicit Types (o : Js.obj V) (k n : string) (v : V).

Lemma in_delete o k n v :
  In (n, v) (Js.delete o k) -> In (n, v) o /\ n <> k.
Proof.
  induction o as [| [k' v'] o IH]; simpl; [tauto |].
  destruct (String.eqb k' k) eqn:E.
  - intros H. apply IH in H. tauto.
  - apply String.eqb_neq in E. intros [[= <- <-] | H]; [tauto |].
    apply IH in H. tauto.
Qed.

Lemma in_get o n v : In (n, v) o -> Js.get o n <> None.
Proof.
  induction o as [| [k' v'] o IH]; simpl; [tauto |].
  intros [[= -> ->] | H].
  - now rewrite String.eqb_refl.
  - destruct (String.eqb k' n); [discriminate | auto].
Qed.

Lemma in_assign o k v n v' :
  In (n, v') (Js.assign o k v) ->
  In (n, v') o \/ (n = k /\ v' = v /\ k <> "__proto__").
Proof.
  unfold Js.assign. destruct (String.eqb k "__proto__") eqn:E; [tauto |].
  apply String.eqb_neq in E. intros H. apply in_set in H. tauto.
Qed.

Lemma keys_set_old o k v :
  Js.get o k <> None -> Js.keys (Js.set o k v) = Js.keys o.
Proof.
  induction o as [| [k' v'] o IH]; simpl; [tauto |].
  destruct (String.eqb k' k) eqn:E; simpl; [reflexivity |].
  intros H. now rewrite IH.
Qed.

Lemma keys_assign_NoDup o k v :
  NoDup (Js.keys o) -> NoDup (Js.keys (Js.assign o k v)).
Proof.
  intros H. unfold Js.assign. destruct (String.eqb k "__proto__"); [assumption |].
  destruct (Js.get o k) eqn:Hg.
  - rewrite keys_set_old; [assumption | now rewrite Hg].
  - rewrite keys_set_new by assumption.
    apply NoDup_app; [assumption | repeat constructor; intros [] |].
    intros a Ha [<- | []]. now apply get_None_keys in Hg.
Qed.

Lemma keys_get o n : In n (Js.keys o) <-> Js.get o n <> None.
Proof.
  split.
  - intros H Hn. now apply get_None_keys in Hn.
  - intros H. destruct (in_dec string_dec n (Js.keys o)) as [Hin | Hnot];
      [assumption |]. now apply get_None_keys in Hnot.
Qed.

End MoreDictionaries.

Section FinalPass.

Import Deploy DeployRun.

Variable w : World.

(** The working set only loses entries during the loops, and it has lost
    the name of every eligible config it went through. *)
Lemma configs_loop_sub (ipfs : string) (files : list ConfigFile) :
  forall (o o' : Js.obj TaskRef) (t : list Event),
  for_each (processConfig w ipfs) files o = (t, Ok o') ->
  (forall n ref, In (n, ref) o' -> In (n, ref) o)
  /\ (forall cf, In cf files -> eligible cf = true ->
        Js.get o' (deploymentName cf ipfs) = None).
Proof.
  induction files as [| cf files IH]; intros o o' t H.
  - injection H as <- <-. split; [auto | intros cf []].
  - apply for_each_ok in H as (t1 & o1 & t2 & Hstep & Hrest & ->).
    destruct (configs_loop_ok w ipfs files o1 o' t2 Hrest) as (Hnone & _ & _).
    destruct (IH o1 o' t2 Hrest) as (I1 & I2).
    pose proof (config_step_ok w ipfs cf o o1 t1 Hstep) as [Hform _]. split.
    + intros n ref Hin. apply I1 in Hin.
      destruct Hform as [-> | [-> _]]; [assumption |].
      now apply in_delete in Hin.
    + intros cf' [<- | Hcf'] He; [| now apply I2].
      apply Hnone.
      destruct (Js.get o (deploymentName cf ipfs)) as [ref |] eqn:Hg.
      * rewrite (matched_step w ipfs cf o ref He Hg) in Hstep.
        injection Hstep as _ <-. now rewrite get_delete, String.eqb_refl.
      * destruct Hform as [-> | [-> _]]; [assumption |].
        now rewrite get_delete, String.eqb_refl.
Qed.

Lemma keepers_loop_sub (ks : list string) :
  forall (o o' : Js.obj TaskRef) (t : list Event),
  for_each (processKeeper w) ks o = (t, Ok o') ->
  (forall n ref, In (n, ref) o' -> In (n, ref) o)
  /\ (forall n, In n (flat_map (keeperNames w) ks) -> Js.get o' n = None).
Proof.
  induction ks as [| k ks IH]; intros o o' t H.
  - injection H as <- <-. split; [auto | intros n []].
  - apply for_each_ok in H as (t1 & o1 & t2 & Hstep & Hrest & ->).
    destruct (keepers_loop_ok w ks o1 o' t2 Hrest) as (Hnone & _ & _).
    destruct (IH o1 o' t2 Hrest) as (I1 & I2).
    assert (Hk : (forall n ref, In (n, ref) o1 -> In (n, ref) o)
                 /\ (forall n, In n (keeperNames w k) -> Js.get o1 n = None)).
    { clear - Hstep. unfold processKeeper, keeperNames in *.
      destruct (Js.includes (w3fConfigs w) k); cbn [negb andb] in *.
      2:{ injection Hstep as <- <-. split; [auto | intros n []]. }
      destruct (Js.get (ipfsDeployments w) k) as [ipfs |].
      2:{ injection Hstep as <- <-. split; [auto | intros n []]. }
      cbn [Js.truthy] in *. destruct (String.eqb ipfs ""); cbn [negb] in *.
      { injection Hstep as <- <-. split; [auto | intros n []]. }
      destruct (configFiles w k) as [| cf0 files].
      { injection Hstep as <- <-. split; [auto | intros n []]. }
      destruct (for_each (processConfig w ipfs) (cf0 :: files) o)
        as [t' r'] eqn:Hloop.
      rewrite bind_emit in Hstep. cbn [trace result fst snd] in Hstep.
      injection Hstep as _ ->.
      destruct (configs_loop_sub ipfs (cf0 :: files) o o1 t' Hloop) as [C1 C2].
      split; [exact C1 |]. intros n Hn.
      apply in_map_iff in Hn as (cf & <- & Hcf). apply filter_In in Hcf as [Hcf He].
      now apply C2. }
    destruct Hk as [K1 K2]. split.
    + intros n ref Hin. auto.
    + intros n Hn. cbn [flat_map] in Hn. apply in_app_or in Hn as [Hn | Hn];
        [apply Hnone; now apply K2 | now apply I2].
Qed.

Lemma indexTasks_In (d : string) (tasks : list Task) :
  forall (o : Js.obj TaskRef) n ref,
  In (n, ref) (indexTasks d tasks o) ->
  In (n, ref) o
  \/ exists task, In task tasks /\ taskName task = n
                  /\ ref = {| refTaskId := taskId task; refDomain := d |}.
Proof.
  unfold indexTasks. induction tasks as [| task tasks IH]; intros o n ref H.
  - now left.
  - cbn [fold_left] in H. apply IH in H as [H | (task' & Hin & Hn & Href)].
    + apply in_assign in H as [H | (-> & -> & _)]; [now left |].
      right. exists task. repeat split. now left.
    + right. exists task'. repeat split; [now right | assumption | assumption].
Qed.

Lemma loadOldTasks_In (o : Js.obj TaskRef) n ref :
  result (loadOldTasks w) = Ok o -> In (n, ref) o ->
  exists d task, In d domains /\ In task (activeTasks w d)
                 /\ taskName task = n
                 /\ ref = {| refTaskId := taskId task; refDomain := d |}.
Proof.
  unfold loadOldTasks, domains, sdk. cbn [for_each].
  destruct (rejects w (GetActiveTasks "mainnet")); [discriminate |].
  destruct (rejects w (GetActiveTasks "gnosis")); [discriminate |].
  cbn. intros [= <-] Hin.
  apply indexTasks_In in Hin as [Hin | (task & Hin & Hn & Href)].
  - apply indexTasks_In in Hin as [[] | (task & Hin & Hn & Href)].
    exists "mainnet", task. split; [now left | auto].
  - exists "gnosis", task. split; [right; now left | auto].
Qed.

End FinalPass.

Section RunFacts.

Import Deploy DeployRun.

Variable w : World.

Lemma steps_no_cancel ipfs cf config tc resolved (e : Event) :
  In e (deploymentSteps w ipfs cf config tc resolved) -> is_cancel e = false.
Proof.
  unfold deploymentSteps.
  repeat match goal with
         | |- context [rejects w ?x] => destruct (rejects w x)
         end; cbn; intros H;
    repeat (destruct H as [<- | H]; [reflexivity |]); contradiction.
Qed.

Lemma config_no_cancel ipfs cf o (e : Event) :
  In e (trace (processConfig w ipfs cf o)) -> is_cancel e = false.
Proof.
  destruct (config_trace w ipfs cf o)
    as [-> | [[line ->] | (config & tc & resolved & _ & _ & _ & _ & _ & ->)]].
  - intros [].
  - intros [<- | []]. reflexivity.
  - apply steps_no_cancel.
Qed.

Lemma keepers_no_cancel (ks : list string) (o : Js.obj TaskRef) (e : Event) :
  In e (trace (for_each (processKeeper w) ks o)) -> is_cancel e = false.
Proof.
  intros H. apply keepers_trace_In in H
    as [[line ->] | (k & ipfs & cf & o0 & _ & _ & _ & _ & _ & H)];
    [reflexivity | now apply config_no_cancel in H].
Qed.

Lemma before_final_pass_no_cancel (e : Event) :
  In e (trace (loadOldTasks w)
        ++ match result (loadOldTasks w) with
           | Throw _ => []
           | Ok o => trace (for_each (processKeeper w) (w3fNames w) o)
           end) ->
  is_cancel e = false.
Proof.
  intros H. apply in_app_or in H as [H | H].
  - apply loadOldTasks_trace_In in H as [d ->]. reflexivity.
  - destruct (result (loadOldTasks w)); [| contradiction].
    now apply keepers_no_cancel in H.
Qed.

End RunFacts.

(** X1. Whatever the run, a cancel call goes to a task that the listing of
    its domain returned and whose name no eligible local config derives. *)
Theorem cancels_only_unclaimed_tasks (w : Deploy.World) (d id : string) :
  In (CancelTask d id) (trace (Deploy.reconcile w)) ->
  exists task,
    In d Deploy.domains /\ In task (Deploy.activeTasks w d)
    /\ Deploy.taskId task = id
    /\ ~ In (Deploy.taskName task) (Deploy.derivedNames w).
Proof.
  rewrite reconcile_trace. intros H.
  destruct (result (Deploy.loadOldTasks w)) as [o |] eqn:Hload.
  2:{ rewrite app_nil_r in H. apply loadOldTasks_trace_In in H as [d' H].
      discriminate H. }
  apply in_app_or in H as [H | H].
  { apply loadOldTasks_trace_In in H as [d' H]. discriminate H. }
  apply in_app_or in H as [H | H].
  { apply keepers_no_cancel in H. discriminate H. }
  destruct (for_each (Deploy.processKeeper w) (Deploy.w3fNames w) o)
    as [t1 [rem | msg]] eqn:Hloop; cbn [result snd] in H; [| contradiction].
  apply cancel_trace_In in H as (n & ref & Hin & [H | [H | H]]);
    try discriminate H.
  injection H as -> ->.
  destruct (keepers_loop_sub w (Deploy.w3fNames w) o rem t1 Hloop) as [Hsub Hgone].
  destruct (loadOldTasks_In w o n ref Hload (Hsub n ref Hin))
    as (d & task & Hd & Htask & Hname & ->).
  exists task. cbn [Deploy.refDomain Deploy.refTaskId].
  repeat split; try assumption.
  rewrite Hname. intros Hder. apply (in_get rem n _ Hin). now apply Hgone.
Qed.

(** In a run that completes, an entry of the initial working set whose
    name no eligible config derives is still there at the final pass, and
    its task gets the cancel call. *)
Lemma completed_run_cancels (w : Deploy.World) (o : Js.obj Deploy.TaskRef)
    (n : string) (ref : Deploy.TaskRef) :
  result (Deploy.reconcile w) = Ok tt ->
  result (Deploy.loadOldTasks w) = Ok o ->
  Js.get o n = Some ref ->
  ~ In n (Deploy.derivedNames w) ->
  In (CancelTask (Deploy.refDomain ref) (Deploy.refTaskId ref))
     (trace (Deploy.reconcile w)).
Proof.
  intros Hrun Hload0 Hg Hder.
  destruct (Deploy.reconcile w) as [t r] eqn:Hrec. cbn [trace result fst snd] in *.
  subst r. unfold Deploy.reconcile in Hrec.
  apply bind_ok in Hrec as (t0 & o' & t12 & Hload & Hrec & ->).
  rewrite Hload in Hload0. cbn [result snd] in Hload0. injection Hload0 as ->.
  apply bind_ok in Hrec as (t1 & rem & t2 & Hloop & Hcancel & ->).
  destruct (keepers_loop_ok w (Deploy.w3fNames w) o rem t1 Hloop) as (_ & K2 & _).
  apply in_or_app. right. apply in_or_app. right.
  apply (cancel_loop_ok w rem t2 Hcancel n ref).
  apply get_in. now apply K2.
Qed.

(** X2. In a run that completes, every active name that no eligible local
    config derives is cancelled: the task of that name listed last gets
    the call. *)
Theorem unclaimed_names_are_cancelled (w : Deploy.World) (n : string) :
  result (Deploy.reconcile w) = Ok tt ->
  In n (Deploy.activeNames w) -> n <> "__proto__" ->
  ~ In n (Deploy.derivedNames w) ->
  exists d task,
    In d Deploy.domains /\ In task (Deploy.activeTasks w d)
    /\ Deploy.taskName task = n
    /\ In (CancelTask d (Deploy.taskId task)) (trace (Deploy.reconcile w)).
Proof.
  intros Hrun Hact Hproto Hder.
  destruct (result (Deploy.loadOldTasks w)) as [o | msg] eqn:Hload.
  2:{ unfold Deploy.reconcile in Hrun. rewrite result_bind, Hload in Hrun.
      discriminate Hrun. }
  destruct (loadOldTasks_spec w) as (_ & L & _).
  destruct (L o Hload) as [Lget Lhas].
  destruct (Js.get o n) as [ref |] eqn:Hg; [| now apply Lhas in Hg].
  destruct (Lget _ _ Hg) as (d & task & Hd & Htask & Hname & Href).
  exists d, task. repeat split; try assumption.
  pose proof (completed_run_cancels w o n ref Hrun Hload Hg Hder) as Hc.
  now rewrite Href in Hc.
Qed.

(** X3. Cancellations come last: the trace of a run splits into a part
    without any cancel call, followed by a part that holds nothing but the
    log lines, cancel calls and waits of the final pass; no task is created
    and no secret is set once a cancellation has been issued. *)
Theorem creations_precede_cancellations (w : Deploy.World) :
  exists pre post,
    trace (Deploy.reconcile w) = (pre ++ post)%list
    /\ (forall e, In e pre -> is_cancel e = false)
    /\ (forall e, In e post -> DeployRun.is_final_pass_step e = true).
Proof.
  rewrite reconcile_trace.
  exists (trace (Deploy.loadOldTasks w)
          ++ match result (Deploy.loadOldTasks w) with
             | Throw _ => []
             | Ok o => trace (for_each (Deploy.processKeeper w) (Deploy.w3fNames w) o)
             end)%list,
         (match result (Deploy.loadOldTasks w) with
          | Throw _ => []
          | Ok o =>
              match result (for_each (Deploy.processKeeper w) (Deploy.w3fNames w) o) with
              | Throw _ => []
              | Ok remaining => trace (for_each (Deploy.cancelTask w) remaining tt)
              end
          end).
  split; [| split].
  - destruct (result (Deploy.loadOldTasks w)); [| now rewrite !app_nil_r].
    now rewrite app_assoc.
  - apply before_final_pass_no_cancel.
  - intros e H. destruct (result (Deploy.loadOldTasks w)); [| contradiction].
    destruct (result (for_each _ _ _)); [| contradiction].
    apply cancel_trace_In in H as (n & ref & _ & [-> | [-> | ->]]); reflexivity.
Qed.

(** X4. A run that does not get to the final pass, because a listing or
    a config threw, ends with that exception and cancels nothing. *)
Theorem aborted_run_cancels_nothing (w : Deploy.World) :
  ~ DeployRun.reaches_final_pass w ->
  (exists msg, result (Deploy.reconcile w) = Throw msg)
  /\ count_events is_cancel (trace (Deploy.reconcile w)) = 0.
Proof.
  intros Hnot.
  assert (Hshape :
    (exists msg, result (Deploy.reconcile w) = Throw msg)
    /\ forall e, In e (trace (Deploy.reconcile w)) -> is_cancel e = false).
  { rewrite reconcile_trace. unfold Deploy.reconcile. rewrite result_bind.
    destruct (result (Deploy.loadOldTasks w)) as [o | msg] eqn:Hload.
    - rewrite result_bind.
      destruct (result (for_each (Deploy.processKeeper w) (Deploy.w3fNames w) o))
        as [rem | msg] eqn:Hloop.
      + exfalso. apply Hnot. now exists o, rem.
      + split; [now eexists |]. intros e H. rewrite app_nil_r in H.
        pose proof (before_final_pass_no_cancel w e) as Hpre.
        rewrite Hload in Hpre. now apply Hpre.
    - split; [now eexists |]. intros e H. rewrite app_nil_r in H.
      apply loadOldTasks_trace_In in H as [d ->]. reflexivity. }
  destruct Hshape as [Hthrow Hno]. split; [assumption |].
  unfold count_events. rewrite filter_nothing; [reflexivity | assumption].
Qed.

Lemma for_each_trace_split {A S} (body : A -> S -> M S) (e : Event) (xs : list A) :
  forall s, In e (trace (for_each body xs s)) ->
  exists x s0 pre post,
    In x xs /\ In e (trace (body x s0))
    /\ trace (for_each body xs s) = (pre ++ trace (body x s0) ++ post)%list.
Proof.
  induction xs as [| x xs IH]; intros s H; [contradiction |].
  cbn [for_each] in *. rewrite trace_bind in *.
  apply in_app_or in H as [H | H].
  - exists x, s, [], (match result (body x s) with
                      | Ok a => trace (for_each body xs a)
                      | Throw _ => []
                      end).
    split; [now left |]. split; [assumption | reflexivity].
  - destruct (result (body x s)) as [s1 |]; [| contradiction].
    destruct (IH s1 H) as (x' & s0 & pre & post & Hx & He & Heq).
    exists x', s0, (trace (body x s) ++ pre)%list, post.
    split; [now right |]. split; [assumption |].
    now rewrite Heq, app_assoc.
Qed.

Section Segments.

Import Deploy DeployRun.

Variable w : World.

(** The trace of one keeper type: one log line when it is passed over,
    else the announcement and the traces of its configs. *)
Lemma keeper_trace (k : string) (o : Js.obj TaskRef) :
  (exists line, trace (processKeeper w k o) = [Log line])
  \/ exists ipfs,
       Js.includes (w3fConfigs w) k = true
       /\ Js.get (ipfsDeployments w) k = Some ipfs /\ ipfs <> ""
       /\ trace (processKeeper w k o)
          = Log ("Deploying " ++ k)
            :: trace (for_each (processConfig w ipfs) (configFiles w k) o).
Proof.
  unfold processKeeper.
  destruct (Js.includes (w3fConfigs w) k); cbn [negb]; [| left; now eexists].
  destruct (Js.get (ipfsDeployments w) k) as [ipfs |]; [| left; now eexists].
  cbn [Js.truthy]. destruct (String.eqb ipfs "") eqn:Hem; cbn [negb];
    [left; now eexists |].
  destruct (configFiles w k) as [| cf0 files]; [left; now eexists |].
  right. exists ipfs. apply String.eqb_neq in Hem. rewrite bind_emit. auto.
Qed.

(** A deploying call of a run sits in the steps of one new, eligible
    config of a processed keeper, and these steps are a segment of the
    trace. *)
Lemma deploy_call_segment (e : Event) :
  is_deploy_call e = true ->
  In e (trace (reconcile w)) ->
  exists k ipfs cf config tc resolved pre post,
    In k (w3fNames w) /\ Js.includes (w3fConfigs w) k = true
    /\ Js.get (ipfsDeployments w) k = Some ipfs /\ ipfs <> ""
    /\ In cf (configFiles w k) /\ parsed cf = Some config
    /\ eligible cf = true
    /\ createTriggerConfig w (trigger config) = Ok tc
    /\ resolveSecrets w (secrets config) [] = Ok resolved
    /\ In e (deploymentSteps w ipfs cf config tc resolved)
    /\ trace (reconcile w)
       = (pre ++ deploymentSteps w ipfs cf config tc resolved ++ post)%list.
Proof.
  intros He H. rewrite reconcile_trace in *.
  apply in_app_or in H as [H | H].
  { apply loadOldTasks_trace_In in H as [d ->]. discriminate He. }
  destruct (result (loadOldTasks w)) as [o |]; [| contradiction].
  apply in_app_or in H as [H | H].
  2:{ destruct (result (for_each _ _ _)); [| contradiction].
      apply cancel_trace_In in H as (n & ref & _ & [-> | [-> | ->]]);
        discriminate He. }
  apply for_each_trace_split in H as (k & o1 & pre1 & post1 & Hk & H & Heq1).
  rewrite Heq1. clear Heq1.
  destruct (keeper_trace k o1) as [[line E] | (ipfs & Hc & Hi & Hne & E)];
    rewrite E in *.
  { destruct H as [<- | []]. discriminate He. }
  destruct H as [<- | H]; [discriminate He |].
  apply for_each_trace_split in H as (cf & o0 & pre2 & post2 & Hcf & H & Heq2).
  rewrite Heq2. clear Heq2 E.
  destruct (config_trace w ipfs cf o0)
    as [E | [[line E] | (config & tc & resolved & Hp & Hel & _ & Htc & Hsec & E)]];
    rewrite E in *.
  - contradiction.
  - destruct H as [<- | []]. discriminate He.
  - exists k, ipfs, cf, config, tc, resolved.
    exists (trace (loadOldTasks w) ++ pre1
            ++ Log ("Deploying " ++ k) :: pre2)%list.
    eexists. repeat (split; [assumption |]).
    rewrite <- !app_assoc. cbn [app]. rewrite <- !app_assoc. reflexivity.
Qed.

End Segments.


(** X6. Secrets are only ever set on a task the same run has just created:
    the call comes right after the create call that returned its task id
    and the wait for that transaction, both of which went through. *)
Theorem secrets_follow_their_creation (w : Deploy.World) (d : string)
    (resolved : Js.obj string) (id : string) :
  In (SecretsSet d resolved id) (trace (Deploy.reconcile w)) ->
  exists name hash args tc pre post,
    trace (Deploy.reconcile w)
    = (pre ++ CreateBatchExecTask d name hash args tc
           :: TxWait id :: SecretsSet d resolved id :: post)%list
    /\ id = Deploy.createdTaskId w (CreateBatchExecTask d name hash args tc)
    /\ Deploy.rejects w (CreateBatchExecTask d name hash args tc) = false
    /\ Deploy.rejects w (TxWait id) = false.
Proof.
  intros H.
  apply (deploy_call_segment w (SecretsSet d resolved id) eq_refl) in H
    as (k & ipfs & cf & config & tc & resolved' & pre & post
        & _ & _ & _ & _ & _ & _ & _ & _ & _ & Hin & Heq).
  unfold DeployRun.deploymentSteps in Hin, Heq.
  destruct (Deploy.rejects w
              (CreateBatchExecTask (Deploy.domain config)
                 (Deploy.deploymentName cf ipfs) ipfs (Deploy.args config) tc))
    eqn:R1.
  { cbn in Hin. repeat (destruct Hin as [Hin | Hin]; [discriminate Hin |]).
    contradiction. }
  destruct (Deploy.rejects w
              (TxWait (Deploy.createdTaskId w
                 (CreateBatchExecTask (Deploy.domain config)
                    (Deploy.deploymentName cf ipfs) ipfs (Deploy.args config) tc))))
    eqn:R2.
  { cbn in Hin. repeat (destruct Hin as [Hin | Hin]; [discriminate Hin |]).
    contradiction. }
  cbn [app] in Hin.
  do 4 (destruct Hin as [Hin | Hin]; [discriminate Hin |]).
  destruct Hin as [Hin | []]. injection Hin as <- <- <-.
  exists (Deploy.deploymentName cf ipfs), ipfs, (Deploy.args config), tc.
  exists (pre ++ [Log ("Deploying " ++ Deploy.deploymentName cf ipfs); Pause])%list,
         post.
  split; [| split; [reflexivity | split; assumption]].
  rewrite Heq. rewrite <- !app_assoc. reflexivity.
Qed.

Section Secrets.

Import Deploy.

Variable w : World.



End Secrets.


(** ** The working set, name by name *)

Section LastListed.

Import Deploy DeployRun.

Lemma get_app {V} (a b : Js.obj V) (n : string) :
  Js.get (a ++ b)%list n
  = match Js.get a n with
    | Some v => Some v
    | None => Js.get b n
    end.
Proof.
  induction a as [| [k v] a IH]; simpl; [reflexivity |].
  now destruct (String.eqb k n).
Qed.

Lemma NoDup_in_get {V} (o : Js.obj V) (n : string) (v : V) :
  NoDup (Js.keys o) -> In (n, v) o -> Js.get o n = Some v.
Proof.
  induction o as [| [k v'] o IH]; simpl; [tauto |].
  intros Hnd [[= -> ->] | Hin]; [now rewrite String.eqb_refl |].
  inversion Hnd as [| ? ? Hnot Hnd']; subst.
  destruct (String.eqb k n) eqn:E; [| now apply IH].
  apply String.eqb_eq in E; subst k. exfalso. apply Hnot.
  unfold Js.keys. apply in_map_iff. now exists (n, v).
Qed.

Let entry (d : string) (task : Task) : string * TaskRef :=
  (taskName task, {| refTaskId := taskId task; refDomain := d |}).

Lemma indexTasks_last (d : string) (tasks : list Task) :
  forall (o : Js.obj TaskRef) (n : string),
  n <> "__proto__" ->
  Js.get (indexTasks d tasks o) n
  = match Js.get (rev (map (entry d) tasks)) n with
    | Some ref => Some ref
    | None => Js.get o n
    end.
Proof.
  induction tasks as [| task tasks IH]; intros o n Hn; [reflexivity |].
  change (indexTasks d (task :: tasks) o)
    with (indexTasks d tasks
            (Js.assign o (taskName task)
               {| refTaskId := taskId task; refDomain := d |})).
  rewrite (IH _ n Hn). cbn [map rev]. rewrite get_app, get_assign.
  destruct (Js.get (rev (map (entry d) tasks)) n); [reflexivity |].
  cbn [Js.get entry fst snd].
  destruct (String.eqb (taskName task) n) eqn:En.
  - apply String.eqb_eq in En. apply String.eqb_neq in Hn.
    now rewrite En, Hn.
  - now destruct (String.eqb (taskName task) "__proto__").
Qed.

Lemma indexTasks_keys (d : string) (tasks : list Task) :
  forall (o : Js.obj TaskRef),
  NoDup (Js.keys o) -> ~ In "__proto__" (Js.keys o) ->
  NoDup (Js.keys (indexTasks d tasks o))
  /\ ~ In "__proto__" (Js.keys (indexTasks d tasks o)).
Proof.
  unfold indexTasks.
  induction tasks as [| task tasks IH]; intros o Hnd Hp; [now split |].
  cbn [fold_left]. apply IH.
  - now apply keys_assign_NoDup.
  - intros Hin. apply in_map_iff in Hin as ([k ref] & Hk & Hin).
    cbn [fst] in Hk. subst k.
    apply in_assign in Hin as [Hin | (Hk & _ & Hne)].
    + apply Hp. apply in_map_iff. now exists ("__proto__", ref).
    + now apply Hne.
Qed.

Variable w : World.

Lemma loadOldTasks_keys (o : Js.obj TaskRef) :
  result (loadOldTasks w) = Ok o ->
  NoDup (Js.keys o) /\ ~ In "__proto__" (Js.keys o).
Proof.
  unfold loadOldTasks, domains, sdk. cbn [for_each].
  destruct (rejects w (GetActiveTasks "mainnet")); [discriminate |].
  destruct (rejects w (GetActiveTasks "gnosis")); [discriminate |].
  cbn. intros [= <-].
  destruct (indexTasks_keys "mainnet" (activeTasks w "mainnet") [])
    as [N1 P1]; [constructor | intros [] |].
  exact (indexTasks_keys "gnosis" (activeTasks w "gnosis") _ N1 P1).
Qed.

Lemma loadOldTasks_get (o : Js.obj TaskRef) (n : string) :
  result (loadOldTasks w) = Ok o -> n <> "__proto__" ->
  Js.get o n
  = match Js.get (rev (map (entry "gnosis") (activeTasks w "gnosis"))) n with
    | Some ref => Some ref
    | None => Js.get (rev (map (entry "mainnet") (activeTasks w "mainnet"))) n
    end.
Proof.
  unfold loadOldTasks, domains, sdk. cbn [for_each].
  destruct (rejects w (GetActiveTasks "mainnet")); [discriminate |].
  destruct (rejects w (GetActiveTasks "gnosis")); [discriminate |].
  cbn. intros [= <-] Hn. rewrite !indexTasks_last by assumption.
  destruct (Js.get (rev (map (entry "gnosis") (activeTasks w "gnosis"))) n);
    [reflexivity |].
  now destruct (Js.get (rev (map (entry "mainnet") (activeTasks w "mainnet"))) n).
Qed.

Lemma last_listed_domains (n : string) :
  last_listed n (listing w)
  = match Js.get (rev (map (entry "gnosis") (activeTasks w "gnosis"))) n with
    | Some ref => Some ref
    | None => Js.get (rev (map (entry "mainnet") (activeTasks w "mainnet"))) n
    end.
Proof.
  unfold last_listed, listing, domains. cbn [flat_map].
  now rewrite app_nil_r, rev_app_distr, get_app.
Qed.

End LastListed.

(** X8. The working set built from the two listings has one entry per
    active task name, never one for [__proto__], and the entry of a name is
    the task listed last under it: on gnosis if gnosis has one, else the
    last one on mainnet. *)
Theorem working_set_keeps_last_listing (w : Deploy.World)
    (o : Js.obj Deploy.TaskRef) :
  result (Deploy.loadOldTasks w) = Ok o ->
  NoDup (Js.keys o)
  /\ ~ In "__proto__" (Js.keys o)
  /\ forall n, n <> "__proto__" ->
       Js.get o n = DeployRun.last_listed n (DeployRun.listing w).
Proof.
  intros Hload. destruct (loadOldTasks_keys w o Hload) as [Hnd Hproto].
  split; [exact Hnd |]. split; [exact Hproto |].
  intros n Hn. rewrite last_listed_domains.
  now apply loadOldTasks_get.
Qed.

(** X9. A cancel call goes to the task listed last under its name: of
    several active tasks that share a name, the earlier ones are not in
    the working set, and no run cancels them on account of that name. *)
Theorem cancel_goes_to_last_listed (w : Deploy.World) (d id : string) :
  In (CancelTask d id) (trace (Deploy.reconcile w)) ->
  exists n,
    n <> "__proto__"
    /\ DeployRun.last_listed n (DeployRun.listing w)
       = Some {| Deploy.refTaskId := id; Deploy.refDomain := d |}.
Proof.
  rewrite reconcile_trace. intros H.
  destruct (result (Deploy.loadOldTasks w)) as [o |] eqn:Hload.
  2:{ rewrite app_nil_r in H. apply loadOldTasks_trace_In in H as [d' H].
      discriminate H. }
  apply in_app_or in H as [H | H].
  { apply loadOldTasks_trace_In in H as [d' H]. discriminate H. }
  apply in_app_or in H as [H | H].
  { apply keepers_no_cancel in H. discriminate H. }
  destruct (for_each (Deploy.processKeeper w) (Deploy.w3fNames w) o)
    as [t1 [rem | msg]] eqn:Hloop; cbn [result snd] in H; [| contradiction].
  apply cancel_trace_In in H as (n & ref & Hin & [H | [H | H]]);
    try discriminate H.
  injection H as -> ->.
  destruct (keepers_loop_sub w (Deploy.w3fNames w) o rem t1 Hloop) as [Hsub _].
  destruct (loadOldTasks_keys w o Hload) as [Hnd Hproto].
  apply Hsub in Hin.
  assert (Hn : n <> "__proto__").
  { intros ->. apply Hproto. apply in_map_iff. now exists ("__proto__", ref). }
  exists n. split; [exact Hn |].
  rewrite last_listed_domains, <- (loadOldTasks_get w o n Hload Hn).
  destruct ref as [id' d']. now apply NoDup_in_get.
Qed.

(** ** The name of a task *)

Section TaskNames.

Lemma chi_length (b : list N) : List.length (Keccak.chi b) = 25.
Proof. unfold Keccak.chi. now rewrite length_map. Qed.

Lemma round_length (a : list N) (rc : N) :
  List.length (Keccak.round a rc) = 25.
Proof.
  unfold Keccak.round, Keccak.iota.
  pose proof (chi_length (Keccak.rho_pi (Keccak.theta a))) as H.
  destruct (Keccak.chi (Keccak.rho_pi (Keccak.theta a))); [discriminate H |].
  exact H.
Qed.

Lemma rounds_length (rcs : list N) :
  forall a, List.length a = 25 ->
  List.length (fold_left Keccak.round rcs a) = 25.
Proof.
  induction rcs as [| rc rcs IH]; intros a H; [exact H |].
  cbn [fold_left]. apply IH. apply round_length.
Qed.

Lemma keccak_f_length (a : list N) : List.length (Keccak.keccak_f a) = 25.
Proof.
  unfold Keccak.keccak_f.
  assert (H : forall rcs, rcs <> [] ->
                List.length (fold_left Keccak.round rcs a) = 25).
  { intros [| rc rcs] Hne; [contradiction |].
    cbn [fold_left]. apply rounds_length. apply round_length. }
  apply H. discriminate.
Qed.

Lemma absorb_length (st blk : list N) :
  List.length (Keccak.absorb st blk) = 25.
Proof. unfold Keccak.absorb. apply keccak_f_length. Qed.

Lemma absorbed_length (bs : list (list N)) :
  forall st, List.length st = 25 ->
  List.length (fold_left Keccak.absorb bs st) = 25.
Proof.
  induction bs as [| blk bs IH]; intros st H; [exact H |].
  cbn [fold_left]. apply IH. apply absorb_length.
Qed.

Lemma bytes_of_lane_length (n : nat) :
  forall x, List.length (Keccak.bytes_of_lane n x) = n.
Proof. induction n as [| n IH]; intros x; simpl; [reflexivity | now rewrite IH]. Qed.

Lemma digest_length (msg : list N) : List.length (Keccak.digest msg) = 32.
Proof.
  unfold Keccak.digest.
  pose proof (absorbed_length
                (Keccak.blocks (List.length (Keccak.pad msg)) (Keccak.pad msg))
                (repeat 0%N 25) eq_refl) as H.
  destruct (fold_left Keccak.absorb _ _) as [| a [| b [| c [| d st]]]];
    try discriminate H.
  cbn [firstn flat_map]. rewrite !length_app, !bytes_of_lane_length. reflexivity.
Qed.

Lemma hexlify_length (bs : list N) :
  String.length (Keccak.hexlify bs) = 2 * List.length bs.
Proof. induction bs as [| b bs IH]; simpl; [reflexivity | rewrite IH; lia]. Qed.

Lemma keccak256_length (data : list Byte.byte) :
  String.length (keccak256 data) = 66.
Proof.
  unfold keccak256. cbn [append String.length].
  now rewrite hexlify_length, digest_length.
Qed.

Lemma append_same_length (a a' b b' : string) :
  String.length b = String.length b' ->
  a ++ b = a' ++ b' -> a = a' /\ b = b'.
Proof.
  revert a'. induction a as [| c a IH]; intros a' Hlen H.
  - destruct a' as [| c' a']; [now split |]. exfalso.
    apply (f_equal String.length) in H. cbn [append String.length] in H.
    rewrite length_append in H. lia.
  - destruct a' as [| c' a'].
    + exfalso. apply (f_equal String.length) in H.
      cbn [append String.length] in H. rewrite length_append in H. lia.
    + cbn [append] in H. injection H as -> H.
      destruct (IH a' Hlen H) as [-> ->]. now split.
Qed.

End TaskNames.

(** X10. The name of a task is the label of its config file (the file
    name without its last five characters), a blank and a hash of 66
    characters.  Cutting the last 67 characters off the name gives the
    label back, and two configs derive the same name only when both their
    labels and their hashes agree. *)
Theorem task_name_round_trip (cf cf' : Deploy.ConfigFile) (ipfs ipfs' : string) :
  String.length (Deploy.createHash (Deploy.rawConfig cf) ipfs) = 66
  /\ Js.slice_end (Deploy.deploymentName cf ipfs) 67
     = Js.slice_end (Deploy.fileName cf) 5
  /\ (Deploy.deploymentName cf ipfs = Deploy.deploymentName cf' ipfs' ->
      Js.slice_end (Deploy.fileName cf) 5 = Js.slice_end (Deploy.fileName cf') 5
      /\ Deploy.createHash (Deploy.rawConfig cf) ipfs
         = Deploy.createHash (Deploy.rawConfig cf') ipfs').
Proof.
  assert (Hlen : forall raw i, String.length (Deploy.createHash raw i) = 66).
  { intros raw i. unfold Deploy.createHash. apply keccak256_length. }
  unfold Deploy.deploymentName.
  pose proof (Hlen (Deploy.rawConfig cf) ipfs) as H1.
  pose proof (Hlen (Deploy.rawConfig cf') ipfs') as H2.
  revert H1 H2.
  generalize (Deploy.createHash (Deploy.rawConfig cf) ipfs) as h.
  generalize (Deploy.createHash (Deploy.rawConfig cf') ipfs') as h'.
  generalize (Js.slice_end (Deploy.fileName cf) 5) as l.
  generalize (Js.slice_end (Deploy.fileName cf') 5) as l'.
  intros l' l h' h H1 H2. clear Hlen.
  split; [exact H1 |]. split.
  - replace 67 with (String.length (" " ++ h))
      by (cbn [append String.length]; now rewrite H1).
    apply slice_end_append.
  - intros H. apply append_same_length in H as [Hl Hh].
    + split; [exact Hl |]. cbn [append] in Hh. now injection Hh.
    + cbn [append String.length]. now rewrite H1, H2.
Qed.

(** ** The properties of the reconciler at work *)

Lemma orphan_cancel :
  In (CancelTask "mainnet" "0x02") (trace (Deploy.reconcile Runs.orphanWorld)).
Proof. vm_compute. do 3 right. left. reflexivity. Qed.

Lemma cancels_only_unclaimed_witness :
  In (CancelTask "mainnet" "0x02") (trace (Deploy.reconcile Runs.orphanWorld))
  /\ exists task,
       In "mainnet" Deploy.domains
       /\ In task (Deploy.activeTasks Runs.orphanWorld "mainnet")
       /\ Deploy.taskId task = "0x02"
       /\ ~ In (Deploy.taskName task) (Deploy.derivedNames Runs.orphanWorld).
Proof.
  split; [exact orphan_cancel |].
  exact (cancels_only_unclaimed_tasks Runs.orphanWorld "mainnet" "0x02"
           orphan_cancel).
Defined.

Lemma unclaimed_names_witness :
  result (Deploy.reconcile Runs.orphanWorld) = Ok tt
  /\ exists d task,
       In d Deploy.domains /\ In task (Deploy.activeTasks Runs.orphanWorld d)
       /\ Deploy.taskName task = "Gnosis task"
       /\ In (CancelTask d (Deploy.taskId task))
             (trace (Deploy.reconcile Runs.orphanWorld)).
Proof.
  assert (Hrun : result (Deploy.reconcile Runs.orphanWorld) = Ok tt)
    by (vm_compute; reflexivity).
  split; [exact Hrun |].
  apply (unclaimed_names_are_cancelled Runs.orphanWorld "Gnosis task" Hrun).
  - apply In_by_computation. vm_compute. reflexivity.
  - discriminate.
  - apply not_In_by_computation. reflexivity.
Defined.

Lemma unlisted_stops_early : ~ DeployRun.reaches_final_pass Runs.unlistedWorld.
Proof. intros (o & rem & H & _). vm_compute in H. discriminate H. Qed.

Lemma aborted_run_witness :
  ~ DeployRun.reaches_final_pass Runs.unlistedWorld
  /\ (exists msg, result (Deploy.reconcile Runs.unlistedWorld) = Throw msg)
  /\ count_events is_cancel (trace (Deploy.reconcile Runs.unlistedWorld)) = 0.
Proof.
  split; [exact unlisted_stops_early |].
  exact (aborted_run_cancels_nothing Runs.unlistedWorld unlisted_stops_early).
Defined.


Lemma secrets_follow_witness :
  exists name hash args tc pre post,
    trace (Deploy.reconcile Runs.freshWorld)
    = (pre ++ CreateBatchExecTask "mainnet" name hash args tc
           :: TxWait "0xnew"
           :: SecretsSet "mainnet" [("SLACK_WEBHOOK_URL", "https://hooks")] "0xnew"
           :: post)%list
    /\ "0xnew" = Deploy.createdTaskId Runs.freshWorld
                   (CreateBatchExecTask "mainnet" name hash args tc)
    /\ Deploy.rejects Runs.freshWorld
         (CreateBatchExecTask "mainnet" name hash args tc) = false
    /\ Deploy.rejects Runs.freshWorld (TxWait "0xnew") = false.
Proof.
  apply (secrets_follow_their_creation Runs.freshWorld "mainnet"
           [("SLACK_WEBHOOK_URL", "https://hooks")] "0xnew").
  do 7 right. left. reflexivity.
Defined.


Lemma working_set_witness :
  result (Deploy.loadOldTasks Runs.orphanWorld)
  = Ok [("Old task",
         {| Deploy.refTaskId := "0x02"; Deploy.refDomain := "mainnet" |});
        ("Gnosis task",
         {| Deploy.refTaskId := "0x03"; Deploy.refDomain := "gnosis" |})]
  /\ DeployRun.last_listed "Old task" (DeployRun.listing Runs.orphanWorld)
     = Some {| Deploy.refTaskId := "0x02"; Deploy.refDomain := "mainnet" |}.
Proof.
  assert (H : result (Deploy.loadOldTasks Runs.orphanWorld)
              = Ok [("Old task",
                     {| Deploy.refTaskId := "0x02"; Deploy.refDomain := "mainnet" |});
                    ("Gnosis task",
                     {| Deploy.refTaskId := "0x03"; Deploy.refDomain := "gnosis" |})])
    by (vm_compute; reflexivity).
  split; [exact H |].
  destruct (working_set_keeps_last_listing Runs.orphanWorld _ H) as (_ & _ & Hlast).
  rewrite <- (Hlast "Old task"); [reflexivity | discriminate].
Defined.

Lemma cancel_last_listed_witness :
  exists n,
    n <> "__proto__"
    /\ DeployRun.last_listed n (DeployRun.listing Runs.orphanWorld)
       = Some {| Deploy.refTaskId := "0x02"; Deploy.refDomain := "mainnet" |}.
Proof.
  exact (cancel_goes_to_last_listed Runs.orphanWorld "mainnet" "0x02"
           orphan_cancel).
Defined.

Lemma task_name_witness :
  Js.slice_end (Deploy.deploymentName Scenario.mainnetFile Scenario.capIpfs) 67
  = "mainnet".
Proof.
  destruct (task_name_round_trip Scenario.mainnetFile Scenario.mainnetFile
              Scenario.capIpfs Scenario.capIpfs) as (_ & Hcut & _).
  rewrite Hcut. reflexivity.
Defined.

(* ================================================================== *)
(** * Further properties of the all-in-one deployer *)
(* ================================================================== *)

Section Actions.

Import DeployAllMain.

Variable P : Event -> Prop.

Lemma all_bind {A B} (m : M A) (f : A -> M B) :
  all_events P m -> (forall a, all_events P (f a)) -> all_events P (bind m f).
Proof.
  intros Hm Hf e H. rewrite trace_bind in H. apply in_app_or in H as [H | H].
  - now apply Hm.
  - destruct (result m) as [a |]; [now apply (Hf a) | contradiction].
Qed.

Lemma all_emit (e : Event) : P e -> all_events P (emit e).
Proof. intros H e' [<- | []]. exact H. Qed.

Lemma all_lift {A} (r : outcome A) : all_events P (lift r).
Proof. intros e []. Qed.

Lemma all_sdk (w : DeployAll.World) (e : Event) :
  P e -> all_events P (DeployAll.sdk w e).
Proof.
  intros H e'. unfold DeployAll.sdk, bind, emit, ret, throw.
  destruct (DeployAll.rejects w e); cbn; intros [<- | []]; exact H.
Qed.

Lemma all_for_each {A S} (body : A -> S -> M S) (xs : list A) (s : S) :
  (forall x s', all_events P (body x s')) -> all_events P (for_each body xs s).
Proof.
  intros Hbody e H. apply for_each_trace_In in H as (x & s0 & _ & H).
  now apply (Hbody x s0).
Qed.

Lemma all_retire (w : DeployAll.World) (d : string) (names : list string) :
  P (GetActiveTasks d) -> (forall line, P (Log line)) ->
  (forall id, P (CancelTask d id)) -> (forall id, P (TxWait id)) ->
  all_events P (DeployAll.retirePreviouslyDeployedTasks w d names).
Proof.
  intros Hlist Hlog Hcancel Hwait.
  unfold DeployAll.retirePreviouslyDeployedTasks.
  apply all_bind; [now apply all_sdk |]. intros _.
  apply all_for_each. intros task []. unfold DeployAll.retireTask.
  repeat first [ apply all_emit | apply all_sdk
               | apply all_bind; [| intros _] ]; auto.
Qed.

Lemma all_createTask (w : DeployAll.World) (d name ipfs args : string)
    (tc : TriggerConfig) (secrets : Js.obj string) :
  P (CreateBatchExecTask d name ipfs args tc) ->
  (forall id, P (TxWait id)) -> (forall id, P (SecretsSet d secrets id)) ->
  all_events P (createTask w d name ipfs args tc secrets).
Proof.
  intros Hcreate Hwait Hset. unfold createTask.
  repeat first [ apply all_sdk | apply all_bind; [| intros _] ]; auto.
Qed.

End Actions.

Ltac keeper_actions :=
  repeat first
    [ apply all_retire
    | apply all_createTask
    | apply all_lift
    | apply all_sdk
    | apply all_bind; [| intro] ].

Section Keepers.

Import Deploy DeployAll DeployAllMain.

Lemma tagged_create (w : World) (d : string) (names : list string)
    (ipfs base args : string) (tc : TriggerConfig) :
  Js.includes names base = true ->
  tagged w d names ipfs
    (CreateBatchExecTask d (base ++ deploymentTag w) ipfs args tc).
Proof.
  intros H. split; [reflexivity |]. split; [reflexivity |].
  exists base. split; [now apply includes_In | reflexivity].
Qed.

Lemma capAutomator_createTask (w : World) (ipfs : string) :
  capAutomatorLogic w ipfs
  = (retirePreviouslyDeployedTasks w "mainnet" ["Cap Automator"] ;;;
     createTask w "mainnet" ("Cap Automator" ++ deploymentTag w) ipfs
       "{threshold: 5000, performGasCheck: true, sendSlackMessages: true}"
       (TriggerTIME hourInMilliseconds)
       [("SLACK_WEBHOOK_URL", slackWebhookUrl w);
        ("ETHERSCAN_API_KEY", etherscanApiKey w)]).
Proof. reflexivity. Qed.

(** Each keeper has a domain and a list of base names: its logic starts
    by retiring the tasks of these names on that domain, and whatever it
    creates is on that domain and carries one of these names. *)
Lemma keeper_plan (k : string) (w1 : World) (ch1 : Chain) (L1 : string -> M unit) :
  In (k, L1) (keepers w1 ch1) ->
  exists d names,
    (forall ipfs, all_events (tagged w1 d names ipfs) (L1 ipfs))
    /\ forall w ch L, In (k, L) (keepers w ch) ->
         forall ipfs, exists rest,
           L ipfs = (retirePreviouslyDeployedTasks w d names ;;; rest).
Proof.
  intros H. unfold keepers in H.
  repeat (destruct H as [[= <- <-] | H]); [.. | contradiction].
  - exists "mainnet", ["Cap Automator"]. split.
    + intros ipfs. rewrite capAutomator_createTask.
      keeper_actions; intros; try exact I; now apply tagged_create.
    + intros w ch L HL ipfs. unfold keepers in HL.
      repeat (destruct HL as [[= <-] | HL]); [.. | contradiction];
        try discriminate.
      eexists. reflexivity.
  - exists "mainnet", ["D3M Ticker"]. split.
    + intros ipfs. unfold d3mTickerLogic.
      keeper_actions; intros; try exact I; now apply tagged_create.
    + intros w ch L HL ipfs. unfold keepers in HL.
      repeat (destruct HL as [[= <-] | HL]); [.. | contradiction];
        try discriminate.
      eexists. reflexivity.
  - exists "gnosis", ["Governance Executor [Gnosis]"]. split.
    + intros ipfs. unfold governanceExecutorLogic.
      keeper_actions; intros; try exact I; now apply tagged_create.
    + intros w ch L HL ipfs. unfold keepers in HL.
      repeat (destruct HL as [[= <-] | HL]); [.. | contradiction];
        try discriminate.
      eexists. reflexivity.
  - exists "mainnet", ["Kill Switch [WBTC-BTC]"; "Kill Switch [stETH-ETH]";
                       "Kill Switch [Time Based]"]. split.
    + intros ipfs. unfold killSwitchLogic.
      keeper_actions; intros; try exact I; now apply tagged_create.
    + intros w ch L HL ipfs. unfold keepers in HL.
      repeat (destruct HL as [[= <-] | HL]); [.. | contradiction];
        try discriminate.
      eexists. reflexivity.
  - exists "mainnet", ["Meta Morpho Cap Updater"]. split.
    + intros ipfs. unfold metaMorphoLogic.
      keeper_actions; intros; try exact I; now apply tagged_create.
    + intros w ch L HL ipfs. unfold keepers in HL.
      repeat (destruct HL as [[= <-] | HL]); [.. | contradiction];
        try discriminate.
      eexists. reflexivity.
  - exists "mainnet", ["XChain Oracle Ticker [Event Based]";
                       "XChain Oracle Ticker [Time Based]"]. split.
    + intros ipfs. unfold xchainOracleTickerLogic.
      keeper_actions; intros; try exact I; now apply tagged_create.
    + intros w ch L HL ipfs. unfold keepers in HL.
      repeat (destruct HL as [[= <-] | HL]); [.. | contradiction];
        try discriminate.
      eexists. reflexivity.
Qed.

Lemma retire_cancels (w : World) (d : string) (names : list string)
    (task : Task) :
  (forall e, rejects w e = false) ->
  In task (activeTasks w d) -> toRetire w names task = true ->
  In (CancelTask d (taskId task))
     (trace (retirePreviouslyDeployedTasks w d names)).
Proof.
  intros Hacc Hin Hsel. unfold retirePreviouslyDeployedTasks.
  rewrite trace_bind. apply in_or_app. right.
  assert (Hlist : result (sdk w (GetActiveTasks d)) = Ok tt).
  { unfold sdk, bind, emit, ret. now rewrite Hacc. }
  rewrite Hlist.
  destruct (retire_loop_accepted w Hacc d
              (filter (toRetire w names) (activeTasks w d))) as [_ Hc].
  assert (H : In (CancelTask d (taskId task))
                 (filter is_cancel
                    (trace (for_each (retireTask w d)
                              (filter (toRetire w names) (activeTasks w d)) tt)))).
  { rewrite Hc. apply in_map_iff. exists task. split; [reflexivity |].
    apply filter_In. now split. }
  now apply filter_In in H.
Qed.

End Keepers.

(** X12. Redeploying a keeper retires what its previous deployment
    created: a task that the logic of a keeper creates in one run is, when
    it is active in a later run and the vendor accepts the calls, cancelled
    by the logic of the same keeper, whatever the two deployment dates. *)
Theorem redeployment_retires_own_tasks
    (w1 w2 : DeployAll.World) (ch1 ch2 : DeployAllMain.Chain)
    (k : string) (L1 L2 : string -> M unit)
    (ipfs1 ipfs2 d name hash args : string) (tc : TriggerConfig) (id : string) :
  In (k, L1) (DeployAllMain.keepers w1 ch1) ->
  In (k, L2) (DeployAllMain.keepers w2 ch2) ->
  19 <= String.length (DeployAll.deploymentDate w1) ->
  19 <= String.length (DeployAll.deploymentDate w2) ->
  In (CreateBatchExecTask d name hash args tc) (trace (L1 ipfs1)) ->
  In {| Deploy.taskId := id; Deploy.taskName := name |}
     (DeployAll.activeTasks w2 d) ->
  (forall e, DeployAll.rejects w2 e = false) ->
  In (CancelTask d id) (trace (L2 ipfs2)).
Proof.
  intros H1 H2 Hd1 Hd2 Hcreate Hactive Hacc.
  destruct (keeper_plan k w1 ch1 L1 H1) as (d0 & names & Htag & Hretire).
  destruct (Htag ipfs1 _ Hcreate) as (-> & _ & base & Hbase & ->).
  destruct (Hretire w2 ch2 L2 H2 ipfs2) as [rest ->].
  rewrite trace_bind. apply in_or_app. left.
  apply (retire_cancels w2 d0 names
           {| Deploy.taskId := id;
              Deploy.taskName := base ++ DeployAll.deploymentTag w1 |} Hacc Hactive).
  unfold DeployAll.toRetire. cbn [Deploy.taskName].
  rewrite (deploymentTag_length w2 Hd2), <- (deploymentTag_length w1 Hd1).
  rewrite slice_end_append. apply includes_In in Hbase. exact Hbase.
Qed.

Section MainLoop.

Import Deploy DeployAll DeployAllMain.

Lemma set_same {V} (o : Js.obj V) (k : string) (v : V) :
  Js.get o k = Some v -> Js.set o k v = o.
Proof.
  induction o as [| [k' v'] o IH]; simpl; [discriminate |].
  destruct (String.eqb k' k) eqn:E.
  - now intros [= ->].
  - intros H. now rewrite IH.
Qed.

Lemma assign_same {V} (o : Js.obj V) (k : string) (v : V) :
  Js.get o k = Some v -> Js.assign o k v = o.
Proof.
  intros H. unfold Js.assign. destruct (String.eqb k "__proto__"); [reflexivity |].
  now apply set_same.
Qed.

Lemma file_after_app (f : Js.obj string) (t1 t2 : list Event) :
  file_after f (t1 ++ t2) = file_after (file_after f t1) t2.
Proof. unfold file_after. apply fold_left_app. Qed.

Lemma file_after_quiet (f : Js.obj string) (t : list Event) :
  (forall e, In e t -> is_write e = false) -> file_after f t = f.
Proof.
  intros H. apply file_after_no_write. unfold count_events.
  now rewrite filter_nothing.
Qed.

Lemma main_loop (w : World) (ch : Chain) (g : Js.obj string) :
  main w ch g = (emit Pause ;;; for_each (deploys w) (keepers w ch) g).
Proof.
  unfold main, keepers, deploys. cbn [for_each fst snd].
  rewrite !bind_emit. f_equal.
  - f_equal.
    repeat match goal with
           | |- context [deploy ?k w ?L g] =>
               destruct (deploy k w L g) as [? [? | ?]]
           | |- context [deploy ?k w ?L ?g0] =>
               is_var g0; destruct (deploy k w L g0) as [? [? | ?]]
           | _ => progress cbn [bind ret trace fst snd]
           end; try reflexivity.
    now rewrite app_nil_r.
  - repeat match goal with
           | |- context [deploy ?k w ?L g] =>
               destruct (deploy k w L g) as [? [? | ?]]
           | |- context [deploy ?k w ?L ?g0] =>
               is_var g0; destruct (deploy k w L g0) as [? [? | ?]]
           | _ => progress cbn [bind ret result fst snd]
           end; reflexivity.
Qed.

Variable w : World.

(** A keeper without content address, or recorded at its current one, is
    passed over. *)
Lemma deploy_skip (k : string) (L : string -> M unit) (g : Js.obj string) :
  Js.get (ipfsDeployments w) k = None
  \/ (exists ipfs, Js.get (ipfsDeployments w) k = Some ipfs
                   /\ Js.get g k = Some ipfs) ->
  result (deploy k w L g) = Ok g
  /\ forall e, In e (trace (deploy k w L g)) -> is_silent e = true.
Proof.
  unfold deploy. intros [H | (ipfs & H & Hg)]; rewrite H.
  - cbn. split; [reflexivity |]. intros e [<- | [<- | []]]; reflexivity.
  - rewrite Hg, String.eqb_refl. cbn. split; [reflexivity |].
    intros e [<- | [<- | []]]; reflexivity.
Qed.

(** One keeper: the object returned has the keeper recorded and is what
    the file holds; when the logic throws the file is left alone. *)
Lemma deploy_outcome (k : string) (L : string -> M unit) (g : Js.obj string) :
  (forall ipfs, all_events (fun e => is_write e = false) (L ipfs)) ->
  match result (deploy k w L g) with
  | Ok g' => g' = recorded w [k] g /\ file_after g (trace (deploy k w L g)) = g'
  | Throw _ => file_after g (trace (deploy k w L g)) = g
  end.
Proof.
  intros Hquiet. unfold deploy, recorded. cbn [fold_left].
  destruct (Js.get (ipfsDeployments w) k) as [ipfs |] eqn:Hipfs.
  2:{ cbn. now split. }
  destruct (match Js.get g k with
            | Some g0 => String.eqb ipfs g0
            | None => false
            end) eqn:Hsame.
  { cbn. split; [| reflexivity].
    destruct (Js.get g k) as [g0 |] eqn:Hg; [| discriminate].
    apply String.eqb_eq in Hsame. subst g0. symmetry. now apply assign_same. }
  rewrite !bind_emit. cbn [trace result fst snd].
  specialize (Hquiet ipfs). unfold all_events in Hquiet.
  destruct (L ipfs) as [tl [[] | msg]]; cbn [trace result fst snd] in *.
  - cbn [bind emit ret trace result fst snd app].
    split; [reflexivity |].
    cbn [file_after fold_left file_step]. rewrite fold_left_app.
    change (fold_left file_step tl g) with (file_after g tl).
    rewrite (file_after_quiet _ _ Hquiet). cbn [fold_left file_step].
    reflexivity.
  - cbn [bind trace result fst snd].
    cbn [file_after fold_left file_step].
    change (fold_left file_step tl g) with (file_after g tl).
    now apply file_after_quiet.
Qed.

Lemma loop_file (ks : list (string * (string -> M unit))) :
  (forall k L, In (k, L) ks ->
     forall ipfs, all_events (fun e => is_write e = false) (L ipfs)) ->
  forall g, exists n,
    n <= List.length ks
    /\ file_after g (trace (for_each (deploys w) ks g))
       = recorded w (firstn n (map fst ks)) g
    /\ match result (for_each (deploys w) ks g) with
       | Ok g' => n = List.length ks /\ g' = recorded w (map fst ks) g
       | Throw _ => n < List.length ks
       end.
Proof.
  induction ks as [| [k L] ks IH]; intros Hquiet g.
  - exists 0. cbn. auto.
  - pose proof (deploy_outcome k L g (Hquiet k L (or_introl eq_refl))) as Hone.
    cbn [for_each]. rewrite trace_bind, result_bind.
    change (deploys w (k, L) g) with (deploy k w L g).
    destruct (result (deploy k w L g)) as [g1 | msg].
    + destruct Hone as [-> Hfile].
      destruct (IH (fun k' L' H => Hquiet k' L' (or_intror H)) (recorded w [k] g))
        as (n & Hn & Hf & Hr).
      exists (S n). split; [cbn [List.length]; lia |]. split.
      * rewrite file_after_app, Hfile, Hf. reflexivity.
      * destruct (result (for_each (deploys w) ks (recorded w [k] g))) as [g' |].
        -- destruct Hr as [-> ->]. split; reflexivity.
        -- cbn [List.length]. lia.
    + exists 0. split; [lia |]. split.
      * rewrite app_nil_r. exact Hone.
      * cbn [List.length]. lia.
Qed.

Lemma loop_skips (ks : list (string * (string -> M unit))) (g : Js.obj string) :
  (forall k L, In (k, L) ks ->
     Js.get (ipfsDeployments w) k = None
     \/ exists ipfs, Js.get (ipfsDeployments w) k = Some ipfs
                     /\ Js.get g k = Some ipfs) ->
  result (for_each (deploys w) ks g) = Ok g
  /\ forall e, In e (trace (for_each (deploys w) ks g)) -> is_silent e = true.
Proof.
  induction ks as [| [k L] ks IH]; intros Hskip.
  - cbn. split; [reflexivity | intros e []].
  - destruct (deploy_skip k L g (Hskip k L (or_introl eq_refl))) as [Hr Ht].
    destruct (IH (fun k' L' H => Hskip k' L' (or_intror H))) as [IHr IHt].
    cbn [for_each]. rewrite trace_bind, result_bind.
    change (deploys w (k, L) g) with (deploy k w L g).
    rewrite Hr. split; [exact IHr |].
    intros e H. apply in_app_or in H as [H | H]; auto.
Qed.

Lemma recorded_get (names : list string) (k ipfs : string) :
  k <> "__proto__" -> Js.get (ipfsDeployments w) k = Some ipfs ->
  forall g, Js.get g k = Some ipfs \/ In k names ->
  Js.get (recorded w names g) k = Some ipfs.
Proof.
  intros Hk Hipfs. unfold recorded.
  induction names as [| k0 names IH]; intros g H.
  - destruct H as [H | []]. exact H.
  - cbn [fold_left]. apply IH.
    destruct (String.eqb k0 k) eqn:E.
    + apply String.eqb_eq in E. subst k0. left. rewrite Hipfs, get_assign.
      apply String.eqb_neq in Hk. now rewrite Hk, String.eqb_refl.
    + destruct H as [H | [H | H]].
      * left. destruct (Js.get (ipfsDeployments w) k0); [| exact H].
        rewrite get_assign, E. now destruct (String.eqb k0 "__proto__").
      * apply String.eqb_neq in E. contradiction.
      * now right.
Qed.

Lemma keepers_quiet (ch : Chain) (k : string) (L : string -> M unit) :
  In (k, L) (keepers w ch) ->
  forall ipfs, all_events (fun e => is_write e = false) (L ipfs).
Proof.
  intros H ipfs. unfold keepers in H.
  repeat (destruct H as [[= <- <-] | H]); [.. | contradiction].
  - rewrite capAutomator_createTask. keeper_actions; intros; reflexivity.
  - unfold d3mTickerLogic. keeper_actions; intros; reflexivity.
  - unfold governanceExecutorLogic. keeper_actions; intros; reflexivity.
  - unfold killSwitchLogic. keeper_actions; intros; reflexivity.
  - unfold metaMorphoLogic. keeper_actions; intros; reflexivity.
  - unfold xchainOracleTickerLogic. keeper_actions; intros; reflexivity.
Qed.

End MainLoop.


(** X14. Running the script again changes nothing: started from the
    object a completed run ended with, and with the same content
    addresses, the script passes over all six keepers; it completes with
    the same object and does nothing but log and prompt: no call to the
    vendor, no write to the file. *)
Theorem second_run_passes_over (w w' : DeployAll.World)
    (ch ch' : DeployAllMain.Chain) (g g' : Js.obj string) :
  result (DeployAllMain.main w ch g) = Ok g' ->
  DeployAll.ipfsDeployments w' = DeployAll.ipfsDeployments w ->
  result (DeployAllMain.main w' ch' g') = Ok g'
  /\ forall e, In e (trace (DeployAllMain.main w' ch' g')) ->
               DeployAllMain.is_silent e = true.
Proof.
  intros Hrun Hsame.
  assert (Hg : g' = DeployAllMain.recorded w' DeployAllMain.keeperOrder g).
  { rewrite main_loop, bind_emit in Hrun. cbn [result snd] in Hrun.
    destruct (loop_file w (DeployAllMain.keepers w ch) (keepers_quiet w ch) g)
      as (n & _ & _ & Hr).
    rewrite Hrun in Hr. destruct Hr as [_ ->].
    unfold DeployAllMain.recorded. now rewrite Hsame. }
  rewrite main_loop, bind_emit. cbn [trace result fst snd].
  destruct (loop_skips w' (DeployAllMain.keepers w' ch') g') as [Hr Ht].
  { intros k L Hin.
    destruct (Js.get (DeployAll.ipfsDeployments w') k) as [ipfs |] eqn:Hipfs;
      [| now left].
    right. exists ipfs. split; [reflexivity |]. rewrite Hg.
    apply recorded_get; [| exact Hipfs |].
    - unfold DeployAllMain.keepers in Hin.
      repeat (destruct Hin as [[= <- _] | Hin]); [.. | contradiction];
        discriminate.
    - right. unfold DeployAllMain.keepers in Hin.
      repeat (destruct Hin as [[= <- _] | Hin]); [.. | contradiction];
        apply In_by_computation; reflexivity. }
  split; [exact Hr |]. intros e [<- | H]; [reflexivity | now apply Ht].
Qed.

(** ** The properties of the all-in-one deployer at work *)

Lemma redeployment_witness :
  In (CancelTask "mainnet" "0xnew")
     (trace (DeployAll.capAutomatorLogic Runs.laterDeployAllWorld
               "QmCapAutomatorV3")).
Proof.
  apply (redeployment_retires_own_tasks
           Scenario.deployAllWorld Runs.laterDeployAllWorld Runs.chain Runs.chain
           "cap-automator"
           (DeployAll.capAutomatorLogic Scenario.deployAllWorld)
           (DeployAll.capAutomatorLogic Runs.laterDeployAllWorld)
           "QmCapAutomatorV2" "QmCapAutomatorV3" "mainnet"
           ("Cap Automator" ++ DeployAll.deploymentTag Scenario.deployAllWorld)
           "QmCapAutomatorV2"
           "{threshold: 5000, performGasCheck: true, sendSlackMessages: true}"
           (TriggerTIME DeployAll.hourInMilliseconds) "0xnew").
  - left. reflexivity.
  - left. reflexivity.
  - vm_compute. lia.
  - vm_compute. lia.
  - vm_compute. do 5 right. left. reflexivity.
  - left. reflexivity.
  - reflexivity.
Defined.

Lemma second_run_witness :
  result (DeployAllMain.main Scenario.deployAllWorld Runs.chain
            Scenario.deployedBefore)
  = Ok [("cap-automator", "QmCapAutomatorV2"); ("d3m-ticker", "QmD3mTickerV1")]
  /\ result (DeployAllMain.main Scenario.deployAllWorld Runs.chain
               [("cap-automator", "QmCapAutomatorV2");
                ("d3m-ticker", "QmD3mTickerV1")])
     = Ok [("cap-automator", "QmCapAutomatorV2"); ("d3m-ticker", "QmD3mTickerV1")].
Proof.
  assert (H : result (DeployAllMain.main Scenario.deployAllWorld Runs.chain
                        Scenario.deployedBefore)
              = Ok [("cap-automator", "QmCapAutomatorV2");
                    ("d3m-ticker", "QmD3mTickerV1")])
    by (vm_compute; reflexivity).
  split; [exact H |].
  destruct (second_run_passes_over Scenario.deployAllWorld Scenario.deployAllWorld
              Runs.chain Runs.chain _ _ H eq_refl) as [Hr _].
  exact Hr.
Defined.

(* ================================================================== *)
(** * Further properties of the credential and of the oracle ticker *)
(* ================================================================== *)



Lemma for_each_invariant {A S} (I : S -> Prop) (body : A -> S -> M S)
    (xs : list A) :
  (forall x s s', In x xs -> I s -> result (body x s) = Ok s' -> I s') ->
  forall s s', I s -> result (for_each body xs s) = Ok s' -> I s'.
Proof.
  induction xs as [| x xs IH]; intros Hstep s s' Hs H.
  - cbn in H. now injection H as <-.
  - cbn [for_each] in H. rewrite result_bind in H.
    destruct (result (body x s)) as [s1 |] eqn:Hx; [| discriminate].
    apply (IH (fun y a b Hy => Hstep y a b (or_intror Hy)) s1 s'); [| exact H].
    apply (Hstep x s s1); [now left | exact Hs | exact Hx].
Qed.

Lemma for_each_no_trace {A S} (body : A -> S -> M S) (xs : list A) :
  (forall x s, trace (body x s) = []) ->
  forall s, trace (for_each body xs s) = [].
Proof.
  intros Hbody. induction xs as [| x xs IH]; intros s; [reflexivity |].
  cbn [for_each]. rewrite trace_bind, Hbody.
  destruct (result (body x s)); [apply IH | reflexivity].
Qed.

Section TickerMessage.

Import XchainOracleTicker.

Variable c : Context.

(** The calls and the message bits collected so far come from the same
    consumers, in the same order. *)
Let aligned (acc : Acc) : Prop :=
  exists entries,
    (forall entry, In entry entries -> In entry (consumers c))
    /\ map to (callsToExecute acc) = map snd entries
    /\ slackMessageBits acc
       = map (fun entry => generateSlackMessageBit (fst entry)) entries.

Lemma aligned_push (acc : Acc) (entry : string * string) (call : Call)
    (rest : list PotData) :
  In entry (consumers c) -> to call = snd entry -> aligned acc ->
  aligned {| results := rest;
             callsToExecute := (callsToExecute acc ++ [call])%list;
             slackMessageBits :=
               (slackMessageBits acc
                ++ [generateSlackMessageBit (fst entry)])%list |}.
Proof.
  intros Hin Hto (entries & Hsub & Hcalls & Hbits).
  exists (entries ++ [entry])%list. cbn [callsToExecute slackMessageBits].
  split; [| split].
  - intros e He. apply in_app_or in He as [He | [<- | []]]; auto.
  - rewrite !map_app, Hcalls. cbn [map]. now rewrite Hto.
  - rewrite map_app, Hbits. reflexivity.
Qed.

Lemma aligned_keep (acc : Acc) (rest : list PotData) :
  aligned acc ->
  aligned {| results := rest; callsToExecute := callsToExecute acc;
             slackMessageBits := slackMessageBits acc |}.
Proof. intros (entries & H). now exists entries. Qed.

Lemma optimismStep_aligned (entry : string * string) (acc acc' : Acc) :
  In entry (consumers c) -> aligned acc ->
  result (optimismStep c entry acc) = Ok acc' -> aligned acc'.
Proof.
  intros Hin Hacc. unfold optimismStep.
  destruct (results acc) as [| d rest]; [discriminate |].
  destruct (stale c d); intros [= <-].
  - now apply aligned_push.
  - now apply aligned_keep.
Qed.

Lemma arbitrumStep_aligned (entry : string * string) (acc acc' : Acc) :
  In entry (consumers c) -> aligned acc ->
  result (arbitrumStep c entry acc) = Ok acc' -> aligned acc'.
Proof.
  intros Hin Hacc. unfold arbitrumStep.
  destruct (Js.get (arbitrumDomainUrls c) (snd entry)); [| now intros [= <-]].
  destruct (results acc) as [| d rest]; [discriminate |].
  destruct (stale c d); intros [= <-].
  - now apply aligned_push.
  - now apply aligned_keep.
Qed.

Lemma optimismStep_trace (entry : string * string) (acc : Acc) :
  trace (optimismStep c entry acc) = [].
Proof.
  unfold optimismStep. destruct (results acc); [reflexivity |].
  now destruct (stale c _).
Qed.

Lemma arbitrumStep_trace (entry : string * string) (acc : Acc) :
  trace (arbitrumStep c entry acc) = [].
Proof.
  unfold arbitrumStep.
  destruct (Js.get (arbitrumDomainUrls c) (snd entry)); [| reflexivity].
  destruct (results acc); [reflexivity |]. now destruct (stale c _).
Qed.

Lemma loops_aligned (acc1 acc2 : Acc) :
  result (for_each (optimismStep c) (optimismStyle c)
            {| results := multicallResults c; callsToExecute := [];
               slackMessageBits := [] |}) = Ok acc1 ->
  result (for_each (arbitrumStep c) (arbitrumStyle c) acc1) = Ok acc2 ->
  aligned acc2.
Proof.
  intros H1 H2.
  assert (A1 : aligned acc1).
  { refine (for_each_invariant aligned (optimismStep c) (optimismStyle c) _
              _ acc1 _ H1).
    - intros entry s s' Hin. apply optimismStep_aligned.
      unfold consumers. apply in_or_app. now left.
    - exists []. cbn. split; [intros entry [] | split; reflexivity]. }
  refine (for_each_invariant aligned (arbitrumStep c) (arbitrumStyle c) _
            acc1 acc2 A1 H2).
  intros entry s s' Hin. apply arbitrumStep_aligned.
  unfold consumers. apply in_or_app. now right.
Qed.

(** Only the forwarder registered under the alias [arbitrum] has an RPC
    URL. *)
Lemma one_supported (a b : string) (url : string) :
  Js.get (arbitrumDomainUrls c) a = Some url ->
  Js.get (arbitrumDomainUrls c) b <> None -> b = a.
Proof.
  unfold arbitrumDomainUrls. cbn [Js.get].
  destruct (String.eqb _ a) eqn:Ea; [| discriminate].
  destruct (String.eqb _ b) eqn:Eb; [| congruence].
  apply String.eqb_eq in Ea, Eb. congruence.
Qed.

Lemma arbitrumCalls_skip (pre rest : list (string * string)) (rs : list PotData) :
  (forall entry, In entry pre ->
                 Js.get (arbitrumDomainUrls c) (snd entry) = None) ->
  arbitrumCalls c (pre ++ rest) rs = arbitrumCalls c rest rs.
Proof.
  induction pre as [| entry pre IH]; intros H; [reflexivity |].
  cbn [app arbitrumCalls]. rewrite (H entry (or_introl eq_refl)).
  apply IH. intros e He. apply H. now right.
Qed.

End TickerMessage.

(** X15. When the handler asks for execution it has at least one call,
    and it sends one Slack message if messages are switched on, none
    otherwise.  The message names the domains of the consumers whose
    forwarders are called, one line per call and in the order of the calls;
    every call goes to a forwarder of the two tables.  When the handler
    answers that no execution is needed, nothing is sent. *)
Theorem slack_message_names_the_calls (c : XchainOracleTicker.Context) :
  (forall calls,
      result (XchainOracleTicker.onRun c) = Ok (XchainOracleTicker.Exec calls) ->
      calls <> []
      /\ exists entries,
           (forall entry, In entry entries ->
                          In entry (XchainOracleTicker.consumers c))
           /\ map XchainOracleTicker.to calls = map snd entries
           /\ trace (XchainOracleTicker.onRun c)
              = if XchainOracleTicker.sendSlackMessages c
                then [SlackMessage (XchainOracleTicker.slackWebhookUrl c)
                        (XchainOracleTicker.generateSlackMessage
                           (map (fun entry =>
                                   XchainOracleTicker.generateSlackMessageBit
                                     (fst entry))
                                entries))]
                else [])
  /\ (forall message,
        result (XchainOracleTicker.onRun c)
        = Ok (XchainOracleTicker.NoExec message) ->
        trace (XchainOracleTicker.onRun c) = []).
Proof.
  unfold XchainOracleTicker.onRun. rewrite !trace_bind, !result_bind.
  rewrite (for_each_no_trace _ _ (optimismStep_trace c)). cbn [app].
  destruct (result (for_each (XchainOracleTicker.optimismStep c)
                      (XchainOracleTicker.optimismStyle c) _))
    as [acc1 |] eqn:H1.
  2:{ split; discriminate. }
  rewrite !trace_bind, !result_bind.
  rewrite (for_each_no_trace _ _ (arbitrumStep_trace c)). cbn [app].
  destruct (result (for_each (XchainOracleTicker.arbitrumStep c)
                      (XchainOracleTicker.arbitrumStyle c) acc1))
    as [acc2 |] eqn:H2.
  2:{ split; discriminate. }
  destruct (loops_aligned c acc1 acc2 H1 H2) as (entries & Hsub & Hcalls & Hbits).
  destruct (XchainOracleTicker.callsToExecute acc2) as [| call calls0] eqn:Hc.
  { cbn. split; [discriminate | reflexivity]. }
  cbn [List.length Nat.eqb]. split.
  - intros calls Hres.
    assert (Hcalls' : calls = call :: calls0).
    { destruct (XchainOracleTicker.sendSlackMessages c); cbn in Hres;
        now injection Hres as <-. }
    subst calls. split; [discriminate |].
    exists entries. split; [exact Hsub |]. split; [exact Hcalls |].
    rewrite <- Hbits. now destruct (XchainOracleTicker.sendSlackMessages c).
  - intros message Hres.
    destruct (XchainOracleTicker.sendSlackMessages c); discriminate Hres.
Qed.

(** X16. The arbitrum-style forwarder that has an RPC URL is judged on the
    first result that follows those of the optimism-style forwarders,
    wherever it stands in its own table: the forwarders before it are
    skipped without taking a result. *)
Theorem arbitrum_forwarder_reads_first_result (c : XchainOracleTicker.Context)
    (entry : string * string) (url : string) (d : XchainOracleTicker.PotData) :
  NoDup (map snd (XchainOracleTicker.consumers c)) ->
  List.length (XchainOracleTicker.multicallResults c)
  = List.length (XchainOracleTicker.consumers c) ->
  In entry (XchainOracleTicker.arbitrumStyle c) ->
  Js.get (XchainOracleTicker.arbitrumDomainUrls c) (snd entry) = Some url ->
  nth_error (XchainOracleTicker.multicallResults c)
            (List.length (XchainOracleTicker.optimismStyle c)) = Some d ->
  exists r,
    result (XchainOracleTicker.onRun c) = Ok r
    /\ XchainOracleTicker.calls_to (snd entry) r
       = if XchainOracleTicker.stale c d
         then [XchainOracleTicker.refreshArbitrumCall c entry url] else [].
Proof.
  intros Hnd Hlen Hin Hurl Hd.
  pose proof (onRun_calls c Hlen) as Hrun. cbv zeta in Hrun.
  set (n := List.length (XchainOracleTicker.optimismStyle c)) in *.
  set (rs1 := firstn n (XchainOracleTicker.multicallResults c)) in *.
  set (rs2 := skipn n (XchainOracleTicker.multicallResults c)) in *.
  unfold XchainOracleTicker.consumers in Hnd. rewrite map_app in Hnd.
  pose proof (NoDup_app_remove_l _ _ Hnd) as Hnd2.
  pose proof (NoDup_app_disjoint _ _ Hnd) as Hdis.
  apply in_split in Hin as (pre & post & Harb).
  rewrite Harb in Hnd2, Hrun. rewrite map_app in Hnd2. cbn [map] in Hnd2.
  assert (Hpre : forall e, In e pre ->
            Js.get (XchainOracleTicker.arbitrumDomainUrls c) (snd e) = None).
  { intros e He.
    destruct (Js.get (XchainOracleTicker.arbitrumDomainUrls c) (snd e)) eqn:Hg;
      [| reflexivity].
    exfalso.
    assert (Heq : snd e = snd entry).
    { apply (one_supported c (snd entry) (snd e) url Hurl). now rewrite Hg. }
    apply NoDup_remove_2 in Hnd2. apply Hnd2. apply in_or_app. left.
    rewrite <- Heq. now apply in_map. }
  assert (Hpost : ~ In (snd entry) (map snd post)).
  { apply NoDup_remove_2 in Hnd2. intros H. apply Hnd2. apply in_or_app.
    now right. }
  rewrite (arbitrumCalls_skip c pre (entry :: post) rs2 Hpre) in Hrun.
  cbn [XchainOracleTicker.arbitrumCalls] in Hrun. rewrite Hurl in Hrun.
  assert (Hrs2 : exists rs', rs2 = d :: rs').
  { subst rs2. rewrite <- hd_error_skipn in Hd.
    destruct (skipn n (XchainOracleTicker.multicallResults c)) as [| d' rs'];
      [discriminate |].
    injection Hd as ->. now exists rs'. }
  destruct Hrs2 as [rs' Hrs2]. rewrite Hrs2 in Hrun.
  eexists. split; [exact Hrun |].
  set (calls := (XchainOracleTicker.optimismCalls c
                   (XchainOracleTicker.optimismStyle c) rs1
                 ++ (if XchainOracleTicker.stale c d
                     then [XchainOracleTicker.refreshArbitrumCall c entry url]
                     else [])
                 ++ XchainOracleTicker.arbitrumCalls c post rs')%list).
  assert (Hto : XchainOracleTicker.calls_to (snd entry)
                  match calls with
                  | [] => XchainOracleTicker.NoExec "Pot data refresh not needed"
                  | _ :: _ => XchainOracleTicker.Exec calls
                  end
                = filter (fun call =>
                            String.eqb (XchainOracleTicker.to call) (snd entry))
                         calls).
  { destruct calls; reflexivity. }
  rewrite Hto. unfold calls. rewrite !filter_app.
  rewrite optimismCalls_elsewhere.
  2:{ intros Hopt. apply (Hdis _ Hopt). rewrite Harb, map_app.
      apply in_or_app. right. now left. }
  rewrite arbitrumCalls_elsewhere by assumption. rewrite app_nil_r. cbn [app].
  destruct (XchainOracleTicker.stale c d); [| reflexivity].
  cbn. now rewrite String.eqb_refl.
Qed.

(** ** The properties of the oracle ticker at work *)

Lemma slack_message_witness :
  exists calls entries,
    result (XchainOracleTicker.onRun Scenario.staleContext)
    = Ok (XchainOracleTicker.Exec calls)
    /\ map XchainOracleTicker.to calls = map snd entries
    /\ trace (XchainOracleTicker.onRun Scenario.staleContext)
       = [SlackMessage "https://hooks"
            (XchainOracleTicker.generateSlackMessage
               (map (fun entry =>
                       XchainOracleTicker.generateSlackMessageBit (fst entry))
                    entries))].
Proof.
  assert (H : result (XchainOracleTicker.onRun Scenario.staleContext)
              = Ok (XchainOracleTicker.Exec
                      [ {| XchainOracleTicker.to := "0xBaseForwarder";
                           XchainOracleTicker.data :=
                             XchainOracleTicker.Refresh 800000 |};
                        {| XchainOracleTicker.to := "0xArbitrumForwarder";
                           XchainOracleTicker.data :=
                             XchainOracleTicker.RefreshArbitrum 800000 1 36 |} ]))
    by (vm_compute; reflexivity).
  destruct (slack_message_names_the_calls Scenario.staleContext) as [Hexec _].
  destruct (Hexec _ H) as (_ & entries & _ & Hto & Ht).
  eexists. exists entries. split; [exact H |]. split; [exact Hto | exact Ht].
Defined.

Lemma shiftedContext_distinct :
  NoDup (map snd (XchainOracleTicker.consumers Scenario.shiftedContext)).
Proof. apply distinct_NoDup. reflexivity. Qed.

(** The forwarder of [arbitrum] stands second in its table; its own pot
    data, the fourth result, is fresh, and it is called on account of the
    third, which belongs to [nova]. *)
Lemma first_result_witness :
  nth_error (XchainOracleTicker.multicallResults Scenario.shiftedContext) 3
  = Some Scenario.fresh
  /\ exists r,
       result (XchainOracleTicker.onRun Scenario.shiftedContext) = Ok r
       /\ XchainOracleTicker.calls_to "0xArbitrumForwarder" r
          = [XchainOracleTicker.refreshArbitrumCall Scenario.shiftedContext
               ("arbitrum", "0xArbitrumForwarder")
               "https://arb1.arbitrum.io/rpc"].
Proof.
  split; [reflexivity |].
  exact (arbitrum_forwarder_reads_first_result Scenario.shiftedContext
           ("arbitrum", "0xArbitrumForwarder") "https://arb1.arbitrum.io/rpc"
           Scenario.outdated shiftedContext_distinct eq_refl
           (or_intror (or_introl eq_refl)) eq_refl eq_refl).
Defined.

(* ================================================================== *)
(** * The two scripts side by side *)
(* ================================================================== *)

Section NameEndings.

Lemma append_assoc_s (a b c : string) : (a ++ b) ++ c = a ++ b ++ c.
Proof. induction a as [| x a IH]; simpl; [reflexivity | now rewrite IH]. Qed.

Lemma last_append_char (a : string) (c x : ascii) :
  last (list_ascii_of_string (a ++ String c "")) x = c.
Proof. rewrite list_ascii_app. cbn [list_ascii_of_string]. apply last_last. Qed.

Lemma last_app_nonempty {A} (l1 l2 : list A) (x : A) :
  l2 <> [] -> last (l1 ++ l2) x = last l2 x.
Proof.
  intros H. induction l1 as [| a l1 IH]; [reflexivity |].
  cbn [app]. destruct (l1 ++ l2)%list eqn:E.
  - apply app_eq_nil in E as [_ E]. contradiction.
  - rewrite <- IH. reflexivity.
Qed.

(** A tagged name ends with [>]. *)
Lemma tagged_last (base : string) (w : DeployAll.World) (x : ascii) :
  last (list_ascii_of_string (base ++ DeployAll.deploymentTag w)) x = ">"%char.
Proof.
  unfold DeployAll.deploymentTag. rewrite <- !append_assoc_s.
  apply last_append_char.
Qed.

Lemma hex_digit_not_gt (n : N) : Keccak.hex_digit (n mod 16) <> ">"%char.
Proof.
  assert (H : (n mod 16 < 16)%N) by now apply N.mod_lt.
  revert H. generalize (n mod 16)%N as m. intros m H.
  assert (Hcases : In m [0; 1; 2; 3; 4; 5; 6; 7; 8; 9; 10; 11; 12; 13; 14; 15]%N).
  { cbn [In]. lia. }
  cbn [In] in Hcases.
  repeat (destruct Hcases as [<- | Hcases]; [discriminate |]). contradiction.
Qed.

Lemma hexlify_last (bs : list N) (x : ascii) :
  bs <> [] ->
  exists b, last (list_ascii_of_string (Keccak.hexlify bs)) x
            = Keccak.hex_digit (b mod 16).
Proof.
  induction bs as [| b bs IH]; intros H; [contradiction |].
  destruct bs as [| b' bs].
  - exists b. reflexivity.
  - destruct IH as [b0 IH]; [discriminate |]. exists b0.
    change (Keccak.hexlify (b :: b' :: bs))
      with (String (Keccak.hex_digit (b / 16))
              (String (Keccak.hex_digit (b mod 16)) (Keccak.hexlify (b' :: bs)))).
    cbn [list_ascii_of_string].
    change (Keccak.hexlify (b' :: bs))
      with (String (Keccak.hex_digit (b' / 16))
              (String (Keccak.hex_digit (b' mod 16)) (Keccak.hexlify bs))) in *.
    cbn [list_ascii_of_string] in *. cbn [last] in *. exact IH.
Qed.

(** A derived name ends with a hexadecimal digit. *)
Lemma derived_last (cf : Deploy.ConfigFile) (ipfs : string) (x : ascii) :
  exists b, last (list_ascii_of_string (Deploy.deploymentName cf ipfs)) x
            = Keccak.hex_digit (b mod 16).
Proof.
  unfold Deploy.deploymentName, Deploy.createHash.
  generalize (getBufferFromString
                (keccak256 (Deploy.rawConfig cf)
                 ++ keccak256 (getBufferFromString ipfs))) as data.
  intros data. unfold keccak256.
  pose proof (digest_length (map Byte.to_N data)) as Hlen.
  revert Hlen. generalize (Keccak.digest (map Byte.to_N data)) as bs.
  intros bs Hlen.
  destruct (hexlify_last bs x) as [b Hb].
  { intros ->. discriminate Hlen. }
  exists b. rewrite !list_ascii_app.
  assert (Hne : list_ascii_of_string (Keccak.hexlify bs) <> []).
  { destruct bs as [| b0 bs]; [discriminate Hlen |]. discriminate. }
  rewrite !last_app_nonempty; [exact Hb | exact Hne | |].
  - intros E. apply app_eq_nil in E as [_ E]. contradiction.
  - intros E. apply app_eq_nil in E as [_ E].
    apply app_eq_nil in E as [_ E]. contradiction.
Qed.

Lemma tagged_not_derived (w : Deploy.World) (w' : DeployAll.World)
    (base : string) :
  ~ In (base ++ DeployAll.deploymentTag w') (Deploy.derivedNames w).
Proof.
  intros H. apply derivedNames_In in H as (k & ipfs & cf & _ & _ & _ & _ & _ & _ & H).
  destruct (derived_last cf ipfs " "%char) as [b Hb].
  rewrite <- H, tagged_last in Hb. symmetry in Hb.
  now apply hex_digit_not_gt in Hb.
Qed.

End NameEndings.

(** X17. The reconciler does not know the tasks of the all-in-one
    deployer.  A name that ends with a deployment tag is never derived
    from a config file: a derived name ends with a hexadecimal digit, a
    tag with [>].  So a run of the reconciler that completes cancels the
    active task of such a name. *)
Theorem reconciler_cancels_tagged_tasks (w : Deploy.World)
    (w' : DeployAll.World) (d base : string) (task : Deploy.Task) :
  result (Deploy.reconcile w) = Ok tt ->
  In d Deploy.domains -> In task (Deploy.activeTasks w d) ->
  Deploy.taskName task = base ++ DeployAll.deploymentTag w' ->
  ~ In (Deploy.taskName task) (Deploy.derivedNames w)
  /\ exists d' task',
       In d' Deploy.domains /\ In task' (Deploy.activeTasks w d')
       /\ Deploy.taskName task' = Deploy.taskName task
       /\ In (CancelTask d' (Deploy.taskId task')) (trace (Deploy.reconcile w)).
Proof.
  intros Hrun Hd Htask Hname.
  assert (Hnot : ~ In (Deploy.taskName task) (Deploy.derivedNames w)).
  { rewrite Hname. apply tagged_not_derived. }
  split; [exact Hnot |].
  assert (Hproto : Deploy.taskName task <> "__proto__").
  { rewrite Hname. intros E.
    pose proof (tagged_last base w' " "%char) as Hl. rewrite E in Hl.
    discriminate Hl. }
  destruct (result (Deploy.loadOldTasks w)) as [o | msg] eqn:Hload.
  2:{ unfold Deploy.reconcile in Hrun. rewrite result_bind, Hload in Hrun.
      discriminate Hrun. }
  destruct (loadOldTasks_spec w) as (_ & L & _).
  destruct (L o Hload) as [Lget Lhas].
  destruct (Js.get o (Deploy.taskName task)) as [ref |] eqn:Hg.
  2:{ exfalso. apply (Lhas (Deploy.taskName task)); [| exact Hproto | exact Hg].
      apply activeNames_In. now exists d, task. }
  destruct (Lget _ _ Hg) as (d' & task' & Hd' & Htask' & Hname' & Href).
  exists d', task'. repeat split; try assumption.
  pose proof (completed_run_cancels w o _ ref Hrun Hload Hg Hnot) as Hc.
  now rewrite Href in Hc.
Qed.

Lemma tagged_tasks_witness :
  exists d' task',
    In d' Deploy.domains /\ In task' (Deploy.activeTasks Runs.mixedWorld d')
    /\ Deploy.taskName task' = "Cap Automator <2024-07-05 13:20:54>"
    /\ In (CancelTask d' (Deploy.taskId task'))
          (trace (Deploy.reconcile Runs.mixedWorld)).
Proof.
  destruct (reconciler_cancels_tagged_tasks Runs.mixedWorld
              Scenario.deployAllWorld "mainnet" "Cap Automator"
              {| Deploy.taskId := "0xnew";
                 Deploy.taskName :=
                   "Cap Automator"
                   ++ DeployAll.deploymentTag Scenario.deployAllWorld |})
    as [_ H].
  - vm_compute. reflexivity.
  - left. reflexivity.
  - left. reflexivity.
  - reflexivity.
  - exact H.
Defined.

(* ================================================================== *)
(** * When a run of the reconciler completes *)
(* ================================================================== *)


Section Completion.

Import Deploy.

Variable w : World.
Hypothesis accepts : forall e, rejects w e = false.




End Completion.


